(** * The WebCodecs liveness pipeline: capture, encode, decode, validate

    A shallow embedding of the TypeScript services of the repository
    (FrameCaptureService, VideoEncoderService, VideoDecoderService,
    ScreenFlashController, OpenAIFaceDetectionService, the two
    VideoDeviceManagers) and of the WebCodecsOrchestrator that composes
    them, followed by the properties of the pipeline.

    The browser objects the services hold (VideoFrame, MediaStreamTrack,
    VideoEncoder, VideoDecoder, the overlay element) live in one store, the
    [World], and are referred to by handle, so that two references to one
    object (the orchestrator's media stream and the capture service's video
    track, a frame and the slot that holds it) see each other's updates.
    A method that can throw is a computation [M A]: it returns the store it
    leaves behind together with either the thrown error or its result. The
    store survives a throw, as the fields of a JavaScript object do.

    The logger and the optional progress, preview and validation callbacks
    only observe the run; they are left out. *)

From Stdlib Require Import ZArith QArith Qminmax String Ascii List Lia Bool.
From stdpp Require Import base tactics option list.
From Stdlib Require Import DecimalString.
Import ListNotations.

Local Open Scope Z_scope.
Local Open Scope string_scope.

(** ** JavaScript errors *)

(** A thrown value: an [Error] (or [DOMException]) with its [name] and
    [message]. *)
Record JsError : Type := mkJsError { name : string; message : string }.

(** [new Error(msg)] *)
Definition Error (msg : string) : JsError := mkJsError "Error" msg.

Definition TypeError (msg : string) : JsError := mkJsError "TypeError" msg.

(** A [DOMException] with the given name. *)
Definition DOMException (nm msg : string) : JsError := mkJsError nm msg.

(** [hay.includes(needle)] *)
Fixpoint includes (needle hay : string) : bool :=
  String.prefix needle hay ||
  match hay with
  | EmptyString => false
  | String _ rest => includes needle rest
  end.

(** [s.substring(0, n)] *)
Definition substring0 (n : nat) (s : string) : string := String.substring 0 n s.

(** ** Computations over a store *)

Definition M (S A : Type) : Type := S -> S * (JsError + A).

Definition ret {S A} (a : A) : M S A := fun s => (s, inr a).

Definition throw {S A} (e : JsError) : M S A := fun s => (s, inl e).

Definition bind {S A B} (m : M S A) (k : A -> M S B) : M S B :=
  fun s =>
    match m s with
    | (s', inl e) => (s', inl e)
    | (s', inr a) => k a s'
    end.

(** [try { m } catch (error) { h error }] *)
Definition try_catch {S A} (m : M S A) (h : JsError -> M S A) : M S A :=
  fun s =>
    match m s with
    | (s', inl e) => h e s'
    | (s', inr a) => (s', inr a)
    end.

(** [try { m } finally { fin }] for a [fin] that does not throw. *)
Definition try_finally {S A} (m : M S A) (fin : S -> S) : M S A :=
  fun s => let (s', r) := m s in (fin s', r).

(** A statement that only updates the store. *)
Definition exec {S} (f : S -> S) : M S unit := fun s => (f s, inr tt).

(** Reading the store. *)
Definition gets {S A} (f : S -> A) : M S A := fun s => (s, inr (f s)).

(** The result of an awaited promise of a collaborator. *)
Definition settle {S A} (r : JsError + A) : M S A :=
  match r with
  | inl e => throw e
  | inr a => ret a
  end.

Declare Scope js_scope.
Delimit Scope js_scope with js.
Notation "x <- m ;; k" := (bind m (fun x => k))
  (at level 100, m at next level, right associativity) : js_scope.
Notation "m ;; k" := (bind m (fun _ => k))
  (at level 100, right associativity) : js_scope.
Local Open Scope js_scope.

(** [for (const x of xs) { body x }] *)
Fixpoint for_of {S A} (xs : list A) (body : A -> M S unit) : M S unit :=
  match xs with
  | [] => ret tt
  | x :: rest => body x ;; for_of rest body
  end.

(** ** Browser objects *)

(** A [VideoFrame]: its timestamp, its picture (an opaque tag) and whether
    [close()] has released it. *)
Record VideoFrame : Type := mkFrame {
  frame_timestamp : Z;
  frame_pixels : N;
  frame_closed : bool
}.

Inductive TrackKind : Type := VideoTrack | AudioTrack.

(** A [MediaStreamTrack] with the part of [getSettings()] the pipeline
    reads; [track_stopped] is set by [stop()]. *)
Record MediaStreamTrack : Type := mkTrack {
  track_kind : TrackKind;
  settings_width : option Z;
  settings_height : option Z;
  track_stopped : bool
}.

(** The [state] attribute of a WebCodecs codec. *)
Inductive CodecState : Type := unconfigured | configured | closed.

Definition CodecState_name (s : CodecState) : string :=
  match s with
  | unconfigured => "unconfigured"
  | configured => "configured"
  | closed => "closed"
  end.

Definition CodecState_eqb (a b : CodecState) : bool :=
  match a, b with
  | unconfigured, unconfigured | configured, configured | closed, closed => true
  | _, _ => false
  end.

Inductive ChunkType : Type := key | delta.

(** An [EncodedVideoChunk]. The codec leaves [duration] unset when the
    frame had none. *)
Record EncodedVideoChunk : Type := mkChunk {
  chunk_type : ChunkType;
  chunk_timestamp : Z;
  chunk_duration : option Z;
  chunk_payload : N
}.

(** The browser's [VideoEncoder]. [enc_queue] holds the frames submitted
    that the codec is not done with, oldest first; [enc_calls] records the
    arguments of every [encode(frame, {keyFrame})] call, oldest first, the
    way the mock of the test suite records them; [enc_emitted]
    tells whether a chunk was output since [configure]. The service
    configures the codec with [latencyMode: 'realtime'], in which an
    encoder may drop frames: [enc_drops i] tells whether this codec drops
    the [i]-th frame it is given, counted from 0, instead of encoding
    it. *)
Record VideoEncoder : Type := mkEncoder {
  enc_state : CodecState;
  enc_queue : list (VideoFrame * bool);
  enc_calls : list (VideoFrame * bool);
  enc_emitted : bool;
  enc_drops : nat -> bool
}.

(** The browser's [VideoDecoder]: the submitted chunks not yet output,
    and whether the next chunk has to be a key chunk. *)
Record VideoDecoder : Type := mkDecoder {
  dec_state : CodecState;
  dec_queue : list EncodedVideoChunk;
  dec_keyRequired : bool
}.

(** ** The fields of the services *)

(** interfaces/IVideoEncoder.ts: [IEncodedChunk] *)
Record IEncodedChunk : Type := mkIEncodedChunk {
  data : EncodedVideoChunk;
  timestamp : Z;
  type : ChunkType
}.

(** interfaces/IFaceDetection.ts: [IFaceDetectionResult] *)
Record IFaceDetectionResult : Type := mkResult {
  isValid : bool;
  hasFace : bool;
  isFacingCamera : bool;
  wearingGlasses : bool;
  wearingHeadwear : bool;
  confidence : Q;
  reason : option string
}.

(** FrameCaptureService. [frameUpdateLock] is [true] when the promise is
    resolved. *)
Record FrameCaptureState : Type := mkCapture {
  videoTrack : option nat;
  processor : option nat;
  reader : option nat;
  currentFrame : option nat;
  isReading : bool;
  frameUpdateLock : bool
}.

(** VideoEncoderService *)
Record EncoderServiceState : Type := mkEncoderService {
  encoder : option VideoEncoder;
  encodedChunks : list IEncodedChunk
}.

(** VideoDecoderService *)
Record DecoderServiceState : Type := mkDecoderService {
  decoder : option VideoDecoder;
  decodedFrames : list nat
}.

(** The overlay [div] of the ScreenFlashController: whether it is in the
    document ([parentNode] is not null), and its two style properties. *)
Record OverlayElement : Type := mkOverlay {
  parentNode : bool;
  style_display : string;
  style_backgroundColor : string
}.

(** The store: every [VideoFrame] and [MediaStreamTrack] created so far
    (a handle is an index), the fields of the four services and of the
    orchestrator, what was drawn on the output canvas and the waits made
    with [sleep], both latest first. *)
Record World : Type := mkWorld {
  frames : list VideoFrame;
  tracks : list MediaStreamTrack;
  capture : FrameCaptureState;
  encoderService : EncoderServiceState;
  decoderService : DecoderServiceState;
  overlay : option OverlayElement;
  mediaStream : option (list nat);
  validationResults : list IFaceDetectionResult;
  capturedFramesForValidation : list nat;
  canvas_drawn : list N;
  slept : list Z
}.

Definition set_frames (x : list VideoFrame) (w : World) : World :=
  mkWorld x (tracks w) (capture w) (encoderService w) (decoderService w) (overlay w)
    (mediaStream w) (validationResults w) (capturedFramesForValidation w)
    (canvas_drawn w) (slept w).

Definition set_tracks (x : list MediaStreamTrack) (w : World) : World :=
  mkWorld (frames w) x (capture w) (encoderService w) (decoderService w) (overlay w)
    (mediaStream w) (validationResults w) (capturedFramesForValidation w)
    (canvas_drawn w) (slept w).

Definition set_capture (x : FrameCaptureState) (w : World) : World :=
  mkWorld (frames w) (tracks w) x (encoderService w) (decoderService w) (overlay w)
    (mediaStream w) (validationResults w) (capturedFramesForValidation w)
    (canvas_drawn w) (slept w).

Definition set_encoderService (x : EncoderServiceState) (w : World) : World :=
  mkWorld (frames w) (tracks w) (capture w) x (decoderService w) (overlay w)
    (mediaStream w) (validationResults w) (capturedFramesForValidation w)
    (canvas_drawn w) (slept w).

Definition set_decoderService (x : DecoderServiceState) (w : World) : World :=
  mkWorld (frames w) (tracks w) (capture w) (encoderService w) x (overlay w)
    (mediaStream w) (validationResults w) (capturedFramesForValidation w)
    (canvas_drawn w) (slept w).

Definition set_overlay (x : option OverlayElement) (w : World) : World :=
  mkWorld (frames w) (tracks w) (capture w) (encoderService w) (decoderService w) x
    (mediaStream w) (validationResults w) (capturedFramesForValidation w)
    (canvas_drawn w) (slept w).

Definition set_mediaStream (x : option (list nat)) (w : World) : World :=
  mkWorld (frames w) (tracks w) (capture w) (encoderService w) (decoderService w)
    (overlay w) x (validationResults w) (capturedFramesForValidation w)
    (canvas_drawn w) (slept w).

Definition set_validationResults (x : list IFaceDetectionResult) (w : World) : World :=
  mkWorld (frames w) (tracks w) (capture w) (encoderService w) (decoderService w)
    (overlay w) (mediaStream w) x (capturedFramesForValidation w)
    (canvas_drawn w) (slept w).

Definition set_capturedFramesForValidation (x : list nat) (w : World) : World :=
  mkWorld (frames w) (tracks w) (capture w) (encoderService w) (decoderService w)
    (overlay w) (mediaStream w) (validationResults w) x
    (canvas_drawn w) (slept w).

Definition set_canvas_drawn (x : list N) (w : World) : World :=
  mkWorld (frames w) (tracks w) (capture w) (encoderService w) (decoderService w)
    (overlay w) (mediaStream w) (validationResults w) (capturedFramesForValidation w)
    x (slept w).

Definition set_slept (x : list Z) (w : World) : World :=
  mkWorld (frames w) (tracks w) (capture w) (encoderService w) (decoderService w)
    (overlay w) (mediaStream w) (validationResults w) (capturedFramesForValidation w)
    (canvas_drawn w) x.

(** [frame.close()]: releases the frame; closing a closed frame does
    nothing. *)
Definition close_in (h : nat) (fs : list VideoFrame) : list VideoFrame :=
  alter (fun f => mkFrame (frame_timestamp f) (frame_pixels f) true) h fs.

Definition VideoFrame_close (h : nat) (w : World) : World :=
  set_frames (close_in h (frames w)) w.

(** A new [VideoFrame] object; its handle is the next free index. *)
Definition VideoFrame_new (f : VideoFrame) (w : World) : nat * World :=
  (length (frames w), set_frames (frames w ++ [f]) w).

(** [frame.clone()]: a second, independently closed frame with the same
    content; throws on a closed frame. *)
Definition VideoFrame_clone (h : nat) : M World nat :=
  fun w =>
    match frames w !! h with
    | Some f =>
        if frame_closed f
        then (w, inl (DOMException "InvalidStateError" "Cannot clone closed VideoFrame."))
        else let (h', w') := VideoFrame_new f w in (w', inr h')
    | None => (w, inl (TypeError "Cannot read properties of undefined (reading 'clone')"))
    end.

(** [track.stop()] *)
Definition stop_in (t : nat) (ts : list MediaStreamTrack) : list MediaStreamTrack :=
  alter (fun k => mkTrack (track_kind k) (settings_width k) (settings_height k) true) t ts.

Definition MediaStreamTrack_stop (t : nat) (w : World) : World :=
  set_tracks (stop_in t (tracks w)) w.

(** [stream.getVideoTracks()] *)
Definition isVideoTrack (w : World) (t : nat) : bool :=
  match tracks w !! t with
  | Some k => match track_kind k with VideoTrack => true | AudioTrack => false end
  | None => false
  end.

Definition getVideoTracks (stream : list nat) (w : World) : list nat :=
  List.filter (isVideoTrack w) stream.

(** [this.sleep(ms)] *)
Definition sleep (ms : Z) : M World unit := exec (fun w => set_slept (ms :: slept w) w).

(** ** FrameCaptureService *)

Module FrameCaptureService.

Definition FIRST_FRAME_TIMEOUT_MS : Z := 5000.
Definition FIRST_FRAME_POLL_INTERVAL_MS : Z := 50.

Definition set_currentFrame (c : option nat) (s : FrameCaptureState) : FrameCaptureState :=
  mkCapture (videoTrack s) (processor s) (reader s) c (isReading s) (frameUpdateLock s).

Definition set_frameUpdateLock (l : bool) (s : FrameCaptureState) : FrameCaptureState :=
  mkCapture (videoTrack s) (processor s) (reader s) (currentFrame s) (isReading s) l.

(** One turn of the loop of [readFrames], for a frame (timestamp and
    picture) the camera delivers: the loop runs while [isReading] and
    [reader] are set; the turn closes the frame held so far and holds the
    new one. A turn is taken as a whole. Its second await is on
    [frameUpdateLock], which [captureFrame] resolves before it returns, so
    the turn resumes in the microtasks that follow the delivery of the
    frame, before a timer or a codec callback lets the orchestrator go
    on. *)
Definition readFrames (value : Z * N) (w : World) : World :=
  let s := capture w in
  if isReading s && bool_decide (is_Some (reader s)) then
    let w1 := match currentFrame s with
              | Some c => VideoFrame_close c w
              | None => w
              end in
    let (h, w2) := VideoFrame_new (mkFrame (fst value) (snd value) false) w1 in
    set_capture (set_currentFrame (Some h) (capture w2)) w2
  else w.

(** The camera delivers the frames [values], oldest first. *)
Definition deliver (values : list (Z * N)) (w : World) : World :=
  fold_left (fun w v => readFrames v w) values w.

(** [waitForFirstFrame]: polls until a frame is held or 5 s have passed;
    [arrivals] are the frames the camera delivers while it polls. *)
Definition waitForFirstFrame (arrivals : list (Z * N)) : M World unit :=
  fun w =>
    let w' := match currentFrame (capture w) with
              | Some _ => w
              | None => deliver arrivals w
              end in
    match currentFrame (capture w') with
    | None => (w', inl (Error "Timeout waiting for first frame"))
    | Some _ => (w', inr tt)
    end.

Definition initialize (stream : list nat) (arrivals : list (Z * N)) : M World unit :=
  videoTracks <- gets (getVideoTracks stream) ;;
  match videoTracks with
  | [] => throw (Error "No video tracks found in media stream")
  | t :: _ =>
      exec (fun w =>
        set_capture
          (mkCapture (Some t) (Some t) (Some t) (currentFrame (capture w)) true
             (frameUpdateLock (capture w))) w) ;;
      waitForFirstFrame arrivals
  end.

Definition captureFrame : M World nat :=
  fun w =>
    match currentFrame (capture w) with
    | None => (w, inl (Error "No frame available to capture"))
    | Some c =>
        try_finally
          (VideoFrame_clone c)
          (fun w => set_capture (set_frameUpdateLock true (capture w)) w)
          (set_capture (set_frameUpdateLock false (capture w)) w)
    end.

Definition dispose (w : World) : World :=
  let s := capture w in
  let w1 := match currentFrame s with
            | Some c => VideoFrame_close c w
            | None => w
            end in
  let w2 := match videoTrack s with
            | Some t => MediaStreamTrack_stop t w1
            | None => w1
            end in
  set_capture (mkCapture None None None None false (frameUpdateLock s)) w2.

End FrameCaptureService.

(** ** VideoEncoderService *)

(** interfaces/IVideoEncoder.ts: [IVideoEncoderConfig] *)
Record IVideoEncoderConfig : Type := mkEncoderConfig {
  codec : string;
  width : Z;
  height : Z;
  bitrate : Z;
  framerate : Z
}.

Module VideoEncoderService.

Definition set_encoder (e : option VideoEncoder) (w : World) : World :=
  set_encoderService (mkEncoderService e (encodedChunks (encoderService w))) w.

Definition set_encodedChunks (cs : list IEncodedChunk) (w : World) : World :=
  set_encoderService (mkEncoderService (encoder (encoderService w)) cs) w.

(** [supported] is the answer of [VideoEncoder.isConfigSupported];
    [drops] tells which frames the codec made by [new VideoEncoder], once
    configured with [latencyMode: 'realtime'], is going to drop. *)
Definition initialize (supported : bool) (drops : nat -> bool) (config : IVideoEncoderConfig)
  : M World unit :=
  if negb supported
  then throw (Error ("Codec " ++ codec config ++ " is not supported"))
  else exec (fun w =>
         set_encoderService
           (mkEncoderService (Some (mkEncoder configured [] [] false drops)) []) w).

Definition handleEncodedChunk (chunk : EncodedVideoChunk) (w : World) : World :=
  let copiedChunk :=
    mkChunk (chunk_type chunk) (chunk_timestamp chunk)
      (Some (match chunk_duration chunk with Some d => d | None => 0 end))
      (chunk_payload chunk) in
  set_encodedChunks
    (encodedChunks (encoderService w)
       ++ [mkIEncodedChunk copiedChunk (chunk_timestamp chunk) (chunk_type chunk)]) w.

(** The codec is done with its oldest queued frame, the one of index
    [length (enc_calls e) - length (enc_queue e)] among the frames it was
    given. Either it drops the frame, and nothing is output for it, or it
    outputs the chunk of the frame through the [output] callback: a key
    chunk when one was asked for or when it is the first chunk since
    [configure], a delta chunk otherwise. *)
Definition codecOutput1 (w : World) : World :=
  match encoder (encoderService w) with
  | Some e =>
      match enc_queue e with
      | (f, k) :: q =>
          if enc_drops e (length (enc_calls e) - length (enc_queue e))
          then
            set_encoder
              (Some (mkEncoder (enc_state e) q (enc_calls e) (enc_emitted e) (enc_drops e))) w
          else
            handleEncodedChunk
              (mkChunk (if k || negb (enc_emitted e) then key else delta)
                 (frame_timestamp f) None (frame_pixels f))
              (set_encoder (Some (mkEncoder (enc_state e) q (enc_calls e) true (enc_drops e))) w)
      | [] => w
      end
  | None => w
  end.

(** The codec is done with up to [n] frames: it outputs a chunk for each
    one that it does not drop. *)
Definition codecOutput (n : nat) (w : World) : World := Nat.iter n codecOutput1 w.

(** [this.encoder.close()]: the codec is closed and its queue dropped. *)
Definition close (w : World) : World :=
  match encoder (encoderService w) with
  | Some e =>
      set_encoder (Some (mkEncoder closed [] (enc_calls e) (enc_emitted e) (enc_drops e))) w
  | None => w
  end.

(** The codec hits an error: the [error] callback logs it, and the
    browser closes the codec. *)
Definition codecError (w : World) : World := close w.

Definition encodeFrame (frame : nat) (keyFrame : bool) : M World unit :=
  fun w =>
    match encoder (encoderService w) with
    | None => (w, inl (Error "Encoder not initialized"))
    | Some e =>
        if negb (CodecState_eqb (enc_state e) configured)
        then (w, inl (Error ("Encoder is in " ++ CodecState_name (enc_state e) ++ " state")))
        else
          (* this.encoder.encode(frame, { keyFrame }) *)
          match frames w !! frame with
          | Some f =>
              if frame_closed f
              then (w, inl (TypeError "Failed to execute 'encode' on 'VideoEncoder': Cannot encode closed frame."))
              else
                let e' := mkEncoder (enc_state e) (enc_queue e ++ [(f, keyFrame)])
                            (enc_calls e ++ [(f, keyFrame)]) (enc_emitted e) (enc_drops e) in
                (VideoFrame_close frame (set_encoder (Some e') w), inr tt)
          | None => (w, inl (TypeError "Failed to execute 'encode' on 'VideoEncoder': parameter 1 is not of type 'VideoFrame'."))
          end
    end.

Definition flush : M World unit :=
  fun w =>
    match encoder (encoderService w) with
    | None => (w, inl (Error "Encoder not initialized"))
    | Some e =>
        if negb (CodecState_eqb (enc_state e) configured)
        then (w, inl (Error ("Cannot flush encoder in " ++ CodecState_name (enc_state e) ++ " state")))
        else (codecOutput (length (enc_queue e)) w, inr tt)
    end.

Definition getEncodedChunks (w : World) : list IEncodedChunk :=
  encodedChunks (encoderService w).

(** The closed [VideoEncoder] is dropped with the reference to it. *)
Definition dispose (w : World) : World :=
  let w1 := match encoder (encoderService w) with
            | Some e =>
                let w' := if negb (CodecState_eqb (enc_state e) closed)
                          then close w
                          else w in
                set_encoder None w'
            | None => w
            end in
  set_encodedChunks [] w1.

End VideoEncoderService.

(** ** VideoDecoderService *)

Module VideoDecoderService.

Definition FRAME_PLAYBACK_INTERVAL_MS : Z := 500.

Definition set_decoder (d : option VideoDecoder) (w : World) : World :=
  set_decoderService (mkDecoderService d (decodedFrames (decoderService w))) w.

Definition set_decodedFrames (fs : list nat) (w : World) : World :=
  set_decoderService (mkDecoderService (decoder (decoderService w)) fs) w.

(** [supported] is the answer of [VideoDecoder.isConfigSupported]. *)
Definition initialize (supported : bool) (codec : string) (width height : Z) : M World unit :=
  if negb supported
  then throw (Error ("Decoder codec " ++ codec ++ " is not supported"))
  else exec (fun w =>
         set_decoderService (mkDecoderService (Some (mkDecoder configured [] true)) []) w).

(** [this.decoder.decode(chunk)]: the browser refuses a chunk when the
    codec is not configured, and a delta chunk where a key chunk is due. *)
Definition decode (chunk : EncodedVideoChunk) : M World unit :=
  fun w =>
    match decoder (decoderService w) with
    | None => (w, inl (TypeError "Cannot read properties of null (reading 'decode')"))
    | Some d =>
        if negb (CodecState_eqb (dec_state d) configured)
        then (w, inl (DOMException "InvalidStateError" "Failed to execute 'decode' on 'VideoDecoder'"))
        else
          match dec_keyRequired d, chunk_type chunk with
          | true, delta =>
              (w, inl (DOMException "DataError" "A key frame is required after configure() or flush()."))
          | _, _ =>
              (set_decoder (Some (mkDecoder (dec_state d) (dec_queue d ++ [chunk]) false)) w, inr tt)
          end
    end.

(** The [output] callback of the decoder, for the frame of one chunk. *)
Definition output (chunk : EncodedVideoChunk) (w : World) : World :=
  let (h, w') :=
    VideoFrame_new (mkFrame (chunk_timestamp chunk) (chunk_payload chunk) false) w in
  set_decodedFrames (decodedFrames (decoderService w') ++ [h]) w'.

(** [await this.decoder.flush()]: every queued chunk is decoded and
    output, oldest first; the next chunk has to be a key chunk again. *)
Definition decoder_flush : M World unit :=
  fun w =>
    match decoder (decoderService w) with
    | None => (w, inl (TypeError "Cannot read properties of null (reading 'flush')"))
    | Some d =>
        if negb (CodecState_eqb (dec_state d) configured)
        then (w, inl (DOMException "InvalidStateError" "Failed to execute 'flush' on 'VideoDecoder'"))
        else
          (fold_left (fun w c => output c w) (dec_queue d)
             (set_decoder (Some (mkDecoder (dec_state d) [] true)) w), inr tt)
    end.

(** [ctx.drawImage(frame, ...)] *)
Definition drawImage (frame : nat) : M World unit :=
  fun w =>
    match frames w !! frame with
    | Some f =>
        if frame_closed f
        then (w, inl (DOMException "InvalidStateError" "Failed to execute 'drawImage': the VideoFrame is closed."))
        else (set_canvas_drawn (frame_pixels f :: canvas_drawn w) w, inr tt)
    | None => (w, inl (TypeError "Failed to execute 'drawImage': parameter 1 is not a VideoFrame."))
    end.

(** The loop of [renderFrames] over the frames left to draw. *)
Fixpoint renderLoop (fs : list nat) : M World unit :=
  match fs with
  | [] => ret tt
  | frame :: rest =>
      drawImage frame ;;
      match rest with
      | [] => ret tt
      | _ :: _ => sleep FRAME_PLAYBACK_INTERVAL_MS
      end ;;
      exec (VideoFrame_close frame) ;;
      renderLoop rest
  end.

(** [hasContext] tells whether [canvas.getContext('2d')] gives a context. *)
Definition renderFrames (hasContext : bool) : M World unit :=
  if negb hasContext then throw (Error "Failed to get canvas 2D context")
  else
    fs <- gets (fun w => decodedFrames (decoderService w)) ;;
    match fs with
    | [] => ret tt
    | _ :: _ =>
        renderLoop fs ;;
        exec (set_decodedFrames [])
    end.

Definition decodeAndRender (chunks : list IEncodedChunk) (hasContext : bool) : M World unit :=
  fun w =>
    match decoder (decoderService w) with
    | None => (w, inl (Error "Decoder not initialized"))
    | Some _ =>
        (for_of chunks (fun chunk => decode (data chunk)) ;;
         decoder_flush ;;
         renderFrames hasContext) w
    end.

Definition dispose (w : World) : World :=
  let w1 := fold_left (fun w frame => VideoFrame_close frame w)
              (decodedFrames (decoderService w)) w in
  let w2 := set_decodedFrames [] w1 in
  match decoder (decoderService w2) with
  | Some d =>
      (* the closed [VideoDecoder] is dropped with the reference to it *)
      set_decoder None w2
  | None => w2
  end.

End VideoDecoderService.

(** ** ScreenFlashController *)

(** interfaces/IScreenFlash.ts: [FlashColor] *)
Inductive FlashColor : Type := BLACK | WHITE.

Module ScreenFlashController.

(** The constructor: [createOverlay] appends a hidden overlay to the
    document. *)
Definition createOverlay (w : World) : World :=
  set_overlay (Some (mkOverlay true "none" "")) w.

Definition setColor (color : FlashColor) (w : World) : World :=
  match overlay w with
  | None => w
  | Some o =>
      let backgroundColor := match color with BLACK => "#000000" | WHITE => "#FFFFFF" end in
      set_overlay (Some (mkOverlay (parentNode o) (style_display o) backgroundColor)) w
  end.

Definition show (w : World) : World :=
  match overlay w with
  | None => w
  | Some o => set_overlay (Some (mkOverlay (parentNode o) "block" (style_backgroundColor o))) w
  end.

Definition hide (w : World) : World :=
  match overlay w with
  | None => w
  | Some o => set_overlay (Some (mkOverlay (parentNode o) "none" (style_backgroundColor o))) w
  end.

Definition dispose (w : World) : World :=
  match overlay w with
  | Some o => if parentNode o then set_overlay None w else w
  | None => w
  end.

End ScreenFlashController.

(** ** OpenAIFaceDetectionService *)

(** What one request to the vision API comes to, as far as [analyzeFrame]
    tells the cases apart. *)
Inductive ApiOutcome : Type :=
  | Thrown (error : JsError)
      (** the frame conversion, [fetch] (an [AbortError] when the 30 s
          timer aborts it), [response.json()] or the access to
          [data.choices[0].message.content] throws *)
  | NotOk (errorMessage : option string) (statusText : string)
      (** [response.ok] is false *)
  | NotJson (content : string)
      (** [JSON.parse(content)] throws *)
  | NotAnObject
  | MissingFields
      (** [hasFace], [isFacingCamera] or [confidence] has the wrong type *)
  | Fields (hasFace isFacingCamera : bool) (wearingGlasses wearingHeadwear : option bool)
      (confidence : Q) (reason : option string).

Module OpenAIFaceDetectionService.

Definition API_TIMEOUT_MS : Z := 30000.

(** The body of the outer [try] of [analyzeFrame]. *)
Definition request (frame : option VideoFrame) (respond : VideoFrame -> ApiOutcome)
  : JsError + IFaceDetectionResult :=
  match frame with
  | None => inl (TypeError "Cannot read properties of undefined (reading 'displayWidth')")
  | Some f =>
      if frame_closed f
      then inl (DOMException "InvalidStateError" "Failed to execute 'drawImage': the VideoFrame is closed.")
      else
        match respond f with
        | Thrown error => inl error
        | NotOk errorMessage statusText =>
            inl (Error ("OpenAI API error: " ++
                   match errorMessage with
                   | Some m => if String.eqb m "" then statusText else m
                   | None => statusText
                   end))
        | NotJson content =>
            inl (Error ("Failed to parse OpenAI response as JSON: " ++ substring0 100 content))
        | NotAnObject =>
            inl (Error "OpenAI returned invalid response format (not an object)")
        | MissingFields =>
            inl (Error "OpenAI response missing required fields (hasFace, isFacingCamera, confidence)")
        | Fields hasFace isFacingCamera wearingGlasses wearingHeadwear confidence reason =>
            inr (mkResult
                   (hasFace && isFacingCamera)
                   hasFace
                   isFacingCamera
                   (match wearingGlasses with Some b => b | None => false end)
                   (match wearingHeadwear with Some b => b | None => false end)
                   (Qmax 0 (Qmin 1 confidence))
                   (Some (match reason with Some r => r | None => "No reason provided" end)))
        end
  end.

(** The outer [catch] of [analyzeFrame]. *)
Definition recover (error : JsError) : JsError + IFaceDetectionResult :=
  let errorMessage := message error in
  if String.eqb (name error) "AbortError"
  then inl (Error "OpenAI API request timed out after 30 seconds")
  else if includes "API key" errorMessage || includes "Unauthorized" errorMessage
  then inl (Error "Invalid or missing OpenAI API key. Please check your API key.")
  else if includes "rate limit" errorMessage || includes "429" errorMessage
  then inl (Error "OpenAI API rate limit exceeded. Please wait and try again.")
  else inr (mkResult false false false false false 0
              (Some ("Analysis failed: " ++ errorMessage))).

(** [analyzeFrame] on the frame object. *)
Definition analyze (apiKey : string) (respond : VideoFrame -> ApiOutcome)
  (frame : option VideoFrame) : JsError + IFaceDetectionResult :=
  if String.eqb apiKey "" then inl (Error "OpenAI API key not set")
  else
    match request frame respond with
    | inr detectionResult => inr detectionResult
    | inl error => recover error
    end.

Definition analyzeFrame (apiKey : string) (respond : VideoFrame -> ApiOutcome)
  (frame : nat) : M World IFaceDetectionResult :=
  fun w => (w, analyze apiKey respond (frames w !! frame)).

End OpenAIFaceDetectionService.

(** ** The collaborators of a run *)

(** interfaces/IVideoDevice.ts: [IVideoDeviceCapability] *)
Record IVideoDeviceCapability : Type := mkDevice {
  deviceId : string;
  label : string;
  device_width : Z;
  device_height : Z;
  frameRate : Z
}.

(** The face detection service handed to the orchestrator: its API key
    and, for the [i]-th call of the run, what the request comes to. *)
Record FaceDetection : Type := mkFaceDetection {
  apiKey : string;
  respond : nat -> VideoFrame -> ApiOutcome
}.

(** Everything a run takes from outside: the device manager, the camera,
    the codecs of the browser, the output canvas and the classifier. *)
Record Env : Type := mkEnv {
  getBestDevice : JsError + IVideoDeviceCapability;
  getMediaStream : IVideoDeviceCapability -> JsError + list MediaStreamTrack;
  firstFrames : list (Z * N);
      (** the frames delivered while the capture service waits for the first *)
  cameraFeed : nat -> list (Z * N);
      (** the frames delivered before the capture of step [i] *)
  encoderSupported : IVideoEncoderConfig -> bool;
  encoderOutputs : nat -> nat;
      (** how many frames the encoder is done with, by itself, before step [i]
          encodes *)
  encoderDrops : nat -> bool;
      (** whether the encoder, in realtime latency mode, drops the [i]-th frame
          it is given *)
  encoderError : option nat;
      (** the step before whose encoding the encoder hits an error, if any *)
  decoderSupported : string -> Z -> Z -> bool;
  canvasContext : bool;
  faceDetectionService : option FaceDetection
}.

(** ** WebCodecsOrchestrator *)

Module WebCodecsOrchestrator.

Definition FLASH_PATTERN : list Z := [0; 0; 1; 1; 0; 0; 1; 1; 0; 0; 1; 1; 0; 0; 1; 1; 0; 0; 1; 1].
Definition TOTAL_DURATION_MS : Z := 10000.
Definition FRAME_COUNT : nat := 20.
Definition FRAME_INTERVAL_MS : Z := TOTAL_DURATION_MS / Z.of_nat FRAME_COUNT.
Definition FLASH_DISPLAY_DELAY_MS : Z := 50.
Definition VALIDATION_FRAME_SAMPLING_RATE : nat := 5.

(** [x || d] on an optional number: [undefined] and [0] give [d]. *)
Definition or_default (x : option Z) (d : Z) : Z :=
  match x with
  | Some v => if Z.eqb v 0 then d else v
  | None => d
  end.

(** A new [MediaStream] over new tracks. *)
Definition MediaStream_new (ts : list MediaStreamTrack) (w : World) : list nat * World :=
  (seq (length (tracks w)) (length ts), set_tracks (tracks w ++ ts) w).

(** [this.mediaStream.getVideoTracks()[0].getSettings()] *)
Definition videoTrackSettings (stream : list nat) : M World MediaStreamTrack :=
  fun w =>
    match getVideoTracks stream w with
    | t :: _ =>
        match tracks w !! t with
        | Some k => (w, inr k)
        | None => (w, inl (TypeError "Cannot read properties of undefined (reading 'getSettings')"))
        end
    | [] => (w, inl (TypeError "Cannot read properties of undefined (reading 'getSettings')"))
    end.

Section Run.

Variable env : Env.

Definition initializeCamera : M World unit :=
  device <- settle (getBestDevice env) ;;
  ts <- settle (getMediaStream env device) ;;
  stream <- (fun w => let (s, w') := MediaStream_new ts w in
                      (set_mediaStream (Some s) w', inr s)) ;;
  FrameCaptureService.initialize stream (firstFrames env).

Definition initializeEncoder : M World unit :=
  mediaStream <- gets mediaStream ;;
  match mediaStream with
  | None => throw (Error "Media stream not initialized")
  | Some stream =>
      settings <- videoTrackSettings stream ;;
      let config :=
        mkEncoderConfig "vp8"
          (or_default (settings_width settings) 1280)
          (or_default (settings_height settings) 720)
          2000000 30 in
      VideoEncoderService.initialize (encoderSupported env config) (encoderDrops env) config
  end.

(** What happens around the orchestrator while step [i] waits for the
    flash to show: the camera delivers frames, and the encoder is done
    with frames, of which it outputs the chunks or which it drops, or
    fails. *)
Definition whileWaiting (i : nat) (w : World) : World :=
  let w1 := FrameCaptureService.deliver (cameraFeed env i) w in
  let w2 := VideoEncoderService.codecOutput (encoderOutputs env i) w1 in
  match encoderError env with
  | Some j => if Nat.eqb i j then VideoEncoderService.codecError w2 else w2
  | None => w2
  end.

(** [FLASH_PATTERN[i] === 0 ? FlashColor.BLACK : FlashColor.WHITE] *)
Definition flashColor (i : nat) : FlashColor :=
  match FLASH_PATTERN !! i with
  | Some 0 => BLACK
  | _ => WHITE
  end.

(** The [if] of the loop that stores a clone of every fifth frame for
    validation, when there is a classifier. *)
Definition storeForValidation (i : nat) (frame : nat) : M World unit :=
  if bool_decide (is_Some (faceDetectionService env))
     && Nat.eqb (i mod VALIDATION_FRAME_SAMPLING_RATE) 0
  then
    clone <- VideoFrame_clone frame ;;
    exec (fun w => set_capturedFramesForValidation
                     (capturedFramesForValidation w ++ [clone]) w)
  else ret tt.

(** The body of the loop of [captureAndEncodeFrames] at index [i], for a
    run of [count] steps of [interval] ms with a display delay of [delay]
    ms. *)
Definition captureStep (count : nat) (interval delay : Z) (i : nat) : M World unit :=
  exec (ScreenFlashController.setColor (flashColor i)) ;;
  sleep delay ;;
  exec (whileWaiting i) ;;
  frame <- FrameCaptureService.captureFrame ;;
  storeForValidation i frame ;;
  VideoEncoderService.encodeFrame frame (Nat.eqb i 0) ;;
  (if Nat.ltb i (count - 1)
   then sleep (interval - delay)
   else ret tt).

Definition captureLoop (count : nat) (interval delay : Z) : M World unit :=
  for_of (seq 0 count) (captureStep count interval delay).

Definition captureAndEncodeFrames : M World unit :=
  exec ScreenFlashController.show ;;
  exec (set_capturedFramesForValidation []) ;;
  captureLoop FRAME_COUNT FRAME_INTERVAL_MS FLASH_DISPLAY_DELAY_MS ;;
  exec ScreenFlashController.hide ;;
  VideoEncoderService.flush.

(** The body of the loop of [validateCapturedFrames] at index [i]. *)
Definition validateStep (service : FaceDetection) (i : nat) (frame : nat) : M World unit :=
  validationResult <-
    OpenAIFaceDetectionService.analyzeFrame (apiKey service) (respond service i) frame ;;
  exec (fun w => set_validationResults (validationResults w ++ [validationResult]) w) ;;
  exec (VideoFrame_close frame).

Fixpoint validateLoop (service : FaceDetection) (i : nat) (fs : list nat) : M World unit :=
  match fs with
  | [] => ret tt
  | frame :: rest => validateStep service i frame ;; validateLoop service (S i) rest
  end.

Definition validateCapturedFrames : M World unit :=
  fs <- gets capturedFramesForValidation ;;
  match faceDetectionService env, fs with
  | None, _ | _, [] => ret tt
  | Some service, _ :: _ =>
      exec (set_validationResults []) ;;
      validateLoop service 0 fs ;;
      exec (set_capturedFramesForValidation [])
  end.

Definition decodeAndRender : M World unit :=
  encodedChunks <- gets VideoEncoderService.getEncodedChunks ;;
  match encodedChunks with
  | [] => throw (Error "No encoded chunks available")
  | _ :: _ =>
      mediaStream <- gets mediaStream ;;
      match mediaStream with
      | None => throw (Error "Media stream not initialized")
      | Some stream =>
          settings <- videoTrackSettings stream ;;
          let width := or_default (settings_width settings) 1280 in
          let height := or_default (settings_height settings) 720 in
          VideoDecoderService.initialize (decoderSupported env "vp8" width height)
            "vp8" width height ;;
          VideoDecoderService.decodeAndRender encodedChunks (canvasContext env)
      end
  end.

Definition cleanup (w : World) : World :=
  let w1 := FrameCaptureService.dispose w in
  let w2 := VideoEncoderService.dispose w1 in
  let w3 := VideoDecoderService.dispose w2 in
  let w4 := ScreenFlashController.dispose w3 in
  let w5 := fold_left (fun w frame => VideoFrame_close frame w)
              (capturedFramesForValidation w4) w4 in
  let w6 := set_capturedFramesForValidation [] w5 in
  match mediaStream w6 with
  | Some stream =>
      set_mediaStream None
        (fold_left (fun w track => MediaStreamTrack_stop track w) stream w6)
  | None => w6
  end.

(** The [try] block of [execute]. *)
Definition workflow : M World unit :=
  initializeCamera ;;
  initializeEncoder ;;
  captureAndEncodeFrames ;;
  decodeAndRender ;;
  (if bool_decide (is_Some (faceDetectionService env))
   then validateCapturedFrames
   else ret tt) ;;
  exec cleanup.

Definition execute : M World unit :=
  try_catch workflow (fun error => exec cleanup ;; throw error).


End Run.

End WebCodecsOrchestrator.

(** ** The camera devices of the browser *)

(** A [MediaDeviceInfo], as [enumerateDevices] lists it. *)
Module MediaDeviceInfo.

Record t : Type := mk { kind : string; deviceId : string; label : string }.

End MediaDeviceInfo.

(** The [video] member of the constraints given to [getUserMedia]:
    [deviceId: { exact }], [width], [height] and [frameRate: { ideal }],
    and [facingMode], each if given. *)
Record MediaTrackConstraints : Type := mkTrackConstraints {
  exact_deviceId : option string;
  ideal_width : option Z;
  ideal_height : option Z;
  ideal_frameRate : option Z;
  facingMode : option string
}.

Record MediaStreamConstraints : Type := mkConstraints {
  video : MediaTrackConstraints;
  audio : option bool
}.

(** [track.getCapabilities()], as far as it is read: [width?.max],
    [height?.max] and [frameRate?.max]. *)
Record MediaTrackCapabilities : Type := mkCapabilities {
  width_max : option Z;
  height_max : option Z;
  frameRate_max : option Z
}.

(** A track of a stream that [getUserMedia] gives: the track object, the
    frame rate of its settings and its capabilities. *)
Record CameraTrack : Type := mkCameraTrack {
  track : MediaStreamTrack;
  settings_frameRate : option Z;
  getCapabilities : MediaTrackCapabilities
}.

(** [navigator.mediaDevices] during one call of a device manager. *)
Record MediaDevices : Type := mkMediaDevices {
  enumerateDevices : JsError + list MediaDeviceInfo.t;
  getUserMedia : MediaStreamConstraints -> JsError + list CameraTrack
}.

(** [await navigator.mediaDevices.getUserMedia(constraints)]: the new
    stream, with what its tracks report. *)
Definition requestStream (md : MediaDevices) (constraints : MediaStreamConstraints)
  : M World (list nat * list CameraTrack) :=
  cts <- settle (getUserMedia md constraints) ;;
  (fun w => let (stream, w') := WebCodecsOrchestrator.MediaStream_new (map track cts) w in
            (w', inr (stream, cts))).

(** [stream.getTracks().forEach((t) => t.stop())] *)
Definition stopTracks (stream : list nat) (w : World) : World :=
  fold_left (fun w t => MediaStreamTrack_stop t w) stream w.

(** [stream.getVideoTracks()[0]], with what the track reports. *)
Definition firstVideoTrack (cts : list CameraTrack) : option CameraTrack :=
  head (List.filter
          (fun ct => match track_kind (track ct) with VideoTrack => true | AudioTrack => false end)
          cts).

(** [devices.filter((d) => d.kind === 'videoinput')] *)
Definition videoInputs (devices : list MediaDeviceInfo.t) : list MediaDeviceInfo.t :=
  List.filter (fun d => String.eqb (MediaDeviceInfo.kind d) "videoinput") devices.

(** [label.toLowerCase()], on the bytes of a label: the letters A to Z
    become a to z. The keywords the labels are searched for are ASCII. *)
Definition toLowerCase_ascii (c : ascii) : ascii :=
  let n := nat_of_ascii c in
  if Nat.leb 65 n && Nat.leb n 90 then ascii_of_nat (n + 32) else c.

Fixpoint toLowerCase (s : string) : string :=
  match s with
  | EmptyString => EmptyString
  | String c rest => String (toLowerCase_ascii c) (toLowerCase rest)
  end.

(** The decimal digits of a number in a template string. *)
Definition toString (n : nat) : string := NilEmpty.string_of_uint (Nat.to_uint n).

(** The numbers of JavaScript are IEEE 754 doubles. [Number_round z] is
    the double nearest to the integer [z], ties going to the even
    significand: an integer below 2^53 in magnitude is a double, a larger
    one is rounded to 53 significant bits. (The doubles end near 2^1024;
    the sizes of a camera are [unsigned long] in the browser's interface,
    below 2^32.) *)
Definition Number_round (z : Z) : Z :=
  let a := Z.abs z in
  if Z.ltb a (2 ^ 53) then z
  else
    let e := Z.log2 a - 52 in
    let q := a / 2 ^ e in
    let r := a mod 2 ^ e in
    let half := 2 ^ (e - 1) in
    let q' := if Z.ltb r half then q
              else if Z.ltb half r then q + 1
              else if Z.even q then q else q + 1 in
    Z.sgn z * (q' * 2 ^ e).

(** [a * b] and [a - b] on numbers that hold integers. *)
Definition Number_mul (a b : Z) : Z := Number_round (a * b).

Definition Number_sub (a b : Z) : Z := Number_round (a - b).

(** [array.sort(compareFn)]: the sort is stable; an element stays before
    the elements [compareFn] does not put before it. *)
Fixpoint sort_insert {A} (compareFn : A -> A -> Z) (x : A) (l : list A) : list A :=
  match l with
  | [] => [x]
  | y :: rest =>
      if Z.leb (compareFn x y) 0 then x :: y :: rest
      else y :: sort_insert compareFn x rest
  end.

Definition sort {A} (compareFn : A -> A -> Z) (l : list A) : list A :=
  fold_right (sort_insert compareFn) [] l.

(** ** VideoDeviceManager *)

(** The device manager that opens a test stream on every camera and
    picks the camera of highest resolution. *)
Module VideoDeviceManager.

Definition virtualCameraKeywords : list string :=
  ["obs"; "virtual"; "snap"; "xsplit"; "streamlabs"; "camera hub"].

(** The body of the loop of [getAvailableDevices] for one device, with
    the capabilities collected so far; it gives those collected after
    it. *)
Definition probe (md : MediaDevices) (device : MediaDeviceInfo.t)
  (capabilities : list IVideoDeviceCapability) : M World (list IVideoDeviceCapability) :=
  try_catch
    (opened <- requestStream md
                 (mkConstraints
                    (mkTrackConstraints (Some (MediaDeviceInfo.deviceId device))
                       None None None None)
                    None) ;;
     let (stream, cts) := opened : list nat * list CameraTrack in
     match firstVideoTrack cts with
     | None => throw (TypeError "Cannot read properties of undefined (reading 'getSettings')")
     | Some ct =>
         let trackCapabilities := getCapabilities ct in
         let width :=
           WebCodecsOrchestrator.or_default (settings_width (track ct))
             (WebCodecsOrchestrator.or_default (width_max trackCapabilities) 1920) in
         let height :=
           WebCodecsOrchestrator.or_default (settings_height (track ct))
             (WebCodecsOrchestrator.or_default (height_max trackCapabilities) 1080) in
         let frameRate :=
           WebCodecsOrchestrator.or_default (settings_frameRate ct)
             (WebCodecsOrchestrator.or_default (frameRate_max trackCapabilities) 30) in
         if Z.leb width 0 || Z.leb height 0 || Z.leb frameRate 0
         then ret capabilities
         else
           let capability :=
             mkDevice (MediaDeviceInfo.deviceId device)
               (if String.eqb (MediaDeviceInfo.label device) EmptyString
                then "Camera " ++ toString (length capabilities + 1)
                else MediaDeviceInfo.label device)
               width height frameRate in
           exec (stopTracks stream) ;;
           ret (capabilities ++ [capability])%list
     end)
    (fun error => ret capabilities).

Fixpoint probeAll (md : MediaDevices) (videoDevices : list MediaDeviceInfo.t)
  (capabilities : list IVideoDeviceCapability) : M World (list IVideoDeviceCapability) :=
  match videoDevices with
  | [] => ret capabilities
  | device :: rest =>
      capabilities' <- probe md device capabilities ;;
      probeAll md rest capabilities'
  end.

Definition getAvailableDevices (md : MediaDevices) : M World (list IVideoDeviceCapability) :=
  devices <- settle (enumerateDevices md) ;;
  probeAll md (videoInputs devices) [].

Definition isVirtual (device : IVideoDeviceCapability) : bool :=
  let lowerLabel := toLowerCase (label device) in
  existsb (fun keyword => includes keyword lowerLabel) virtualCameraKeywords.

(** [width * height] of a device, as the sort computes it: the product
    of two numbers, which is the exact product as long as that is below
    2^53, and the nearest double above. *)
Definition resolution (device : IVideoDeviceCapability) : Z :=
  Number_mul (device_width device) (device_height device).

(** The choice of [getBestDevice] among the devices found. *)
Definition best (devices : list IVideoDeviceCapability) : JsError + IVideoDeviceCapability :=
  match devices with
  | [] => inl (Error "No video devices available")
  | _ :: _ =>
      let realCameras := List.filter (fun device => negb (isVirtual device)) devices in
      let camerasToSort := match realCameras with [] => devices | _ :: _ => realCameras end in
      match sort (fun a b => Number_sub (resolution b) (resolution a)) camerasToSort with
      | best :: _ => inr best
      | [] => inl (TypeError "Cannot read properties of undefined (reading 'label')")
      end
  end.

Definition getBestDevice (md : MediaDevices) : M World IVideoDeviceCapability :=
  devices <- getAvailableDevices md ;;
  settle (best devices).

Definition getMediaStream (md : MediaDevices) (capability : IVideoDeviceCapability)
  : M World (list nat) :=
  opened <- requestStream md
              (mkConstraints
                 (mkTrackConstraints (Some (deviceId capability))
                    (Some (device_width capability)) (Some (device_height capability))
                    (Some (frameRate capability)) (Some "user"))
                 (Some false)) ;;
  ret (fst opened).

End VideoDeviceManager.

(** The device manager that asks for the camera permission once and
    picks a camera by its label. *)
Module PermissionVideoDeviceManager.

(** The field of the manager, beside the store of the browser. *)
Record State : Type := mkState {
  permissionGranted : bool;
  world : World
}.

(** A computation on the store of the browser, as one of the manager. *)
Definition lift {A} (m : M World A) : M State A :=
  fun s => let (w', r) := m (world s) in (mkState (permissionGranted s) w', r).

Definition virtualCameraKeywords : list string :=
  ["obs"; "virtual"; "snap"; "xsplit"; "streamlabs"; "camera hub"].

Definition frontFacingKeywords : list string :=
  ["front"; "user"; "facetime"; "webcam"; "integrated"].

Definition ensurePermission (md : MediaDevices) : M State unit :=
  fun s =>
    if permissionGranted s then (s, inr tt)
    else
      try_catch
        (opened <- lift (requestStream md
                           (mkConstraints
                              (mkTrackConstraints None None None None (Some "user")) None)) ;;
         lift (exec (stopTracks (fst opened))) ;;
         exec (fun s => mkState true (world s)))
        (fun error =>
           throw (Error "Camera permission denied. Please allow camera access to continue."))
        s.

Definition getAvailableDevices (md : MediaDevices) : M State (list IVideoDeviceCapability) :=
  ensurePermission md ;;
  devices <- settle (enumerateDevices md) ;;
  ret (imap
         (fun index device =>
            mkDevice (MediaDeviceInfo.deviceId device)
              (if String.eqb (MediaDeviceInfo.label device) EmptyString
               then "Camera " ++ toString (index + 1)
               else MediaDeviceInfo.label device)
              1280 720 30)
         (videoInputs devices)).

Definition isVirtual (device : IVideoDeviceCapability) : bool :=
  let lowerLabel := toLowerCase (label device) in
  existsb (fun keyword => includes keyword lowerLabel) virtualCameraKeywords.

Definition isFrontFacing (device : IVideoDeviceCapability) : bool :=
  let lowerLabel := toLowerCase (label device) in
  existsb (fun keyword => includes keyword lowerLabel) frontFacingKeywords.

(** The choice of [getBestDevice] among the devices found. *)
Definition best (devices : list IVideoDeviceCapability) : JsError + IVideoDeviceCapability :=
  match devices with
  | [] => inl (Error "No video devices available")
  | _ :: _ =>
      let realCameras := List.filter (fun device => negb (isVirtual device)) devices in
      let candidateCameras := match realCameras with [] => devices | _ :: _ => realCameras end in
      let frontCameras := List.filter isFrontFacing candidateCameras in
      match (match frontCameras with [] => head candidateCameras | _ :: _ => head frontCameras end) with
      | Some best => inr best
      | None => inl (TypeError "Cannot read properties of undefined (reading 'label')")
      end
  end.

Definition getBestDevice (md : MediaDevices) : M State IVideoDeviceCapability :=
  devices <- getAvailableDevices md ;;
  settle (best devices).

Definition getMediaStream (md : MediaDevices) (capability : IVideoDeviceCapability)
  : M State (list nat) :=
  opened <- lift (requestStream md
                    (mkConstraints
                       (mkTrackConstraints (Some (deviceId capability))
                          (Some 1280) (Some 720) (Some 30) (Some "user"))
                       (Some false))) ;;
  match firstVideoTrack (snd opened) with
  | None => throw (TypeError "Cannot read properties of undefined (reading 'getSettings')")
  | Some _ => ret (fst opened)
  end.

End PermissionVideoDeviceManager.

(** ** The application *)

(** [Application.start]: the services are constructed anew for each run;
    constructing the flash controller puts its overlay in the document. *)
Definition initial : World :=
  ScreenFlashController.createOverlay
    (mkWorld [] [] (mkCapture None None None None false true)
       (mkEncoderService None []) (mkDecoderService None []) None
       None [] [] [] []).

(** ** Vocabulary of the properties *)

(** Whatever its outcome, [m] takes a store to one related by [R]. *)
Definition respects (R : World -> World -> Prop) {A} (m : M World A) : Prop :=
  forall w w' r, m w = (w', r) -> R w w'.

Definition stable (R : World -> World -> Prop) (f : World -> World) : Prop :=
  forall w, R w (f w).

(** The two stores agree on the component [proj]. *)
Definition same {X} (proj : World -> X) : World -> World -> Prop :=
  fun w w' => proj w' = proj w.

(** The components of the store. *)
Inductive Field : Type :=
  | Frames | Tracks | Capture | EncoderService | DecoderService | Overlay
  | MediaStream | ValidationResults | CapturedFrames | Canvas | Slept.

(** The two stores agree on a component. *)
Definition agree (fd : Field) (w w' : World) : Prop :=
  match fd with
  | Frames => frames w' = frames w
  | Tracks => tracks w' = tracks w
  | Capture => capture w' = capture w
  | EncoderService => encoderService w' = encoderService w
  | DecoderService => decoderService w' = decoderService w
  | Overlay => overlay w' = overlay w
  | MediaStream => mediaStream w' = mediaStream w
  | ValidationResults => validationResults w' = validationResults w
  | CapturedFrames => capturedFramesForValidation w' = capturedFramesForValidation w
  | Canvas => canvas_drawn w' = canvas_drawn w
  | Slept => slept w' = slept w
  end.

Definition Field_eqb (a b : Field) : bool :=
  match a, b with
  | Frames, Frames | Tracks, Tracks | Capture, Capture | EncoderService, EncoderService
  | DecoderService, DecoderService | Overlay, Overlay | MediaStream, MediaStream
  | ValidationResults, ValidationResults | CapturedFrames, CapturedFrames
  | Canvas, Canvas | Slept, Slept => true
  | _, _ => false
  end.

(** [modifies fds w w']: the stores differ at most on the components
    listed in [fds]. *)
Definition modifies (fds : list Field) (w w' : World) : Prop :=
  forall fd, existsb (Field_eqb fd) fds = false -> agree fd w w'.

(** Whether the overlay, if there is one, is in the document. *)
Definition attached (w : World) : option bool := parentNode <$> overlay w.

(** The frame [h] is released. *)
Definition is_closed (w : World) (h : nat) : Prop :=
  exists f, frames w !! h = Some f /\ frame_closed f = true.

(** The frame [h] is live. *)
Definition is_open (w : World) (h : nat) : Prop :=
  exists f, frames w !! h = Some f /\ frame_closed f = false.

(** The milliseconds waited with [sleep] so far. *)
Definition total_slept (w : World) : Z := fold_right Z.add 0 (slept w).

(** The calls made on the encoder service, by its client and by the
    codec. *)
Inductive EncoderCall : Type :=
  | Initialize (supported : bool) (drops : nat -> bool) (config : IVideoEncoderConfig)
  | EncodeFrame (frame : nat) (keyFrame : bool)
  | Flush
  | Dispose
  | CodecOutput (n : nat)
  | CodecError.

Definition call (c : EncoderCall) (w : World) : World :=
  match c with
  | Initialize supported drops config =>
      fst (VideoEncoderService.initialize supported drops config w)
  | EncodeFrame frame keyFrame => fst (VideoEncoderService.encodeFrame frame keyFrame w)
  | Flush => fst (VideoEncoderService.flush w)
  | Dispose => VideoEncoderService.dispose w
  | CodecOutput n => VideoEncoderService.codecOutput n w
  | CodecError => VideoEncoderService.codecError w
  end.

Definition calls (cs : list EncoderCall) (w : World) : World :=
  fold_left (fun w c => call c w) cs w.

(** Whether the service is initialized after the calls [cs], given
    whether it was [before]: [initialize] has succeeded, and [dispose] was
    not called since. *)
Fixpoint initialized (cs : list EncoderCall) (before : bool) : bool :=
  match cs with
  | [] => before
  | Initialize true _ _ :: cs => initialized cs true
  | Dispose :: cs => initialized cs false
  | _ :: cs => initialized cs before
  end.

(** The errors of a classifier call that [analyzeFrame] throws again: a
    timeout, and those whose message names the API key or the rate limit. *)
Definition rethrown (error : JsError) : bool :=
  String.eqb (name error) "AbortError"
  || includes "API key" (message error) || includes "Unauthorized" (message error)
  || includes "rate limit" (message error) || includes "429" (message error).

(** The phases of a run before validation. *)
Inductive Phase : Type := AcquiringSource | InitializingEncoder | Capturing | Decoding.

Definition phase (env : Env) (p : Phase) : M World unit :=
  match p with
  | AcquiringSource => WebCodecsOrchestrator.initializeCamera env
  | InitializingEncoder => WebCodecsOrchestrator.initializeEncoder env
  | Capturing => WebCodecsOrchestrator.captureAndEncodeFrames env
  | Decoding => WebCodecsOrchestrator.decodeAndRender env
  end.

Definition before (p : Phase) : list Phase :=
  match p with
  | AcquiringSource => []
  | InitializingEncoder => [AcquiringSource]
  | Capturing => [AcquiringSource; InitializingEncoder]
  | Decoding => [AcquiringSource; InitializingEncoder; Capturing]
  end.

(** In a run from [w], the phases before [p] complete and [p] throws
    [e], leaving the store [w1]. *)
Definition raises (env : Env) (p : Phase) (w : World) (e : JsError) (w1 : World) : Prop :=
  exists w0, for_of (before p) (phase env) w = (w0, inr tt) /\ phase env p w0 = (w1, inl e).

(** [w'] holds nothing of what [w1] held: the four services are
    disposed, the frames they and the orchestrator held are closed, and
    the tracks of the media stream are stopped. *)
Definition released (w1 w' : World) : Prop :=
  (videoTrack (capture w') = None /\ processor (capture w') = None /\
   reader (capture w') = None /\ currentFrame (capture w') = None /\
   isReading (capture w') = false) /\
  encoderService w' = mkEncoderService None [] /\
  decoderService w' = mkDecoderService None [] /\
  overlay w' = None /\
  capturedFramesForValidation w' = [] /\
  mediaStream w' = None /\
  (forall stream t k,
     mediaStream w1 = Some stream -> In t stream ->
     tracks w' !! t = Some k -> track_stopped k = true) /\
  (forall h f,
     currentFrame (capture w1) = Some h \/ In h (decodedFrames (decoderService w1))
       \/ In h (capturedFramesForValidation w1) ->
     frames w' !! h = Some f -> frame_closed f = true).

(** Of the frames [l] that a codec is given, the first of them being
    the [i]-th it is given, those that it does not drop. *)
Fixpoint survivors {A} (drops : nat -> bool) (i : nat) (l : list A) : list A :=
  match l with
  | [] => []
  | x :: rest =>
      if drops i then survivors drops (S i) rest else x :: survivors drops (S i) rest
  end.

(** The encoder after [n] steps of a capture loop, with a codec that
    drops the frames [drops]. As long as the codec is configured, the
    frames were submitted with the key frame flag on the first only; the
    codec is done with the first of them, [done], and holds the others in
    its queue; the chunks collected are those of the frames of [done]
    that it did not drop, in this order; and the first chunk is a key
    one. *)
Definition submissions (drops : nat -> bool) (n : nat) (w : World) : Prop :=
  exists e,
    encoder (encoderService w) = Some e /\ enc_drops e = drops /\
    (enc_state e = configured ->
       map snd (enc_calls e) = map (fun i => Nat.eqb i 0) (seq 0 n) /\
       (exists done,
          enc_calls e = (done ++ enc_queue e)%list /\
          map timestamp (encodedChunks (encoderService w))
          = map (fun x => frame_timestamp (fst x)) (survivors drops 0 done)) /\
       match encodedChunks (encoderService w) with
       | c :: _ => type c = key
       | [] => enc_emitted e = false
       end).

(** The arguments of the calls of [encode] so far. *)
Definition submitted (w : World) : list (VideoFrame * bool) :=
  from_option enc_calls [] (encoder (encoderService w)).




(** The frames with a handle below [n] are as they were. *)
Definition kept (n : nat) (w w' : World) : Prop :=
  forall h, (h < n)%nat -> frames w' !! h = frames w !! h.

(** The steps of [execute] before the cleanup. *)
Definition stages (env : Env) : M World unit :=
  WebCodecsOrchestrator.initializeCamera env ;;
  WebCodecsOrchestrator.initializeEncoder env ;;
  WebCodecsOrchestrator.captureAndEncodeFrames env ;;
  WebCodecsOrchestrator.decodeAndRender env ;;
  (if bool_decide (is_Some (faceDetectionService env))
   then WebCodecsOrchestrator.validateCapturedFrames env
   else ret tt).

(** The only live frame, if any, is the one the capture service holds. *)
Definition settled (w : World) : Prop :=
  forall h, is_open w h -> currentFrame (capture w) = Some h.

(** Every live frame is the one the capture service holds or one stored
    for validation. *)
Definition accounted (w : World) : Prop :=
  forall h, is_open w h ->
    currentFrame (capture w) = Some h \/ In h (capturedFramesForValidation w).

(** The frame that the decoder outputs for a chunk, once closed. *)
Definition played (chunk : EncodedVideoChunk) : VideoFrame :=
  mkFrame (chunk_timestamp chunk) (chunk_payload chunk) true.

(** A property of the store that holds after when it holds before. *)
Definition preserves (P : World -> Prop) : World -> World -> Prop :=
  fun w w' => P w -> P w'.

(** What a frame shows and what a chunk carries of it: the timestamp and
    the picture. *)
Definition picture (f : VideoFrame) : Z * N := (frame_timestamp f, frame_pixels f).

Definition chunk_picture (c : IEncodedChunk) : Z * N :=
  (chunk_timestamp (data c), chunk_payload (data c)).

(** Each chunk collected is labelled with the type of its data; and as
    long as the codec is configured, the chunks collected carry, in this
    order, the pictures of the frames that the codec is done with,
    [done], and did not drop. *)
Definition recorded (w : World) : Prop :=
  Forall (fun c => chunk_type (data c) = type c) (encodedChunks (encoderService w)) /\
  exists e,
    encoder (encoderService w) = Some e /\
    (enc_state e = configured ->
     exists done,
       enc_calls e = (done ++ enc_queue e)%list /\
       map chunk_picture (encodedChunks (encoderService w))
       = map (fun x => picture (fst x)) (survivors (enc_drops e) 0 done)).

(** The capture service holds a live frame. *)
Definition holds_live_frame (w : World) : Prop :=
  exists c, currentFrame (capture w) = Some c /\ is_open w c.

(** The encoder service has a codec, and it is configured. *)
Definition encoder_configured (w : World) : Prop :=
  exists e, encoder (encoderService w) = Some e /\ enc_state e = configured.

(** Every live frame is the one the capture service holds, one stored
    for validation, one that the decoder service holds, or the frame
    [o]. *)
Definition owned (o : option nat) (w : World) : Prop :=
  forall h, is_open w h ->
    currentFrame (capture w) = Some h \/ In h (capturedFramesForValidation w)
    \/ In h (decodedFrames (decoderService w)) \/ o = Some h.

(** The encoder service has a codec that was configured: it is
    configured or closed. *)
Definition encoder_started (w : World) : Prop :=
  exists e, encoder (encoderService w) = Some e /\ enc_state e <> unconfigured.

(** No frame is live in [w'] that is not live in [w]. *)
Definition opens_none (w w' : World) : Prop := forall h, is_open w' h -> is_open w h.

(** What the probing manager reads from the test stream of a camera: the
    width, the height and the frame rate of the settings of the first
    video track or, where the settings give nothing or 0, the maximum of
    the capabilities or, where these give nothing or 0 either, 1920, 1080
    and 30. It reads nothing when the stream cannot be opened or has no
    video track, and keeps nothing when one of the three is negative. *)
Definition probed (md : MediaDevices) (device : MediaDeviceInfo.t) : option (Z * Z * Z) :=
  match getUserMedia md
          (mkConstraints
             (mkTrackConstraints (Some (MediaDeviceInfo.deviceId device)) None None None None)
             None) with
  | inl _ => None
  | inr cts =>
      match firstVideoTrack cts with
      | None => None
      | Some ct =>
          let width :=
            WebCodecsOrchestrator.or_default (settings_width (track ct))
              (WebCodecsOrchestrator.or_default (width_max (getCapabilities ct)) 1920) in
          let height :=
            WebCodecsOrchestrator.or_default (settings_height (track ct))
              (WebCodecsOrchestrator.or_default (height_max (getCapabilities ct)) 1080) in
          let frameRate :=
            WebCodecsOrchestrator.or_default (settings_frameRate ct)
              (WebCodecsOrchestrator.or_default (frameRate_max (getCapabilities ct)) 30) in
          if Z.ltb width 0 || Z.ltb height 0 || Z.ltb frameRate 0
          then None
          else Some (width, height, frameRate)
      end
  end.

(** The cameras of [inputs] that can be probed, in order, with what was
    read of them, when [n] cameras are listed already: a camera without a
    label is named after its place in the listing. *)
Fixpoint listed (md : MediaDevices) (n : nat) (inputs : list MediaDeviceInfo.t)
  : list IVideoDeviceCapability :=
  match inputs with
  | [] => []
  | device :: rest =>
      match probed md device with
      | Some (width, height, frameRate) =>
          mkDevice (MediaDeviceInfo.deviceId device)
            (if String.eqb (MediaDeviceInfo.label device) EmptyString
             then "Camera " ++ toString (n + 1)
             else MediaDeviceInfo.label device)
            width height frameRate
          :: listed md (S n) rest
      | None => listed md n rest
      end
  end.

(** The orchestrator has a media stream with a video track. *)
Definition streaming (w : World) : Prop :=
  exists stream, mediaStream w = Some stream /\ getVideoTracks stream w <> [].

(** The calls made on the flash controller while it is in use. *)
Inductive FlashCall : Type := FlashSetColor (color : FlashColor) | FlashShow | FlashHide.

Definition flash (c : FlashCall) (w : World) : World :=
  match c with
  | FlashSetColor color => ScreenFlashController.setColor color w
  | FlashShow => ScreenFlashController.show w
  | FlashHide => ScreenFlashController.hide w
  end.

Definition flashes (cs : list FlashCall) (w : World) : World :=
  fold_left (fun w c => flash c w) cs w.

(** The display a sequence of calls leaves: that of the last [show] or
    [hide], if any. *)
Definition display_after (cs : list FlashCall) (display : string) : string :=
  fold_left
    (fun d c => match c with FlashShow => "block" | FlashHide => "none" | FlashSetColor _ => d end)
    cs display.

(** The colour a sequence of calls leaves: that of the last [setColor],
    if any. *)
Definition color_after (cs : list FlashCall) (backgroundColor : string) : string :=
  fold_left
    (fun b c => match c with
                | FlashSetColor BLACK => "#000000"
                | FlashSetColor WHITE => "#FFFFFF"
                | _ => b
                end)
    cs backgroundColor.

(** ** Scenarios *)

(** A camera that delivers one frame per step, a codec that outputs at
    its own pace, and the classifier [service]; the encoder fails before
    the step [failure], if given. *)
Definition scenario (failure : option nat) (service : option FaceDetection) : Env :=
  mkEnv
    (inr (mkDevice "cam1" "FaceTime HD Camera" 1280 720 30))
    (fun _ => inr [mkTrack VideoTrack (Some 640) (Some 480) false])
    [(0, 7%N)]
    (fun i => [(Z.of_nat (S i) * 1000, N.of_nat i)])
    (fun _ => true)
    (fun i => (i mod 3)%nat)
    (fun _ => false)
    failure
    (fun _ _ _ => true)
    true
    service.

(** A classifier that sees a face in every frame, facing the camera in
    every other one. *)
Definition attentive : FaceDetection :=
  mkFaceDetection "sk-test"
    (fun i _ => Fields true (Nat.even i) None (Some false) (1 # 2) None).

(** A classifier whose second request runs into the 30 s timeout. *)
Definition sluggish : FaceDetection :=
  mkFaceDetection "sk-test"
    (fun i _ =>
       if Nat.eqb i 1
       then Thrown (DOMException "AbortError" "The user aborted a request.")
       else Fields true true None None 1 None).

(** A classifier that answers every request with a page that is not
    JSON. *)
Definition garbled : FaceDetection :=
  mkFaceDetection "sk-test" (fun _ _ => NotJson "<html>Bad Gateway</html>").

(** A store with one live frame. *)
Definition snapshot : World := snd (VideoFrame_new (mkFrame 0 7 false) initial).

(** The store once the camera and the encoder of [scenario] are
    initialized, and once a frame is captured then. *)
Definition ready : World :=
  fst ((WebCodecsOrchestrator.initializeCamera (scenario None None) ;;
        WebCodecsOrchestrator.initializeEncoder (scenario None None)) initial).

Definition holding : World := fst (FrameCaptureService.captureFrame ready).

(** An encoder service that was initialized and then disposed. *)
Definition disposed : World :=
  calls [Initialize false (fun _ => false) (mkEncoderConfig "av2" 1280 720 2000000 30);
         Flush;
         Initialize true (fun _ => false) (mkEncoderConfig "vp8" 1280 720 2000000 30);
         CodecOutput 1; Dispose; CodecError] initial.


(** The capture loop and the capture of [scenario] from [ready]: the
    store each leaves and its outcome. *)
Definition short_loop : World * (JsError + unit) :=
  WebCodecsOrchestrator.captureLoop (scenario None None) 4 500 50 ready.

Definition full_capture : World * (JsError + unit) :=
  WebCodecsOrchestrator.captureAndEncodeFrames (scenario None None) ready.

(** The store that the capture leaves when the encoder fails before the
    fourth step. *)
Definition interrupted : World :=
  fst (WebCodecsOrchestrator.captureAndEncodeFrames (scenario (Some 3%nat) None) ready).

(** The browser of [scenario], without a classifier, but with a codec
    that drops the frame of the eighth capture point; and the capture
    session in it, from the start to the flush of the encoder. *)
Definition lossy : Env :=
  let s := scenario None None in
  mkEnv (getBestDevice s) (getMediaStream s) (firstFrames s) (cameraFeed s)
    (encoderSupported s) (encoderOutputs s) (fun i => Nat.eqb i 7) (encoderError s)
    (decoderSupported s) (canvasContext s) (faceDetectionService s).

Definition lossy_session : World * (JsError + unit) :=
  (WebCodecsOrchestrator.initializeCamera lossy ;;
   WebCodecsOrchestrator.initializeEncoder lossy ;;
   WebCodecsOrchestrator.captureAndEncodeFrames lossy) initial.

(** The browser of [scenario], with the classifier [attentive], but with
    a codec that drops every frame. *)
Definition starved : Env :=
  let s := scenario None (Some attentive) in
  mkEnv (getBestDevice s) (getMediaStream s) (firstFrames s) (cameraFeed s)
    (encoderSupported s) (encoderOutputs s) (fun _ => true) (encoderError s)
    (decoderSupported s) (canvasContext s) (faceDetectionService s).

(** A capture session with the classifier [attentive], phase by phase. *)
Definition sourced : World :=
  fst (WebCodecsOrchestrator.initializeCamera (scenario None (Some attentive)) initial).

Definition encoding : World :=
  fst (WebCodecsOrchestrator.initializeEncoder (scenario None (Some attentive)) sourced).

Definition session : World :=
  fst (WebCodecsOrchestrator.captureAndEncodeFrames (scenario None (Some attentive)) encoding).

(** A camera track as the browser gives it, with its size and frame
    rate. *)
Definition cameraTrack (width height frameRate : Z) : CameraTrack :=
  mkCameraTrack (mkTrack VideoTrack (Some width) (Some height) false) (Some frameRate)
    (mkCapabilities (Some width) (Some height) (Some frameRate)).

(** A laptop with a microphone, a virtual camera, a camera without a
    label, the built-in camera, an external camera, and a camera that
    cannot be opened. *)
Definition laptop : MediaDevices :=
  mkMediaDevices
    (inr [MediaDeviceInfo.mk "audioinput" "mic" "Microphone";
          MediaDeviceInfo.mk "videoinput" "obs" "OBS Virtual Camera";
          MediaDeviceInfo.mk "videoinput" "usb" EmptyString;
          MediaDeviceInfo.mk "videoinput" "built-in" "FaceTime HD Camera";
          MediaDeviceInfo.mk "videoinput" "ext" "USB Webcam 4K";
          MediaDeviceInfo.mk "videoinput" "busy" "Capture Card"])
    (fun constraints =>
       match exact_deviceId (video constraints) with
       | None => inr [cameraTrack 1280 720 30]
       | Some id =>
           if String.eqb id "obs" then inr [cameraTrack 3840 2160 60]
           else if String.eqb id "usb" then inr [cameraTrack 640 480 30]
           else if String.eqb id "built-in" then inr [cameraTrack 1280 720 30]
           else if String.eqb id "ext" then inr [cameraTrack 3840 2160 30]
           else inl (DOMException "NotReadableError" "Could not start video source")
       end).

(** A browser with a microphone and six cameras: one whose settings give
    a width of 0 and no height, one that reports a negative width, one
    that cannot be opened, an ordinary one, one whose stream has an audio
    track only, and one that has capabilities but empty settings. *)
Definition bench : MediaDevices :=
  mkMediaDevices
    (inr [MediaDeviceInfo.mk "audioinput" "mic" "Microphone";
          MediaDeviceInfo.mk "videoinput" "zero" EmptyString;
          MediaDeviceInfo.mk "videoinput" "neg" "Broken Camera";
          MediaDeviceInfo.mk "videoinput" "busy" "Capture Card";
          MediaDeviceInfo.mk "videoinput" "hd" "HD Camera";
          MediaDeviceInfo.mk "videoinput" "audio" "Sound Card";
          MediaDeviceInfo.mk "videoinput" "caps" EmptyString])
    (fun constraints =>
       match exact_deviceId (video constraints) with
       | None => inr [cameraTrack 1280 720 30]
       | Some id =>
           if String.eqb id "zero"
           then inr [mkCameraTrack (mkTrack VideoTrack (Some 0) None false) None
                       (mkCapabilities None None None)]
           else if String.eqb id "neg" then inr [cameraTrack (-1) 720 30]
           else if String.eqb id "hd" then inr [cameraTrack 1280 720 30]
           else if String.eqb id "audio"
           then inr [mkCameraTrack (mkTrack AudioTrack None None false) None
                       (mkCapabilities None None None)]
           else if String.eqb id "caps"
           then inr [mkCameraTrack (mkTrack VideoTrack None None false) None
                       (mkCapabilities (Some 800) (Some 600) (Some 15))]
           else inl (DOMException "NotReadableError" "Could not start video source")
       end).

(** A browser with two cameras whose sizes are such that the products of
    width and height, 9007199515875288 and 9007199515875289, are the same
    double. *)
Definition twins : MediaDevices :=
  mkMediaDevices
    (inr [MediaDeviceInfo.mk "videoinput" "a" "Cam A";
          MediaDeviceInfo.mk "videoinput" "b" "Cam B"])
    (fun constraints =>
       match exact_deviceId (video constraints) with
       | None => inr [cameraTrack 1280 720 30]
       | Some id =>
           if String.eqb id "a" then inr [cameraTrack 94906266 94906268 30]
           else inr [cameraTrack 94906267 94906267 30]
       end).

(** A browser in which the user refuses the camera. *)
Definition refused : MediaDevices :=
  mkMediaDevices (enumerateDevices laptop)
    (fun _ => inl (DOMException "NotAllowedError" "Permission denied")).

(** The manager with the permission, when it is made, and once the user
    has allowed the camera of [laptop]. *)
Definition unasked : PermissionVideoDeviceManager.State :=
  PermissionVideoDeviceManager.mkState false initial.

Definition granted : PermissionVideoDeviceManager.State :=
  fst (PermissionVideoDeviceManager.ensurePermission laptop unasked).

(** The store of [initial] once a microphone and a camera are open:
    track 0 is an audio track and track 1 a video track. *)
Definition plugged : World :=
  snd (WebCodecsOrchestrator.MediaStream_new
         [mkTrack AudioTrack None None false;
          mkTrack VideoTrack (Some 640) (Some 480) false] initial).

(** A store with two live frames, both stored for validation. *)
Definition stocked : World :=
  set_capturedFramesForValidation [0; 1]%nat
    (snd (VideoFrame_new (mkFrame 1000 8 false) snapshot)).

(** * Properties *)

Local Open Scope list_scope.

(** ** Computations *)

Lemma bind_inr {S A B} (m : M S A) (k : A -> M S B) s s' b :
  bind m k s = (s', inr b) ->
  exists s1 a, m s = (s1, inr a) /\ k a s1 = (s', inr b).
Proof.
  unfold bind. destruct (m s) as [s1 [e | a]]; [discriminate | eauto].
Qed.

Lemma bind_inl {S A B} (m : M S A) (k : A -> M S B) s s' e :
  bind m k s = (s', inl e) ->
  m s = (s', inl e) \/ exists s1 a, m s = (s1, inr a) /\ k a s1 = (s', inl e).
Proof.
  unfold bind. destruct (m s) as [s1 [e1 | a]]; [left; congruence | eauto].
Qed.

Lemma bind_run {S A B} (m : M S A) (k : A -> M S B) s s1 a :
  m s = (s1, inr a) -> bind m k s = k a s1.
Proof. unfold bind. now intros ->. Qed.

Lemma bind_fail {S A B} (m : M S A) (k : A -> M S B) s s1 e :
  m s = (s1, inl e) -> bind m k s = (s1, inl e).
Proof. unfold bind. now intros ->. Qed.

(** A loop invariant for [for_of]: [P i] holds before the turn of index
    [i]. *)
Lemma for_of_invariant {S A} (P : nat -> S -> Prop) (xs : list A) (body : A -> M S unit) :
  (forall i x s s', xs !! i = Some x -> P i s -> body x s = (s', inr tt) -> P (1 + i)%nat s') ->
  forall s s', P 0%nat s -> for_of xs body s = (s', inr tt) -> P (length xs) s'.
Proof.
  revert P. induction xs as [| x xs IH]; intros P Hstep s s' H0 Hrun.
  - cbn in Hrun. now inversion Hrun; subst.
  - cbn [for_of] in Hrun. apply bind_inr in Hrun as (s1 & [] & Hx & Hrest).
    apply (IH (fun i => P (1 + i)%nat)) with (s := s1); [| now apply (Hstep 0%nat x s) | exact Hrest].
    intros i y t t' Hy. apply (Hstep (1 + i)%nat y t t'). exact Hy.
Qed.

(** ** What a computation leaves alone *)

Section Respects.

Context (R : World -> World -> Prop) `{!Reflexive R} `{!Transitive R}.

Local Abbreviation respects := (respects R).
Local Abbreviation stable := (stable R).

Lemma respects_ret {A} (a : A) : respects (ret a).
Proof. intros w w' r [= <- _]. reflexivity. Qed.

Lemma respects_throw {A} e : respects (@throw World A e).
Proof. intros w w' r [= <- _]. reflexivity. Qed.

Lemma respects_settle {A} (x : JsError + A) : respects (settle x).
Proof. destruct x; [apply respects_throw | apply respects_ret]. Qed.

Lemma respects_gets {A} (f : World -> A) : respects (gets f).
Proof. intros w w' r [= <- _]. reflexivity. Qed.

Lemma respects_exec f : stable f -> respects (exec f).
Proof. intros Hf w w' r [= <- _]. apply Hf. Qed.

Lemma respects_bind {A B} (m : M World A) (k : A -> M World B) :
  respects m -> (forall a, respects (k a)) -> respects (bind m k).
Proof.
  intros Hm Hk w w' r. unfold bind.
  destruct (m w) as [w1 [e | a]] eqn:E; intros H.
  - inversion H; subst. eapply Hm, E.
  - etransitivity; [eapply Hm, E | eapply Hk, H].
Qed.

Lemma respects_try_catch {A} (m : M World A) h :
  respects m -> (forall e, respects (h e)) -> respects (try_catch m h).
Proof.
  intros Hm Hh w w' r. unfold try_catch.
  destruct (m w) as [w1 [e | a]] eqn:E; intros H.
  - etransitivity; [eapply Hm, E | eapply Hh, H].
  - inversion H; subst. eapply Hm, E.
Qed.

Lemma respects_try_finally {A} (m : M World A) fin :
  respects m -> stable fin -> respects (try_finally m fin).
Proof.
  intros Hm Hf w w' r. unfold try_finally.
  destruct (m w) as [w1 r1] eqn:E. intros [= <- _].
  etransitivity; [eapply Hm, E | apply Hf].
Qed.

Lemma respects_for_of {A} (xs : list A) body :
  (forall x, respects (body x)) -> respects (for_of xs body).
Proof.
  intros Hb. induction xs as [| x xs IH]; cbn [for_of].
  - apply respects_ret.
  - apply respects_bind; [apply Hb | intros _; exact IH].
Qed.

Lemma stable_id : stable (fun w => w).
Proof. intros w. reflexivity. Qed.

Lemma stable_compose f g : stable f -> stable g -> stable (fun w => g (f w)).
Proof. intros Hf Hg w. etransitivity; [apply Hf | apply Hg]. Qed.

Lemma stable_fold_left {A} (f : World -> A -> World) (l : list A) :
  (forall a, stable (fun w => f w a)) -> stable (fun w => fold_left f l w).
Proof.
  intros Hf. induction l as [| a l IH]; intros w; cbn.
  - reflexivity.
  - etransitivity; [apply (Hf a) | apply IH].
Qed.

Lemma stable_iter n f : stable f -> stable (Nat.iter n f).
Proof.
  intros Hf. induction n as [| n IH]; intros w; cbn.
  - reflexivity.
  - etransitivity; [apply IH | apply Hf].
Qed.

End Respects.

Lemma respects_impl (R R' : World -> World -> Prop) {A} (m : M World A) :
  (forall w w', R w w' -> R' w w') -> respects R m -> respects R' m.
Proof. intros HR Hm w w' r H. eapply HR, Hm, H. Qed.

Lemma stable_impl (R R' : World -> World -> Prop) f :
  (forall w w', R w w' -> R' w w') -> stable R f -> stable R' f.
Proof. intros HR Hf w. apply HR, Hf. Qed.

#[local] Instance modifies_refl fds : Reflexive (modifies fds).
Proof. intros w []; reflexivity. Qed.

#[local] Instance modifies_trans fds : Transitive (modifies fds).
Proof.
  intros a b c Hab Hbc fd Hfd. specialize (Hab fd Hfd). specialize (Hbc fd Hfd).
  destruct fd; cbn in *; congruence.
Qed.

Lemma modifies_sub fds fds' w w' :
  (forall fd, existsb (Field_eqb fd) fds' = false -> existsb (Field_eqb fd) fds = false) ->
  modifies fds w w' -> modifies fds' w w'.
Proof. intros Hsub H fd Hfd. apply H, Hsub, Hfd. Qed.

Lemma modifies_attached fds w w' :
  existsb (Field_eqb Overlay) fds = false -> modifies fds w w' -> same attached w w'.
Proof. intros Hfd H. unfold same, attached. now rewrite (H Overlay Hfd). Qed.

#[local] Instance same_refl {X} (proj : World -> X) : Reflexive (same proj).
Proof. intros w. reflexivity. Qed.

#[local] Instance same_trans {X} (proj : World -> X) : Transitive (same proj).
Proof. intros a b c Hab Hbc. unfold same in *. congruence. Qed.

(** ** Disposal *)

Lemma deliver_inactive values w :
  isReading (capture w) = false ->
  FrameCaptureService.deliver values w = w.
Proof.
  intros H. unfold FrameCaptureService.deliver.
  induction values as [| v values IH]; cbn; [reflexivity |].
  unfold FrameCaptureService.readFrames at 2. rewrite H. cbn. exact IH.
Qed.

(** Closing frames, and stopping tracks, only touches the frames, and
    the tracks. *)
Lemma close_all_frames (l : list nat) (w : World) :
  fold_left (fun w frame => VideoFrame_close frame w) l w
  = set_frames (fold_left (fun fs h => close_in h fs) l (frames w)) w.
Proof.
  revert w. induction l as [| h l IH]; intros w; cbn.
  - now destruct w.
  - now rewrite IH.
Qed.

Lemma stop_all_tracks (l : list nat) (w : World) :
  fold_left (fun w track => MediaStreamTrack_stop track w) l w
  = set_tracks (fold_left (fun ts t => stop_in t ts) l (tracks w)) w.
Proof.
  revert w. induction l as [| h l IH]; intros w; cbn.
  - now destruct w.
  - now rewrite IH.
Qed.

(** Each disposal as one update of the store. *)
Lemma FrameCaptureService_dispose_eq w :
  FrameCaptureService.dispose w
  = set_capture (mkCapture None None None None false (frameUpdateLock (capture w)))
      (set_tracks (from_option (fun t => stop_in t (tracks w)) (tracks w) (videoTrack (capture w)))
         (set_frames (from_option (fun c => close_in c (frames w)) (frames w)
                        (currentFrame (capture w))) w)).
Proof.
  unfold FrameCaptureService.dispose.
  destruct w as [fr tr [vt pr rd cur ir lk] en de ov ms vr cf cd sl].
  destruct cur, vt; reflexivity.
Qed.

Lemma VideoEncoderService_dispose_eq w :
  VideoEncoderService.dispose w = set_encoderService (mkEncoderService None []) w.
Proof.
  unfold VideoEncoderService.dispose, VideoEncoderService.close.
  destruct w as [fr tr ca [[[st q cl em] |] ch] de ov ms vr cf cd sl]; [destruct st |]; reflexivity.
Qed.

Lemma VideoDecoderService_dispose_eq w :
  VideoDecoderService.dispose w
  = set_decoderService (mkDecoderService None [])
      (set_frames (fold_left (fun fs h => close_in h fs) (decodedFrames (decoderService w))
                     (frames w)) w).
Proof.
  unfold VideoDecoderService.dispose. rewrite close_all_frames.
  destruct w as [fr tr ca en [[d |] df] ov ms vr cf cd sl]; reflexivity.
Qed.

Lemma ScreenFlashController_dispose_eq w :
  ScreenFlashController.dispose w
  = set_overlay (match overlay w with
                 | Some o => if parentNode o then None else Some o
                 | None => None
                 end) w.
Proof.
  unfold ScreenFlashController.dispose.
  destruct w as [fr tr ca en de [[[] dis bg] |] ms vr cf cd sl]; reflexivity.
Qed.

Lemma cleanup_eq w :
  WebCodecsOrchestrator.cleanup w
  = mkWorld
      (fold_left (fun fs h => close_in h fs)
         (decodedFrames (decoderService w) ++ capturedFramesForValidation w)
         (from_option (fun c => close_in c (frames w)) (frames w) (currentFrame (capture w))))
      (fold_left (fun ts t => stop_in t ts) (default [] (mediaStream w))
         (from_option (fun t => stop_in t (tracks w)) (tracks w) (videoTrack (capture w))))
      (mkCapture None None None None false (frameUpdateLock (capture w)))
      (mkEncoderService None [])
      (mkDecoderService None [])
      (match overlay w with
       | Some o => if parentNode o then None else Some o
       | None => None
       end)
      None
      (validationResults w)
      []
      (canvas_drawn w)
      (slept w).
Proof.
  unfold WebCodecsOrchestrator.cleanup.
  rewrite ScreenFlashController_dispose_eq, VideoDecoderService_dispose_eq,
    VideoEncoderService_dispose_eq, FrameCaptureService_dispose_eq.
  rewrite close_all_frames, fold_left_app.
  destruct w as [fr tr ca en de ov ms vr cf cd sl].
  destruct ms as [stream |]; cbn; [rewrite stop_all_tracks |]; reflexivity.
Qed.

(** C9. Disposing is idempotent: for the frame capture service, the
    encoder, the decoder and the flash controller, and for the cleanup of
    the orchestrator, a second call on the store the first call left
    returns normally and leaves that store as it is. *)
Theorem dispose_idempotent (w : World) :
  exec FrameCaptureService.dispose (FrameCaptureService.dispose w)
    = (FrameCaptureService.dispose w, inr tt) /\
  exec VideoEncoderService.dispose (VideoEncoderService.dispose w)
    = (VideoEncoderService.dispose w, inr tt) /\
  exec VideoDecoderService.dispose (VideoDecoderService.dispose w)
    = (VideoDecoderService.dispose w, inr tt) /\
  exec ScreenFlashController.dispose (ScreenFlashController.dispose w)
    = (ScreenFlashController.dispose w, inr tt) /\
  exec WebCodecsOrchestrator.cleanup (WebCodecsOrchestrator.cleanup w)
    = (WebCodecsOrchestrator.cleanup w, inr tt).
Proof.
  unfold exec.
  assert (H1 : FrameCaptureService.dispose (FrameCaptureService.dispose w)
               = FrameCaptureService.dispose w)
    by (rewrite !FrameCaptureService_dispose_eq; reflexivity).
  assert (H2 : VideoEncoderService.dispose (VideoEncoderService.dispose w)
               = VideoEncoderService.dispose w)
    by (rewrite !VideoEncoderService_dispose_eq; reflexivity).
  assert (H3 : VideoDecoderService.dispose (VideoDecoderService.dispose w)
               = VideoDecoderService.dispose w)
    by (rewrite !VideoDecoderService_dispose_eq; reflexivity).
  assert (H4 : ScreenFlashController.dispose (ScreenFlashController.dispose w)
               = ScreenFlashController.dispose w).
  { rewrite !ScreenFlashController_dispose_eq.
    destruct w as [fr tr ca en de [[[] dis bg] |] ms vr cf cd sl]; reflexivity. }
  assert (H5 : WebCodecsOrchestrator.cleanup (WebCodecsOrchestrator.cleanup w)
               = WebCodecsOrchestrator.cleanup w).
  { rewrite (cleanup_eq w). rewrite cleanup_eq. cbn.
    destruct (overlay w) as [[[] dis bg] |]; reflexivity. }
  now rewrite H1, H2, H3, H4, H5.
Qed.

(** C10. Once the frame capture service is disposed, whatever the camera
    still delivers, no frame is held and [captureFrame] fails, leaving the
    store as it is, with the error it gives before any frame was seen. *)
Theorem captureFrame_after_dispose (w : World) (values : list (Z * N)) :
  let w' := FrameCaptureService.deliver values (FrameCaptureService.dispose w) in
  currentFrame (capture w') = None /\
  FrameCaptureService.captureFrame w' = (w', inl (Error "No frame available to capture")) /\
  FrameCaptureService.captureFrame initial
    = (initial, inl (Error "No frame available to capture")).
Proof.
  cbv zeta. rewrite deliver_inactive by reflexivity.
  repeat split.
Qed.

(** ** The encoder service *)

Lemma codecOutput1_initialized w :
  bool_decide (is_Some (encoder (encoderService (VideoEncoderService.codecOutput1 w))))
  = bool_decide (is_Some (encoder (encoderService w))).
Proof.
  unfold VideoEncoderService.codecOutput1.
  destruct (encoder (encoderService w)) as [e |] eqn:E; [| now rewrite E].
  destruct (enc_queue e) as [| [f k] q]; [now rewrite E |].
  destruct (enc_drops e _); reflexivity.
Qed.

Lemma codecOutput_initialized n w :
  bool_decide (is_Some (encoder (encoderService (VideoEncoderService.codecOutput n w))))
  = bool_decide (is_Some (encoder (encoderService w))).
Proof.
  unfold VideoEncoderService.codecOutput.
  induction n as [| n IH]; cbn; [reflexivity |].
  now rewrite codecOutput1_initialized.
Qed.

Lemma calls_initialized cs w :
  bool_decide (is_Some (encoder (encoderService (calls cs w))))
  = initialized cs (bool_decide (is_Some (encoder (encoderService w)))).
Proof.
  unfold calls. revert w. induction cs as [| c cs IH]; intros w; cbn [fold_left initialized].
  - reflexivity.
  - rewrite IH. destruct c as [[] drops config | frame keyFrame | | | n |]; cbn [call].
    + reflexivity.
    + reflexivity.
    + f_equal. unfold VideoEncoderService.encodeFrame.
      destruct (encoder (encoderService w)) as [e |] eqn:E; cbn; [| now rewrite E].
      destruct (negb _); cbn; [now rewrite E |].
      destruct (frames w !! frame) as [f |]; cbn; [| now rewrite E].
      destruct (frame_closed f); cbn; [now rewrite E | reflexivity].
    + f_equal. unfold VideoEncoderService.flush.
      destruct (encoder (encoderService w)) as [e |] eqn:E; cbn; [| now rewrite E].
      destruct (negb _); cbn; [now rewrite E |].
      now rewrite codecOutput_initialized, E.
    + now rewrite VideoEncoderService_dispose_eq.
    + now rewrite codecOutput_initialized.
    + f_equal. unfold VideoEncoderService.codecError, VideoEncoderService.close.
      destruct (encoder (encoderService w)) as [e |] eqn:E; cbn; [reflexivity | now rewrite E].
Qed.

(** C7. On an encoder service that is not initialized, because
    [initialize] has not succeeded yet or [dispose] was called since,
    [encodeFrame] and [flush] fail with "Encoder not initialized" and
    leave the store as it is. *)
Theorem encoder_not_initialized (w0 : World) (cs : list EncoderCall)
  (frame : nat) (keyFrame : bool) :
  encoder (encoderService w0) = None ->
  initialized cs false = false ->
  let w := calls cs w0 in
  VideoEncoderService.encodeFrame frame keyFrame w = (w, inl (Error "Encoder not initialized")) /\
  VideoEncoderService.flush w = (w, inl (Error "Encoder not initialized")).
Proof.
  intros H0 Hcs w.
  assert (E : encoder (encoderService w) = None).
  { pose proof (calls_initialized cs w0) as H. rewrite H0 in H. cbn in H.
    fold w in H. rewrite Hcs in H.
    destruct (encoder (encoderService w)); [discriminate H | reflexivity]. }
  unfold VideoEncoderService.encodeFrame, VideoEncoderService.flush. now rewrite E.
Qed.

Lemma encoder_not_initialized_witness :
  VideoEncoderService.encodeFrame 0 true disposed
    = (disposed, inl (Error "Encoder not initialized")) /\
  VideoEncoderService.flush disposed = (disposed, inl (Error "Encoder not initialized")).
Proof.
  unfold disposed.
  apply (encoder_not_initialized initial); vm_compute; reflexivity.
Defined.

(** C8. [encodeFrame] on success has submitted the frame, which was
    live, to the codec with the flag given, and has closed it; on failure
    it leaves the store as it is, so the frame is not closed. It fails
    with "Encoder not initialized" without an encoder, and with "Encoder
    is in ... state" when the codec is not configured. *)
Theorem encodeFrame_releases_frame (w w' : World) (frame : nat) (keyFrame : bool)
  (r : JsError + unit) :
  VideoEncoderService.encodeFrame frame keyFrame w = (w', r) ->
  (r = inr tt ->
     is_open w frame /\ is_closed w' frame /\
     exists e e' f,
       encoder (encoderService w) = Some e /\ encoder (encoderService w') = Some e' /\
       frames w !! frame = Some f /\ enc_calls e' = (enc_calls e ++ [(f, keyFrame)])%list) /\
  (forall error, r = inl error -> w' = w) /\
  (encoder (encoderService w) = None -> r = inl (Error "Encoder not initialized")) /\
  (forall e, encoder (encoderService w) = Some e -> enc_state e <> configured ->
     r = inl (Error ("Encoder is in " ++ CodecState_name (enc_state e) ++ " state")%string)).
Proof.
  unfold VideoEncoderService.encodeFrame.
  destruct (encoder (encoderService w)) as [e |] eqn:E.
  2:{ intros [= <- <-]. repeat split; try discriminate; auto. }
  destruct (CodecState_eqb (enc_state e) configured) eqn:S; cbn [negb].
  2:{ intros [= <- <-]. repeat split; try discriminate; auto.
      intros e0 [= <-] _. reflexivity. }
  assert (enc_state e = configured) as Hst by (destruct (enc_state e); easy).
  destruct (frames w !! frame) as [f |] eqn:F.
  2:{ intros [= <- <-]. repeat split; try discriminate; auto.
      intros e0 [= <-]. congruence. }
  destruct (frame_closed f) eqn:C.
  { intros [= <- <-]. repeat split; try discriminate; auto.
    intros e0 [= <-]. congruence. }
  intros [= <- <-]. split; [intros _ | repeat split; try discriminate].
  - split; [exists f; auto |]. split.
    + exists (mkFrame (frame_timestamp f) (frame_pixels f) true). split; [| reflexivity].
      cbn. unfold close_in. rewrite list_lookup_alter_eq, F. reflexivity.
    + exists e. eexists. exists f. repeat split; auto.
  - intros e0 [= <-]. congruence.
Qed.

Lemma encodeFrame_releases_frame_witness :
  (is_open holding 1 /\
   is_closed (fst (VideoEncoderService.encodeFrame 1 true holding)) 1) /\
  fst (VideoEncoderService.encodeFrame 1 true disposed) = disposed.
Proof.
  split.
  - destruct (encodeFrame_releases_frame holding
                (fst (VideoEncoderService.encodeFrame 1 true holding)) 1 true (inr tt))
      as [H _]; [vm_compute; reflexivity |].
    destruct (H eq_refl) as (Ho & Hc & _). split; assumption.
  - destruct (encodeFrame_releases_frame disposed
                (fst (VideoEncoderService.encodeFrame 1 true disposed)) 1 true
                (inl (Error "Encoder not initialized")))
      as (_ & H & _); [vm_compute; reflexivity |].
    exact (H _ eq_refl).
Defined.

(** ** The decoder service *)




(** ** Footprints: what each method can modify *)

(** Closes a goal [respects (modifies fds) m] or [stable (modifies fds) f]
    for a method that is written out with [match] and [if]. *)
Ltac footprint_by_cases :=
  let w := fresh "w" in
  let fd := fresh "fd" in
  let Hfd := fresh "Hfd" in
  lazymatch goal with
  | |- respects _ _ =>
      let w' := fresh "w'" in
      let r := fresh "r" in
      let H := fresh "H" in
      intros w w' r H fd Hfd; cbv beta delta [bind exec gets ret throw try_finally] in H;
      repeat case_match; simplify_eq; destruct fd; try discriminate Hfd; reflexivity
  | |- stable _ _ =>
      intros w fd Hfd; repeat case_match; destruct fd; try discriminate Hfd; reflexivity
  end.

Lemma sleep_modifies ms : respects (modifies [Slept]) (sleep ms).
Proof. unfold sleep. footprint_by_cases. Qed.

Lemma VideoFrame_close_modifies h : stable (modifies [Frames]) (VideoFrame_close h).
Proof. footprint_by_cases. Qed.

Lemma VideoFrame_clone_modifies h : respects (modifies [Frames]) (VideoFrame_clone h).
Proof. unfold VideoFrame_clone, VideoFrame_new. footprint_by_cases. Qed.

Lemma readFrames_modifies v :
  stable (modifies [Frames; Capture]) (FrameCaptureService.readFrames v).
Proof. unfold FrameCaptureService.readFrames, VideoFrame_new. footprint_by_cases. Qed.

Lemma deliver_modifies values :
  stable (modifies [Frames; Capture]) (FrameCaptureService.deliver values).
Proof.
  apply (stable_fold_left _ (fun w v => FrameCaptureService.readFrames v w)).
  apply readFrames_modifies.
Qed.

Lemma captureFrame_modifies :
  respects (modifies [Frames; Capture]) FrameCaptureService.captureFrame.
Proof.
  unfold FrameCaptureService.captureFrame, VideoFrame_clone, VideoFrame_new.
  footprint_by_cases.
Qed.

Lemma codecOutput1_modifies :
  stable (modifies [EncoderService]) VideoEncoderService.codecOutput1.
Proof. unfold VideoEncoderService.codecOutput1. footprint_by_cases. Qed.

Lemma codecOutput_modifies n :
  stable (modifies [EncoderService]) (VideoEncoderService.codecOutput n).
Proof. apply (stable_iter (modifies [EncoderService])), codecOutput1_modifies. Qed.

Lemma codecError_modifies :
  stable (modifies [EncoderService]) VideoEncoderService.codecError.
Proof. unfold VideoEncoderService.codecError, VideoEncoderService.close. footprint_by_cases. Qed.

Lemma encodeFrame_modifies frame keyFrame :
  respects (modifies [Frames; EncoderService])
    (VideoEncoderService.encodeFrame frame keyFrame).
Proof. unfold VideoEncoderService.encodeFrame. footprint_by_cases. Qed.

Lemma flush_modifies : respects (modifies [EncoderService]) VideoEncoderService.flush.
Proof.
  intros w w' r H. unfold VideoEncoderService.flush in H.
  repeat case_match; simplify_eq; try reflexivity. apply codecOutput_modifies.
Qed.

Lemma setColor_modifies c : stable (modifies [Overlay]) (ScreenFlashController.setColor c).
Proof. unfold ScreenFlashController.setColor. footprint_by_cases. Qed.

Lemma show_modifies : stable (modifies [Overlay]) ScreenFlashController.show.
Proof. unfold ScreenFlashController.show. footprint_by_cases. Qed.

Lemma hide_modifies : stable (modifies [Overlay]) ScreenFlashController.hide.
Proof. unfold ScreenFlashController.hide. footprint_by_cases. Qed.

Lemma analyzeFrame_modifies apiKey respond frame :
  respects (modifies []) (OpenAIFaceDetectionService.analyzeFrame apiKey respond frame).
Proof. unfold OpenAIFaceDetectionService.analyzeFrame. footprint_by_cases. Qed.

Lemma respects_modifies_sub fds fds' {A} (m : M World A) :
  respects (modifies fds) m ->
  (forall fd, existsb (Field_eqb fd) fds' = false -> existsb (Field_eqb fd) fds = false) ->
  respects (modifies fds') m.
Proof. intros Hm Hsub. eapply respects_impl; [| exact Hm]. intros w w'. now apply modifies_sub. Qed.

Lemma stable_modifies_sub fds fds' f :
  stable (modifies fds) f ->
  (forall fd, existsb (Field_eqb fd) fds' = false -> existsb (Field_eqb fd) fds = false) ->
  stable (modifies fds') f.
Proof. intros Hf Hsub. eapply stable_impl; [| exact Hf]. intros w w'. now apply modifies_sub. Qed.

Lemma respects_modifies_attached fds {A} (m : M World A) :
  respects (modifies fds) m ->
  existsb (Field_eqb Overlay) fds = false ->
  respects (same attached) m.
Proof. intros Hm Hov. eapply respects_impl; [| exact Hm]. intros w w'. now apply modifies_attached. Qed.

Lemma stable_modifies_attached fds f :
  stable (modifies fds) f ->
  existsb (Field_eqb Overlay) fds = false ->
  stable (same attached) f.
Proof. intros Hf Hov. eapply stable_impl; [| exact Hf]. intros w w'. now apply modifies_attached. Qed.

Create HintDb footprint.

#[local] Hint Resolve sleep_modifies VideoFrame_close_modifies VideoFrame_clone_modifies
  readFrames_modifies deliver_modifies captureFrame_modifies codecOutput1_modifies
  codecOutput_modifies codecError_modifies encodeFrame_modifies flush_modifies
  setColor_modifies show_modifies hide_modifies analyzeFrame_modifies : footprint.

(** The side condition of the lemmas above: an inclusion of field lists. *)
Ltac fields_included :=
  let fd := fresh "fd" in
  let Hfd := fresh "Hfd" in
  first [ reflexivity | intros fd Hfd; destruct fd; first [reflexivity | discriminate Hfd] ].

(** A known footprint, widened to the one asked for. *)
Ltac footprint_leaf :=
  first
    [ solve [eauto with footprint nocore]
    | eapply respects_modifies_sub; [solve [eauto with footprint nocore] | fields_included]
    | eapply stable_modifies_sub; [solve [eauto with footprint nocore] | fields_included]
    | eapply respects_modifies_attached; [solve [eauto with footprint nocore] | fields_included]
    | eapply stable_modifies_attached; [solve [eauto with footprint nocore] | fields_included] ].

(** Follows the structure of a computation down to such leaves. *)
Ltac footprint :=
  repeat
    first
      [ footprint_leaf
      | lazymatch goal with
        | |- respects ?R (ret _) => apply (respects_ret R)
        | |- respects ?R (throw _) => apply (respects_throw R)
        | |- respects ?R (settle _) => apply (respects_settle R)
        | |- respects ?R (gets _) => apply (respects_gets R)
        | |- respects ?R (bind _ _) => apply (respects_bind R); [| intros ?]
        | |- respects ?R (for_of _ _) => apply (respects_for_of R); intros ?
        | |- respects ?R (exec _) => apply (respects_exec R)
        | |- respects _ (if ?b then _ else _) => destruct b
        | |- respects _ (match ?x with _ => _ end) => destruct x
        | |- stable (modifies _) _ => footprint_by_cases
        | |- stable (same attached) _ => let w := fresh "w" in intros w; reflexivity
        end ].

Section Footprints.

Variable env : Env.

Lemma whileWaiting_modifies i :
  stable (modifies [Frames; Capture; EncoderService]) (WebCodecsOrchestrator.whileWaiting env i).
Proof.
  unfold WebCodecsOrchestrator.whileWaiting. cbv zeta.
  assert (H : stable (modifies [Frames; Capture; EncoderService])
                (fun w => VideoEncoderService.codecOutput (encoderOutputs env i)
                            (FrameCaptureService.deliver (cameraFeed env i) w))).
  { apply (stable_compose _ (FrameCaptureService.deliver (cameraFeed env i))
             (VideoEncoderService.codecOutput (encoderOutputs env i))); footprint_leaf. }
  destruct (encoderError env) as [j |]; [destruct (Nat.eqb i j) |]; try exact H.
  apply (stable_compose _ _ VideoEncoderService.codecError); [exact H | footprint_leaf].
Qed.

#[local] Hint Resolve whileWaiting_modifies : footprint.

Lemma storeForValidation_modifies i frame :
  respects (modifies [Frames; CapturedFrames])
    (WebCodecsOrchestrator.storeForValidation env i frame).
Proof. unfold WebCodecsOrchestrator.storeForValidation. footprint. Qed.

#[local] Hint Resolve storeForValidation_modifies : footprint.

Lemma captureStep_modifies count interval delay i :
  respects (modifies [Frames; Capture; EncoderService; Overlay; CapturedFrames; Slept])
    (WebCodecsOrchestrator.captureStep env count interval delay i).
Proof. unfold WebCodecsOrchestrator.captureStep. footprint. Qed.

#[local] Hint Resolve captureStep_modifies : footprint.

Lemma captureAndEncodeFrames_modifies :
  respects (modifies [Frames; Capture; EncoderService; Overlay; CapturedFrames; Slept])
    (WebCodecsOrchestrator.captureAndEncodeFrames env).
Proof.
  unfold WebCodecsOrchestrator.captureAndEncodeFrames, WebCodecsOrchestrator.captureLoop.
  footprint.
Qed.

Lemma FrameCaptureService_initialize_modifies stream arrivals :
  respects (modifies [Frames; Capture]) (FrameCaptureService.initialize stream arrivals).
Proof.
  assert (respects (modifies [Frames; Capture]) (FrameCaptureService.waitForFirstFrame arrivals)).
  { intros w w' r H. unfold FrameCaptureService.waitForFirstFrame in H.
    destruct (currentFrame (capture w)); repeat case_match; simplify_eq;
      first [reflexivity | apply deliver_modifies]. }
  unfold FrameCaptureService.initialize. footprint.
Qed.

Lemma initializeCamera_modifies :
  respects (modifies [Frames; Capture; Tracks; MediaStream])
    (WebCodecsOrchestrator.initializeCamera env).
Proof.
  unfold WebCodecsOrchestrator.initializeCamera. footprint.
  - unfold WebCodecsOrchestrator.MediaStream_new. footprint_by_cases.
  - eapply respects_modifies_sub;
      [apply FrameCaptureService_initialize_modifies | fields_included].
Qed.

Lemma videoTrackSettings_modifies stream :
  respects (modifies []) (WebCodecsOrchestrator.videoTrackSettings stream).
Proof. unfold WebCodecsOrchestrator.videoTrackSettings. footprint_by_cases. Qed.

Lemma VideoEncoderService_initialize_modifies supported drops config :
  respects (modifies [EncoderService])
    (VideoEncoderService.initialize supported drops config).
Proof. unfold VideoEncoderService.initialize. footprint. Qed.

#[local] Hint Resolve videoTrackSettings_modifies VideoEncoderService_initialize_modifies
  : footprint.

Lemma initializeEncoder_modifies :
  respects (modifies [EncoderService]) (WebCodecsOrchestrator.initializeEncoder env).
Proof. unfold WebCodecsOrchestrator.initializeEncoder. footprint. Qed.

Lemma VideoDecoderService_initialize_modifies supported codec width height :
  respects (modifies [DecoderService])
    (VideoDecoderService.initialize supported codec width height).
Proof. unfold VideoDecoderService.initialize. footprint. Qed.

Lemma decode_modifies chunk : respects (modifies [DecoderService]) (VideoDecoderService.decode chunk).
Proof. unfold VideoDecoderService.decode. footprint_by_cases. Qed.

Lemma output_modifies chunk :
  stable (modifies [Frames; DecoderService]) (VideoDecoderService.output chunk).
Proof. unfold VideoDecoderService.output, VideoFrame_new. footprint_by_cases. Qed.

Lemma decoder_flush_modifies :
  respects (modifies [Frames; DecoderService]) VideoDecoderService.decoder_flush.
Proof.
  intros w w' r H. unfold VideoDecoderService.decoder_flush in H.
  repeat case_match; simplify_eq; try reflexivity.
  etransitivity;
    [| apply (stable_fold_left _ (fun w c => VideoDecoderService.output c w)), output_modifies].
  intros []; first [discriminate | reflexivity].
Qed.

Lemma drawImage_modifies frame : respects (modifies [Canvas]) (VideoDecoderService.drawImage frame).
Proof. unfold VideoDecoderService.drawImage. footprint_by_cases. Qed.

#[local] Hint Resolve VideoDecoderService_initialize_modifies decode_modifies output_modifies
  decoder_flush_modifies drawImage_modifies : footprint.

Lemma renderLoop_modifies fs :
  respects (modifies [Frames; Canvas; Slept]) (VideoDecoderService.renderLoop fs).
Proof. induction fs as [| frame rest IH]; cbn [VideoDecoderService.renderLoop]; footprint. Qed.

#[local] Hint Resolve renderLoop_modifies : footprint.

Lemma VideoDecoderService_decodeAndRender_modifies chunks hasContext :
  respects (modifies [Frames; DecoderService; Canvas; Slept])
    (VideoDecoderService.decodeAndRender chunks hasContext).
Proof.
  intros w w' r. unfold VideoDecoderService.decodeAndRender.
  destruct (decoder (decoderService w)); [| intros [= <- _]; reflexivity].
  revert w w' r. change (respects (modifies [Frames; DecoderService; Canvas; Slept])
    (for_of chunks (fun chunk => VideoDecoderService.decode (data chunk)) ;;
     VideoDecoderService.decoder_flush ;;
     VideoDecoderService.renderFrames hasContext)).
  unfold VideoDecoderService.renderFrames. footprint.
Qed.

#[local] Hint Resolve VideoDecoderService_decodeAndRender_modifies : footprint.

Lemma decodeAndRender_modifies :
  respects (modifies [Frames; DecoderService; Canvas; Slept])
    (WebCodecsOrchestrator.decodeAndRender env).
Proof. unfold WebCodecsOrchestrator.decodeAndRender. footprint. Qed.

Lemma validateLoop_modifies service i fs :
  respects (modifies [Frames; ValidationResults])
    (WebCodecsOrchestrator.validateLoop service i fs).
Proof.
  revert i. induction fs as [| frame rest IH]; intros i;
    cbn [WebCodecsOrchestrator.validateLoop]; [footprint |].
  apply (respects_bind (modifies [Frames; ValidationResults])); [| intros _; apply IH].
  unfold WebCodecsOrchestrator.validateStep. footprint.
Qed.

#[local] Hint Resolve validateLoop_modifies : footprint.

Lemma validateCapturedFrames_modifies :
  respects (modifies [Frames; ValidationResults; CapturedFrames])
    (WebCodecsOrchestrator.validateCapturedFrames env).
Proof. unfold WebCodecsOrchestrator.validateCapturedFrames. footprint. Qed.

End Footprints.

#[local] Hint Resolve whileWaiting_modifies storeForValidation_modifies captureStep_modifies
  captureAndEncodeFrames_modifies FrameCaptureService_initialize_modifies
  initializeCamera_modifies videoTrackSettings_modifies
  VideoEncoderService_initialize_modifies initializeEncoder_modifies
  VideoDecoderService_initialize_modifies decode_modifies output_modifies
  decoder_flush_modifies drawImage_modifies renderLoop_modifies
  VideoDecoderService_decodeAndRender_modifies decodeAndRender_modifies
  validateLoop_modifies validateCapturedFrames_modifies : footprint.

(** ** The capture loop *)

Lemma respects_agree fds fd {A} (m : M World A) w w' r :
  respects (modifies fds) m ->
  existsb (Field_eqb fd) fds = false ->
  m w = (w', r) -> agree fd w w'.
Proof. intros Hm Hfd H. exact (Hm w w' r H fd Hfd). Qed.

Section Capture.

Variable env : Env.

(** A turn of the loop that completes, step by step. *)
Lemma captureStep_inr count interval delay i w w' :
  WebCodecsOrchestrator.captureStep env count interval delay i w = (w', inr tt) ->
  exists w4 frame w5 w6,
    let w1 := ScreenFlashController.setColor (WebCodecsOrchestrator.flashColor i) w in
    let w2 := set_slept (delay :: slept w1) w1 in
    let w3 := WebCodecsOrchestrator.whileWaiting env i w2 in
    FrameCaptureService.captureFrame w3 = (w4, inr frame) /\
    WebCodecsOrchestrator.storeForValidation env i frame w4 = (w5, inr tt) /\
    VideoEncoderService.encodeFrame frame (Nat.eqb i 0) w5 = (w6, inr tt) /\
    w' = if Nat.ltb i (count - 1) then set_slept (interval - delay :: slept w6) w6 else w6.
Proof.
  unfold WebCodecsOrchestrator.captureStep. intros H.
  apply bind_inr in H as (w1 & [] & [= <-] & H).
  apply bind_inr in H as (w2 & [] & [= <-] & H).
  apply bind_inr in H as (w3 & [] & [= <-] & H).
  apply bind_inr in H as (w4 & frame & H4 & H).
  apply bind_inr in H as (w5 & [] & H5 & H).
  apply bind_inr in H as (w6 & [] & H6 & H).
  exists w4, frame, w5, w6. cbv zeta. repeat split; try assumption.
  destruct (Nat.ltb i (count - 1)); now inversion H.
Qed.

Lemma captureStep_slept count interval delay i w w' :
  WebCodecsOrchestrator.captureStep env count interval delay i w = (w', inr tt) ->
  total_slept w'
  = total_slept w + delay + (if Nat.ltb i (count - 1) then interval - delay else 0).
Proof.
  intros (w4 & frame & w5 & w6 & H4 & H5 & H6 & ->)%captureStep_inr.
  assert (slept w6 = delay :: slept w) as Hs.
  { rewrite (respects_agree _ Slept _ _ _ _ (encodeFrame_modifies _ _) eq_refl H6 : _ = _).
    rewrite (respects_agree _ Slept _ _ _ _ (storeForValidation_modifies env _ _) eq_refl H5
               : _ = _).
    rewrite (respects_agree _ Slept _ _ _ _ captureFrame_modifies eq_refl H4 : _ = _).
    rewrite (whileWaiting_modifies env i _ Slept eq_refl). cbn.
    now rewrite (setColor_modifies _ w Slept eq_refl). }
  unfold total_slept. destruct (Nat.ltb i (count - 1)); cbn; rewrite Hs; cbn; lia.
Qed.

Lemma captureLoop_slept count interval delay w w' :
  WebCodecsOrchestrator.captureLoop env count interval delay w = (w', inr tt) ->
  total_slept w'
  = total_slept w + Z.of_nat count * delay
    + Z.of_nat (Nat.min count (count - 1)) * (interval - delay).
Proof.
  unfold WebCodecsOrchestrator.captureLoop. intros H.
  pose proof (for_of_invariant
    (fun i s => total_slept s
                = total_slept w + Z.of_nat i * delay
                  + Z.of_nat (Nat.min i (count - 1)) * (interval - delay))
    (seq 0 count) (WebCodecsOrchestrator.captureStep env count interval delay)) as Hinv.
  rewrite length_seq in Hinv. apply (Hinv) with (s := w); [| cbn; lia | exact H].
  intros i x s s' [-> Hi]%lookup_seq Hs Hstep. cbn [Nat.add] in *.
  rewrite (captureStep_slept _ _ _ _ _ _ Hstep), Hs.
  destruct (Nat.ltb_spec i (count - 1)).
  - rewrite (Nat.min_l i) by lia. rewrite (Nat.min_l (S i)) by lia. lia.
  - rewrite (Nat.min_r i) by lia. rewrite (Nat.min_r (S i)) by lia. lia.
Qed.

End Capture.

(** C4, as the code has it. A capture loop of [count] steps that
    completes has waited [count] display delays and [count - 1]
    remainders of the interval, that is the total duration less one
    remainder, since nothing is waited for after the last step. For the
    20 steps of 500 ms of [captureAndEncodeFrames] that is 9550 ms, not
    10000 ms. *)
Theorem capture_waits (env : Env) :
  (forall count interval delay w w',
     (0 < count)%nat ->
     WebCodecsOrchestrator.captureLoop env count interval delay w = (w', inr tt) ->
     total_slept w' - total_slept w
       = Z.of_nat count * delay + (Z.of_nat count - 1) * (interval - delay) /\
     total_slept w' - total_slept w = Z.of_nat count * interval - (interval - delay)) /\
  (forall w w',
     WebCodecsOrchestrator.captureAndEncodeFrames env w = (w', inr tt) ->
     total_slept w' - total_slept w = 9550 /\
     9550 = WebCodecsOrchestrator.TOTAL_DURATION_MS
            - (WebCodecsOrchestrator.FRAME_INTERVAL_MS
               - WebCodecsOrchestrator.FLASH_DISPLAY_DELAY_MS)).
Proof.
  split.
  - intros count interval delay w w' Hc H.
    rewrite (captureLoop_slept env _ _ _ _ _ H), Nat.min_r by lia.
    rewrite Nat2Z.inj_sub by lia. split; lia.
  - intros w w' H. split; [| reflexivity].
    unfold WebCodecsOrchestrator.captureAndEncodeFrames in H.
    apply bind_inr in H as (w1 & [] & [= <-] & H).
    apply bind_inr in H as (w2 & [] & [= <-] & H).
    apply bind_inr in H as (w3 & [] & H3 & H).
    apply bind_inr in H as (w4 & [] & [= <-] & H).
    apply captureLoop_slept in H3.
    assert (total_slept w' = total_slept w3) as ->.
    { unfold total_slept.
      rewrite (respects_agree _ Slept _ _ _ _ flush_modifies eq_refl H : _ = _).
      now rewrite (hide_modifies w3 Slept eq_refl). }
    rewrite H3. unfold total_slept. cbn [slept set_capturedFramesForValidation].
    rewrite (show_modifies w Slept eq_refl). vm_compute Z.of_nat.
    unfold WebCodecsOrchestrator.FRAME_INTERVAL_MS, WebCodecsOrchestrator.TOTAL_DURATION_MS,
      WebCodecsOrchestrator.FLASH_DISPLAY_DELAY_MS, WebCodecsOrchestrator.FRAME_COUNT.
    change (10000 / Z.of_nat 20) with 500. lia.
Qed.

Lemma capture_waits_witness :
  total_slept (fst short_loop) - total_slept ready = 4 * 500 - (500 - 50) /\
  total_slept (fst full_capture) - total_slept ready = 9550.
Proof.
  destruct (capture_waits (scenario None None)) as [H1 H2]. split.
  - apply (H1 4%nat 500 50 ready); [lia | vm_compute; reflexivity].
  - apply (H2 ready). vm_compute. reflexivity.
Defined.

(** C4 as stated fails: the waits of a completed capture do not add up
    to the total duration. *)
Lemma capture_waits_short_of_total_duration :
  snd full_capture = inr tt /\
  total_slept (fst full_capture) - total_slept ready
    <> WebCodecsOrchestrator.TOTAL_DURATION_MS.
Proof. split; [vm_compute; reflexivity | vm_compute; discriminate]. Qed.

(** ** Validation *)

Lemma analyzeFrame_unfold (service : FaceDetection) i frame w :
  apiKey service <> "" ->
  OpenAIFaceDetectionService.analyzeFrame (apiKey service) (respond service i) frame w
  = (w, match OpenAIFaceDetectionService.request (frames w !! frame) (respond service i) with
        | inr detectionResult => inr detectionResult
        | inl error => OpenAIFaceDetectionService.recover error
        end).
Proof.
  intros Hkey.
  unfold OpenAIFaceDetectionService.analyzeFrame, OpenAIFaceDetectionService.analyze.
  now destruct (String.eqb_spec (apiKey service) "").
Qed.

Lemma recover_survivor error :
  rethrown error = false ->
  OpenAIFaceDetectionService.recover error
  = inr (mkResult false false false false false 0
           (Some ("Analysis failed: " ++ message error)%string)).
Proof.
  unfold rethrown, OpenAIFaceDetectionService.recover.
  destruct (String.eqb (name error) "AbortError"); [discriminate |].
  destruct (includes "API key" (message error)); [discriminate |].
  destruct (includes "Unauthorized" (message error)); [discriminate |].
  destruct (includes "rate limit" (message error)); [discriminate |].
  destruct (includes "429" (message error)); [discriminate |].
  reflexivity.
Qed.

Lemma recover_rethrown error :
  rethrown error = true ->
  exists e, OpenAIFaceDetectionService.recover error = inl e.
Proof.
  unfold rethrown, OpenAIFaceDetectionService.recover.
  destruct (String.eqb (name error) "AbortError"); [eauto |].
  destruct (includes "API key" (message error)); [eauto |].
  destruct (includes "Unauthorized" (message error)); [eauto |].
  destruct (includes "rate limit" (message error)); [eauto |].
  destruct (includes "429" (message error)); [eauto | discriminate].
Qed.

Lemma validateStep_run (service : FaceDetection) i frame w r :
  OpenAIFaceDetectionService.analyzeFrame (apiKey service) (respond service i) frame w
    = (w, inr r) ->
  WebCodecsOrchestrator.validateStep service i frame w
  = (VideoFrame_close frame (set_validationResults (validationResults w ++ [r]) w), inr tt).
Proof.
  intros H. unfold WebCodecsOrchestrator.validateStep.
  rewrite (bind_run _ _ _ _ _ H). reflexivity.
Qed.

(** Every classifier call of a validation loop returns a result when no
    call runs into an error that is thrown again. *)
Lemma validateLoop_completes (service : FaceDetection) :
  apiKey service <> "" ->
  (forall j fr error,
     OpenAIFaceDetectionService.request fr (respond service j) = inl error ->
     rethrown error = false) ->
  forall fs i w,
  exists w', WebCodecsOrchestrator.validateLoop service i fs w = (w', inr tt) /\
             length (validationResults w') = (length (validationResults w) + length fs)%nat.
Proof.
  intros Hkey Hok fs. induction fs as [| frame rest IH]; intros i w.
  - exists w. split; [reflexivity | cbn; lia].
  - cbn [WebCodecsOrchestrator.validateLoop].
    assert (exists r, OpenAIFaceDetectionService.analyzeFrame (apiKey service)
                        (respond service i) frame w = (w, inr r)) as [r Hr].
    { rewrite analyzeFrame_unfold by assumption.
      destruct (OpenAIFaceDetectionService.request _ _) as [error | r] eqn:E; [| eauto].
      rewrite (recover_survivor error (Hok _ _ _ E)). eauto. }
    rewrite (bind_run _ _ _ _ _ (validateStep_run service i frame w r Hr)).
    edestruct (IH (S i)) as (w' & -> & Hlen). exists w'. split; [reflexivity |].
    rewrite Hlen. cbn. rewrite length_app. cbn. lia.
Qed.

(** C2, as the code has it. An error of a classifier call that is
    neither a timeout nor one whose message names the API key or the rate
    limit becomes a result with [isValid = false] whose reason carries
    the message, and a run of such failures validates every frame. A
    timeout, and an error of the other kind, is thrown again by
    [analyzeFrame]; the validation loop does not catch it and stops. *)
Theorem classifier_failure_handling (service : FaceDetection) :
  apiKey service <> "" ->
  (forall i frame w error,
     OpenAIFaceDetectionService.request (frames w !! frame) (respond service i) = inl error ->
     if rethrown error
     then forall rest,
          exists e,
            OpenAIFaceDetectionService.analyzeFrame (apiKey service) (respond service i) frame w
              = (w, inl e) /\
            WebCodecsOrchestrator.validateLoop service i (frame :: rest) w = (w, inl e)
     else exists r,
            OpenAIFaceDetectionService.analyzeFrame (apiKey service) (respond service i) frame w
              = (w, inr r) /\
            isValid r = false /\
            reason r = Some ("Analysis failed: " ++ message error)%string) /\
  ((forall j fr error,
      OpenAIFaceDetectionService.request fr (respond service j) = inl error ->
      rethrown error = false) ->
   forall fs i w,
   exists w', WebCodecsOrchestrator.validateLoop service i fs w = (w', inr tt) /\
              length (validationResults w') = (length (validationResults w) + length fs)%nat).
Proof.
  intros Hkey. split; [| apply validateLoop_completes, Hkey].
  intros i frame w error E. destruct (rethrown error) eqn:R.
  - intros rest. destruct (recover_rethrown error R) as [e He]. exists e.
    assert (OpenAIFaceDetectionService.analyzeFrame (apiKey service) (respond service i) frame w
            = (w, inl e)) as Ha
      by (rewrite analyzeFrame_unfold, E, He by assumption; reflexivity).
    split; [exact Ha |].
    cbn [WebCodecsOrchestrator.validateLoop]. unfold WebCodecsOrchestrator.validateStep.
    apply bind_fail. now apply bind_fail.
  - eexists. rewrite analyzeFrame_unfold, E, (recover_survivor error R) by assumption.
    repeat split.
Qed.

Lemma classifier_failure_handling_witness :
  (exists r,
     OpenAIFaceDetectionService.analyzeFrame "sk-test" (respond garbled 0) 0 snapshot
       = (snapshot, inr r) /\
     isValid r = false /\
     reason r = Some ("Analysis failed: "
                      ++ "Failed to parse OpenAI response as JSON: <html>Bad Gateway</html>")%string) /\
  (exists e,
     OpenAIFaceDetectionService.analyzeFrame "sk-test" (respond sluggish 1) 0 snapshot
       = (snapshot, inl e) /\
     WebCodecsOrchestrator.validateLoop sluggish 1 [0; 1]%nat snapshot = (snapshot, inl e)) /\
  (exists w',
     WebCodecsOrchestrator.validateLoop garbled 0 [0; 0; 1]%nat snapshot = (w', inr tt) /\
     length (validationResults w') = (length (validationResults snapshot) + 3)%nat).
Proof.
  destruct (classifier_failure_handling garbled) as [H1 H2]; [discriminate |].
  destruct (classifier_failure_handling sluggish) as [H3 _]; [discriminate |].
  split; [| split].
  - exact (H1 0%nat 0%nat snapshot
             (Error "Failed to parse OpenAI response as JSON: <html>Bad Gateway</html>")
             eq_refl).
  - exact (H3 1%nat 0%nat snapshot
             (DOMException "AbortError" "The user aborted a request.") eq_refl [1%nat]).
  - apply (H2 ltac:(intros j [[ts px []] |] error [= <-]; reflexivity)
             [0; 0; 1]%nat 0%nat snapshot).
Defined.

(** C2 as stated fails: the capture completes and the video is played
    back, the second classifier call times out, and the run fails with
    that error. *)
Lemma classifier_timeout_aborts_run :
  snd (for_of [AcquiringSource; InitializingEncoder; Capturing; Decoding]
         (phase (scenario None (Some sluggish))) initial) = inr tt /\
  snd (WebCodecsOrchestrator.execute (scenario None (Some sluggish)) initial)
    = inl (Error "OpenAI API request timed out after 30 seconds").
Proof. split; vm_compute; reflexivity. Qed.

(** ** Cleanup *)

Lemma close_all_closed (l : list nat) (fs : list VideoFrame) h f :
  fold_left (fun fs h => close_in h fs) l fs !! h = Some f ->
  In h l \/ (exists f0, fs !! h = Some f0 /\ frame_closed f0 = true) ->
  frame_closed f = true.
Proof.
  revert fs. induction l as [| x l IH]; intros fs Hf Hh; cbn in Hf.
  - destruct Hh as [[] | (f0 & Hf0 & Hc)]. congruence.
  - apply (IH _ Hf). destruct (decide (x = h)) as [-> | Hne].
    + right. unfold close_in. rewrite list_lookup_alter_eq.
      destruct (fs !! h) as [f0 |] eqn:E; cbn.
      * eexists. split; reflexivity.
      * exfalso. assert (fold_left (fun fs h => close_in h fs) l (close_in h fs) !! h = None)
          as Hnone; [| congruence].
        apply lookup_ge_None. apply lookup_ge_None in E.
        assert (forall l fs, length (fold_left (fun fs h => close_in h fs) l fs) = length fs)
          as Hlen.
        { clear. induction l as [| y l IH]; intros fs; cbn; [reflexivity |].
          rewrite IH. apply length_alter. }
        rewrite Hlen. unfold close_in. now rewrite length_alter.
    + destruct Hh as [[-> | Hin] | (f0 & Hf0 & Hc)]; [contradiction | now left |].
      right. exists f0. unfold close_in. now rewrite list_lookup_alter_ne.
Qed.

Lemma stop_all_stopped (l : list nat) (ts : list MediaStreamTrack) t k :
  fold_left (fun ts t => stop_in t ts) l ts !! t = Some k ->
  In t l \/ (exists k0, ts !! t = Some k0 /\ track_stopped k0 = true) ->
  track_stopped k = true.
Proof.
  revert ts. induction l as [| x l IH]; intros ts Hk Ht; cbn in Hk.
  - destruct Ht as [[] | (k0 & Hk0 & Hs)]. congruence.
  - apply (IH _ Hk). destruct (decide (x = t)) as [-> | Hne].
    + right. unfold stop_in. rewrite list_lookup_alter_eq.
      destruct (ts !! t) as [k0 |] eqn:E; cbn.
      * eexists. split; reflexivity.
      * exfalso. assert (fold_left (fun ts t => stop_in t ts) l (stop_in t ts) !! t = None)
          as Hnone; [| congruence].
        apply lookup_ge_None. apply lookup_ge_None in E.
        assert (forall l ts, length (fold_left (fun ts t => stop_in t ts) l ts) = length ts)
          as Hlen.
        { clear. induction l as [| y l IH]; intros ts; cbn; [reflexivity |].
          rewrite IH. apply length_alter. }
        rewrite Hlen. unfold stop_in. now rewrite length_alter.
    + destruct Ht as [[-> | Hin] | (k0 & Hk0 & Hs)]; [contradiction | now left |].
      right. exists k0. unfold stop_in. now rewrite list_lookup_alter_ne.
Qed.

(** Cleanup releases everything, provided the overlay, if there is one,
    is in the document. *)
Lemma cleanup_releases w :
  attached w <> Some false -> released w (WebCodecsOrchestrator.cleanup w).
Proof.
  intros Hov. rewrite cleanup_eq. unfold released. cbn.
  repeat split.
  - unfold attached in Hov. destruct (overlay w) as [[[] dis bg] |]; cbn in *; congruence.
  - intros stream t k -> Hin Hk. cbn in Hk. apply (stop_all_stopped _ _ _ _ Hk). now left.
  - intros h f Hh Hf. apply (close_all_closed _ _ _ _ Hf).
    destruct Hh as [Hc | Hh]; [| left; apply in_or_app; exact Hh].
    rewrite Hc in *. cbn in *. right.
    unfold close_in. rewrite list_lookup_alter_eq.
    destruct (frames w !! h) as [f0 |] eqn:E; cbn; [eexists; split; reflexivity |].
    exfalso. apply lookup_ge_None in E.
    assert (forall l fs, length (fold_left (fun fs h => close_in h fs) l fs) = length fs)
      as Hlen.
    { clear. induction l as [| y l IH]; intros fs; cbn; [reflexivity |].
      rewrite IH. apply length_alter. }
    apply lookup_lt_Some in Hf. rewrite Hlen in Hf. unfold close_in in Hf.
    rewrite length_alter in Hf. lia.
Qed.

(** ** Failure of a phase *)

Lemma setColor_attached c : stable (same attached) (ScreenFlashController.setColor c).
Proof.
  intros w. unfold same, attached, ScreenFlashController.setColor.
  destruct (overlay w) eqn:E; cbn; now rewrite ?E.
Qed.

Lemma show_attached : stable (same attached) ScreenFlashController.show.
Proof.
  intros w. unfold same, attached, ScreenFlashController.show.
  destruct (overlay w) eqn:E; cbn; now rewrite ?E.
Qed.

Lemma hide_attached : stable (same attached) ScreenFlashController.hide.
Proof.
  intros w. unfold same, attached, ScreenFlashController.hide.
  destruct (overlay w) eqn:E; cbn; now rewrite ?E.
Qed.

Section Phases.

Variable env : Env.

#[local] Hint Resolve setColor_attached show_attached hide_attached : footprint.
Lemma captureStep_attached count interval delay i :
  respects (same attached) (WebCodecsOrchestrator.captureStep env count interval delay i).
Proof. unfold WebCodecsOrchestrator.captureStep. footprint. Qed.

#[local] Hint Resolve captureStep_attached : footprint.

Lemma phase_attached p : respects (same attached) (phase env p).
Proof.
  destruct p; cbn [phase].
  - eapply respects_modifies_attached; [apply initializeCamera_modifies | reflexivity].
  - eapply respects_modifies_attached; [apply initializeEncoder_modifies | reflexivity].
  - unfold WebCodecsOrchestrator.captureAndEncodeFrames, WebCodecsOrchestrator.captureLoop.
    footprint.
  - eapply respects_modifies_attached; [apply decodeAndRender_modifies | reflexivity].
Qed.

Lemma raises_attached p w e w1 : raises env p w e w1 -> attached w1 = attached w.
Proof.
  intros (w0 & H0 & H1).
  apply (respects_for_of (same attached) _ _ phase_attached) in H0.
  apply phase_attached in H1. unfold same in *. congruence.
Qed.

(** A phase that throws makes the [try] block throw. *)
Lemma raises_workflow p w e w1 :
  raises env p w e w1 -> WebCodecsOrchestrator.workflow env w = (w1, inl e).
Proof.
  intros (w0 & H0 & H1). unfold WebCodecsOrchestrator.workflow.
  destruct p; cbn [before for_of phase] in *.
  - inversion H0; subst. now apply bind_fail.
  - apply bind_inr in H0 as (wa & [] & Ha & [= <-]).
    rewrite (bind_run _ _ _ _ _ Ha). now apply bind_fail.
  - apply bind_inr in H0 as (wa & [] & Ha & H0).
    apply bind_inr in H0 as (wb & [] & Hb & [= <-]).
    rewrite (bind_run _ _ _ _ _ Ha), (bind_run _ _ _ _ _ Hb). now apply bind_fail.
  - apply bind_inr in H0 as (wa & [] & Ha & H0).
    apply bind_inr in H0 as (wb & [] & Hb & H0).
    apply bind_inr in H0 as (wc & [] & Hc & [= <-]).
    rewrite (bind_run _ _ _ _ _ Ha), (bind_run _ _ _ _ _ Hb), (bind_run _ _ _ _ _ Hc).
    now apply bind_fail.
Qed.

(** C1. When the camera acquisition, the encoder initialization, the
    capture or the decoding throws an error, [execute] runs the cleanup
    on the store the phase left and throws that same error: the four
    services are disposed, the frames held are closed and the tracks of
    the media stream are stopped. *)
Theorem failure_cleans_up (w : World) (p : Phase) (e : JsError) (w1 : World) :
  attached w <> Some false ->
  raises env p w e w1 ->
  WebCodecsOrchestrator.execute env w = (WebCodecsOrchestrator.cleanup w1, inl e) /\
  released w1 (WebCodecsOrchestrator.cleanup w1).
Proof.
  intros Hov Hp. split.
  - unfold WebCodecsOrchestrator.execute, try_catch.
    now rewrite (raises_workflow _ _ _ _ Hp).
  - apply cleanup_releases. now rewrite (raises_attached _ _ _ _ Hp).
Qed.

End Phases.

Lemma failure_cleans_up_witness :
  WebCodecsOrchestrator.execute (scenario (Some 3%nat) None) initial
    = (WebCodecsOrchestrator.cleanup interrupted, inl (Error "Encoder is in closed state")) /\
  released interrupted (WebCodecsOrchestrator.cleanup interrupted).
Proof.
  apply (failure_cleans_up (scenario (Some 3%nat) None) initial Capturing).
  - vm_compute. discriminate.
  - exists ready. split; vm_compute; reflexivity.
Defined.

(** ** The chunks of a capture session *)

Lemma survivors_app {A} (drops : nat -> bool) (l l' : list A) :
  forall i, survivors drops i (l ++ l') = survivors drops i l ++ survivors drops (i + length l) l'.
Proof.
  induction l as [| x l IH]; intros i; cbn.
  - now rewrite Nat.add_0_r.
  - rewrite IH, Nat.add_succ_r. now destruct (drops i).
Qed.

Lemma survivors_length {A} (drops : nat -> bool) (l : list A) :
  forall i, length (survivors drops i l)
            = length (List.filter (fun j => negb (drops j)) (seq i (length l))).
Proof.
  induction l as [| x l IH]; intros i; cbn; [reflexivity |].
  destruct (drops i); cbn; now rewrite IH.
Qed.

Lemma survivors_all {A} (drops : nat -> bool) (l : list A) :
  forall i, (forall j, (i <= j < i + length l)%nat -> drops j = false) ->
            survivors drops i l = l.
Proof.
  induction l as [| x l IH]; intros i H; cbn; [reflexivity |].
  rewrite (H i) by (cbn; lia). f_equal. apply IH. intros j Hj. apply H. cbn. lia.
Qed.

Lemma survivors_none {A} (drops : nat -> bool) (l : list A) :
  forall i, (forall j, (i <= j < i + length l)%nat -> drops j = true) ->
            survivors drops i l = [].
Proof.
  induction l as [| x l IH]; intros i H; cbn; [reflexivity |].
  rewrite (H i) by (cbn; lia). apply IH. intros j Hj. apply H. cbn. lia.
Qed.

Lemma survivors_nonempty {A} (drops : nat -> bool) (l : list A) (i j : nat) :
  (i <= j < i + length l)%nat -> drops j = false -> survivors drops i l <> [].
Proof.
  intros Hj Hd Hnil. apply (f_equal length) in Hnil. rewrite survivors_length in Hnil.
  assert (In j (List.filter (fun j => negb (drops j)) (seq i (length l)))) as Hin
    by (apply List.filter_In; split; [apply in_seq; lia | now rewrite Hd]).
  destruct (List.filter _ _); [contradiction | discriminate].
Qed.

Lemma submissions_agree drops n w w' :
  encoderService w' = encoderService w -> submissions drops n w -> submissions drops n w'.
Proof. unfold submissions. now intros ->. Qed.

Lemma codecOutput1_submissions drops n w :
  submissions drops n w -> submissions drops n (VideoEncoderService.codecOutput1 w).
Proof.
  intros (e & He & Hd & Hinv). unfold VideoEncoderService.codecOutput1. rewrite He.
  destruct (enc_queue e) as [| [f k] q] eqn:Q;
    [exists e; split; [exact He |]; split; [exact Hd | now rewrite Q] |].
  assert (enc_state e = configured ->
          exists done, enc_calls e = done ++ (f, k) :: q /\
                       (length (enc_calls e) - length ((f, k) :: q))%nat = length done /\
                       map timestamp (encodedChunks (encoderService w))
                       = map (fun x => frame_timestamp (fst x)) (survivors drops 0 done))
    as Hdone.
  { intros Hst. destruct (Hinv Hst) as (_ & (done & Hcalls & Hts) & _).
    exists done. split; [exact Hcalls |]. split; [| exact Hts].
    rewrite Hcalls, length_app. lia. }
  destruct (enc_drops e _) eqn:D;
    (eexists; split; [reflexivity |]; split; [exact Hd |]); cbn; intros Hst;
    destruct (Hinv Hst) as (Hflags & _ & Hkey);
    destruct (Hdone Hst) as (done & Hcalls & Hidx & Hts);
    rewrite Hidx, Hd in D; (split; [exact Hflags |]); split.
  - exists (done ++ [(f, k)]). rewrite <- app_assoc. split; [exact Hcalls |].
    rewrite survivors_app. cbn. now rewrite D, app_nil_r.
  - exact Hkey.
  - exists (done ++ [(f, k)]). rewrite <- app_assoc. split; [exact Hcalls |].
    rewrite survivors_app, !map_app. cbn. now rewrite D, Hts.
  - destruct (encodedChunks (encoderService w)); cbn; [now rewrite Hkey, orb_true_r | exact Hkey].
Qed.

Lemma codecOutput_submissions drops m n w :
  submissions drops n w -> submissions drops n (VideoEncoderService.codecOutput m w).
Proof.
  intros H. unfold VideoEncoderService.codecOutput.
  induction m as [| m IH]; cbn; [exact H | now apply codecOutput1_submissions].
Qed.

Lemma codecError_submissions drops n w :
  submissions drops n w -> submissions drops n (VideoEncoderService.codecError w).
Proof.
  intros (e & He & Hd & Hinv).
  unfold VideoEncoderService.codecError, VideoEncoderService.close. rewrite He.
  eexists. split; [reflexivity |]. split; [exact Hd |]. cbn. discriminate.
Qed.

Lemma whileWaiting_submissions env drops i n w :
  submissions drops n w -> submissions drops n (WebCodecsOrchestrator.whileWaiting env i w).
Proof.
  intros H. unfold WebCodecsOrchestrator.whileWaiting. cbv zeta.
  assert (submissions drops n (VideoEncoderService.codecOutput (encoderOutputs env i)
                                 (FrameCaptureService.deliver (cameraFeed env i) w))) as H'.
  { apply codecOutput_submissions. revert H. apply submissions_agree.
    apply (deliver_modifies _ w EncoderService eq_refl). }
  destruct (encoderError env) as [j |]; [destruct (Nat.eqb i j) |]; try exact H'.
  now apply codecError_submissions.
Qed.

(** The codec keeps its state, its record of calls and its way with the
    frames while it is done with frames, and takes them from the front of
    its queue. *)
Lemma codecOutput_queue m w e :
  encoder (encoderService w) = Some e ->
  exists e', encoder (encoderService (VideoEncoderService.codecOutput m w)) = Some e' /\
             enc_state e' = enc_state e /\ enc_calls e' = enc_calls e /\
             enc_queue e' = drop m (enc_queue e) /\ enc_drops e' = enc_drops e.
Proof.
  intros He. unfold VideoEncoderService.codecOutput.
  induction m as [| m (e' & He' & Hst & Hcalls & Hq & Hd)]; [| rewrite Nat.iter_succ].
  - exists e. now rewrite drop_0.
  - remember (Nat.iter m VideoEncoderService.codecOutput1 w) as wm eqn:Ewm. clear Ewm.
    destruct (enc_queue e') as [| [f k] q] eqn:Q.
    + assert (VideoEncoderService.codecOutput1 wm = wm) as ->
        by (unfold VideoEncoderService.codecOutput1; now rewrite He', Q).
      exists e'. repeat split; try assumption.
      rewrite Q. symmetry. apply drop_ge. symmetry in Hq. apply (f_equal length) in Hq.
      rewrite length_drop in Hq. cbn in Hq. lia.
    + assert (exists emitted,
                encoder (encoderService (VideoEncoderService.codecOutput1 wm))
                = Some (mkEncoder (enc_state e') q (enc_calls e') emitted (enc_drops e')))
        as [emitted Hnew].
      { unfold VideoEncoderService.codecOutput1. rewrite He', Q.
        destruct (enc_drops e' _); eexists; reflexivity. }
      eexists. split; [exact Hnew |]. cbn. repeat split; try assumption.
      assert (enc_queue e !! m = Some (f, k)) as Hm
        by (rewrite <- (Nat.add_0_r m), <- lookup_drop, <- Hq; reflexivity).
      rewrite (drop_S _ _ _ Hm) in Hq. congruence.
Qed.

Lemma encodeFrame_submissions drops n w w' frame :
  submissions drops n w ->
  VideoEncoderService.encodeFrame frame (Nat.eqb n 0) w = (w', inr tt) ->
  submissions drops (S n) w'.
Proof.
  intros (e & He & Hd & Hinv). unfold VideoEncoderService.encodeFrame. rewrite He.
  destruct (CodecState_eqb (enc_state e) configured) eqn:S; [| discriminate].
  assert (enc_state e = configured) as Hst by (destruct (enc_state e); easy).
  cbn [negb]. destruct (frames w !! frame) as [f |]; [| discriminate].
  destruct (frame_closed f); [discriminate |]. intros [= <-].
  destruct (Hinv Hst) as (Hflags & (done & Hcalls & Hts) & Hkey).
  eexists. split; [reflexivity |]. split; [exact Hd |]. cbn -[seq]. intros _.
  split; [| split].
  - rewrite seq_S, !map_app, Hflags. reflexivity.
  - exists done. split; [now rewrite Hcalls, app_assoc | exact Hts].
  - exact Hkey.
Qed.

Lemma captureStep_submissions env drops count interval delay n w w' :
  submissions drops n w ->
  WebCodecsOrchestrator.captureStep env count interval delay n w = (w', inr tt) ->
  submissions drops (S n) w'.
Proof.
  intros Hn (w4 & frame & w5 & w6 & H4 & H5 & H6 & ->)%captureStep_inr.
  assert (submissions drops (S n) w6) as H.
  { apply (encodeFrame_submissions drops n w5 w6 frame); [| exact H6].
    apply (submissions_agree drops n w4);
      [exact (respects_agree _ EncoderService _ _ _ _
                (storeForValidation_modifies env _ _) eq_refl H5) |].
    eapply submissions_agree;
      [exact (respects_agree _ EncoderService _ _ _ _ captureFrame_modifies eq_refl H4) |].
    apply whileWaiting_submissions. revert Hn. apply submissions_agree.
    cbn. apply (setColor_modifies _ w EncoderService eq_refl). }
  destruct (Nat.ltb n (count - 1)); [revert H; apply submissions_agree |]; easy.
Qed.

Lemma initializeEncoder_fresh env w w1 :
  WebCodecsOrchestrator.initializeEncoder env w = (w1, inr tt) ->
  encoderService w1
  = mkEncoderService (Some (mkEncoder configured [] [] false (encoderDrops env))) [].
Proof.
  unfold WebCodecsOrchestrator.initializeEncoder. intros H.
  apply bind_inr in H as (wa & ms & [= <- <-] & H).
  destruct (mediaStream w) as [stream |]; [| discriminate].
  apply bind_inr in H as (wb & settings & _ & H).
  unfold VideoEncoderService.initialize in H.
  destruct (encoderSupported env _); [| discriminate]. now inversion H.
Qed.

(** The encoder at the end of a capture session that completes: the
    codec is configured and done with every frame, and [submissions]
    holds of the 20 frames. *)
Lemma capture_session_submissions (env : Env) (w w1 w2 : World) :
  WebCodecsOrchestrator.initializeEncoder env w = (w1, inr tt) ->
  WebCodecsOrchestrator.captureAndEncodeFrames env w1 = (w2, inr tt) ->
  exists e,
    encoder (encoderService w2) = Some e /\ enc_state e = configured /\
    enc_queue e = [] /\ enc_drops e = encoderDrops env /\
    map snd (enc_calls e)
    = map (fun i => Nat.eqb i 0) (seq 0 WebCodecsOrchestrator.FRAME_COUNT) /\
    map timestamp (VideoEncoderService.getEncodedChunks w2)
    = map (fun x => frame_timestamp (fst x)) (survivors (encoderDrops env) 0 (enc_calls e)) /\
    match VideoEncoderService.getEncodedChunks w2 with
    | c :: _ => type c = key
    | [] => True
    end.
Proof.
  intros Hinit Hcap.
  unfold WebCodecsOrchestrator.captureAndEncodeFrames in Hcap.
  apply bind_inr in Hcap as (wa & [] & [= <-] & Hcap).
  apply bind_inr in Hcap as (wb & [] & [= <-] & Hcap).
  apply bind_inr in Hcap as (wc & [] & Hloop & Hcap).
  apply bind_inr in Hcap as (wd & [] & [= <-] & Hflush).
  assert (submissions (encoderDrops env) 0 w1) as H0.
  { eexists. rewrite (initializeEncoder_fresh _ _ _ Hinit). split; [reflexivity |].
    split; [reflexivity |]. intros _. split; [reflexivity |]. split; [| reflexivity].
    exists []. split; reflexivity. }
  assert (submissions (encoderDrops env) WebCodecsOrchestrator.FRAME_COUNT wc) as Hc.
  { pose proof (for_of_invariant (submissions (encoderDrops env))
                  (seq 0 WebCodecsOrchestrator.FRAME_COUNT)
                  (WebCodecsOrchestrator.captureStep env WebCodecsOrchestrator.FRAME_COUNT
                     WebCodecsOrchestrator.FRAME_INTERVAL_MS
                     WebCodecsOrchestrator.FLASH_DISPLAY_DELAY_MS)) as Hfor.
    rewrite length_seq in Hfor. eapply Hfor; [| | exact Hloop]; clear Hfor.
    - intros i x s s' [-> _]%lookup_seq. apply captureStep_submissions.
    - revert H0. apply submissions_agree. cbn.
      apply (show_modifies w1 EncoderService eq_refl). }
  assert (submissions (encoderDrops env) WebCodecsOrchestrator.FRAME_COUNT
            (ScreenFlashController.hide wc)) as Hh.
  { revert Hc. apply submissions_agree. apply (hide_modifies wc EncoderService eq_refl). }
  pose proof Hh as (e & He & _).
  unfold VideoEncoderService.flush in Hflush. rewrite He in Hflush.
  destruct (CodecState_eqb (enc_state e) configured) eqn:S; [| discriminate].
  assert (enc_state e = configured) as Hst by (destruct (enc_state e); easy).
  cbn [negb] in Hflush. injection Hflush as <-.
  destruct (codecOutput_queue (length (enc_queue e)) _ e He)
    as (e' & He' & Hst' & Hcalls & Hq & _).
  rewrite drop_all in Hq.
  apply (codecOutput_submissions _ (length (enc_queue e))) in Hh.
  destruct Hh as (e'' & He'' & Hd & Hinv).
  rewrite He' in He''. injection He'' as <-.
  destruct Hinv as (Hflags & (done & Hdone & Hts) & Hkey); [congruence |].
  rewrite Hq, app_nil_r in Hdone. subst done.
  exists e'. unfold VideoEncoderService.getEncodedChunks.
  split; [exact He' |]. split; [congruence |]. split; [exact Hq |]. split; [exact Hd |].
  split; [exact Hflags |]. split; [exact Hts |].
  destruct (encodedChunks _); [exact I | exact Hkey].
Qed.

(** C5. In a capture session that completes, from the initialization of
    the encoder to the flush that ends the capture, 20 frames were
    submitted to the encoder, one per capture point, only the first of
    them with the key frame flag. The encoder has collected the chunks of
    those of the frames that the codec did not drop, one for each, in the
    order in which the frames were submitted: at most 20 chunks, and 20
    when the codec drops no frame. The first chunk, when there is one, is
    a key chunk. *)
Theorem chunks_match_capture_points (env : Env) (w w1 w2 : World) :
  WebCodecsOrchestrator.initializeEncoder env w = (w1, inr tt) ->
  WebCodecsOrchestrator.captureAndEncodeFrames env w1 = (w2, inr tt) ->
  let chunks := VideoEncoderService.getEncodedChunks w2 in
  (exists e,
     encoder (encoderService w2) = Some e /\
     enc_queue e = [] /\
     length (enc_calls e) = WebCodecsOrchestrator.FRAME_COUNT /\
     map snd (enc_calls e) = true :: repeat false 19 /\
     map timestamp chunks
     = map (fun x => frame_timestamp (fst x))
         (survivors (encoderDrops env) 0 (enc_calls e)) /\
     ((forall i, (i < 20)%nat -> encoderDrops env i = false) ->
      map timestamp chunks = map (fun x => frame_timestamp (fst x)) (enc_calls e))) /\
  length chunks
  = length (List.filter (fun i => negb (encoderDrops env i)) (seq 0 20)) /\
  (length chunks <= 20)%nat /\
  ((forall i, (i < 20)%nat -> encoderDrops env i = false) -> length chunks = 20%nat) /\
  match chunks with c :: _ => type c = key | [] => True end.
Proof.
  intros Hinit Hcap chunks.
  destruct (capture_session_submissions env w w1 w2 Hinit Hcap)
    as (e & He & _ & Hq & _ & Hflags & Hts & Hkey).
  fold chunks in Hts, Hkey.
  assert (length (enc_calls e) = 20%nat) as Hlen
    by (rewrite <- (length_map snd), Hflags, length_map, length_seq; reflexivity).
  assert (length chunks
          = length (List.filter (fun i => negb (encoderDrops env i)) (seq 0 20))) as Hcount.
  { rewrite <- (length_map timestamp), Hts, length_map, survivors_length, Hlen.
    reflexivity. }
  assert ((forall i, (i < 20)%nat -> encoderDrops env i = false) ->
          survivors (encoderDrops env) 0 (enc_calls e) = enc_calls e) as Hall.
  { intros Hnone. apply survivors_all. intros j Hj. apply Hnone. lia. }
  split; [| split; [exact Hcount |]; split; [| split; [| exact Hkey]]].
  - exists e. split; [exact He |]. split; [exact Hq |]. split; [exact Hlen |].
    split; [exact Hflags |]. split; [exact Hts |].
    intros Hnone. now rewrite Hts, (Hall Hnone).
  - rewrite Hcount. etransitivity; [apply List.filter_length_le |]. now rewrite length_seq.
  - intros Hnone. rewrite <- (length_map timestamp), Hts, (Hall Hnone), length_map.
    exact Hlen.
Qed.

Lemma chunks_match_capture_points_witness :
  length (VideoEncoderService.getEncodedChunks session) = 20%nat /\
  match VideoEncoderService.getEncodedChunks session with
  | c :: _ => type c = key
  | [] => True
  end.
Proof.
  destruct (chunks_match_capture_points (scenario None (Some attentive))
              sourced encoding session) as (_ & _ & _ & Hlen & Hkey);
    [vm_compute; reflexivity | vm_compute; reflexivity |].
  split; [apply Hlen; reflexivity | exact Hkey].
Defined.

(** With a codec that drops the frame of the eighth capture point, the
    capture session completes, 20 frames were submitted, and the encoder
    has collected 19 chunks. *)
Theorem capture_session_with_a_dropped_frame :
  snd lossy_session = inr tt /\
  length (submitted (fst lossy_session)) = 20%nat /\
  length (VideoEncoderService.getEncodedChunks (fst lossy_session)) = 19%nat /\
  length (VideoEncoderService.getEncodedChunks (fst lossy_session))
  <> WebCodecsOrchestrator.FRAME_COUNT.
Proof. repeat split; vm_compute; congruence. Qed.

(** ** The frames stored for validation *)

#[local] Instance kept_refl n : Reflexive (kept n).
Proof. intros w h _. reflexivity. Qed.

#[local] Instance kept_trans n : Transitive (kept n).
Proof. intros a b c Hab Hbc h Hh. now rewrite (Hbc h Hh), (Hab h Hh). Qed.










Lemma VideoFrame_clone_inr h w w' h' :
  VideoFrame_clone h w = (w', inr h') ->
  exists f, frames w !! h = Some f /\ frame_closed f = false /\
            h' = length (frames w) /\ w' = set_frames (frames w ++ [f]) w.
Proof.
  unfold VideoFrame_clone, VideoFrame_new.
  destruct (frames w !! h) as [f |]; [| discriminate].
  destruct (frame_closed f) eqn:C; [discriminate |].
  intros [= <- <-]. eauto.
Qed.

Lemma captureFrame_inr w w' frame :
  FrameCaptureService.captureFrame w = (w', inr frame) ->
  exists c f,
    currentFrame (capture w) = Some c /\ frames w !! c = Some f /\ frame_closed f = false /\
    frame = length (frames w) /\ frames w' = (frames w ++ [f])%list /\
    currentFrame (capture w') = Some c /\
    encoderService w' = encoderService w /\
    capturedFramesForValidation w' = capturedFramesForValidation w.
Proof.
  unfold FrameCaptureService.captureFrame, try_finally.
  destruct (currentFrame (capture w)) as [c |] eqn:Hc; [| discriminate].
  destruct (VideoFrame_clone c _) as [w1 [e | h]] eqn:Hclone; [discriminate |].
  intros [= <- <-].
  apply VideoFrame_clone_inr in Hclone as (f & Hf & Ho & -> & ->).
  exists c, f. cbn in *. rewrite Hc. repeat split; assumption.
Qed.


Lemma encodeFrame_inr frame keyFrame w w' :
  VideoEncoderService.encodeFrame frame keyFrame w = (w', inr tt) ->
  exists f, frames w !! frame = Some f /\ frame_closed f = false /\
            submitted w' = (submitted w ++ [(f, keyFrame)])%list /\
            frames w' = close_in frame (frames w) /\
            capturedFramesForValidation w' = capturedFramesForValidation w /\
            capture w' = capture w.
Proof.
  unfold VideoEncoderService.encodeFrame, submitted.
  destruct (encoder (encoderService w)) as [e |]; [| discriminate].
  destruct (negb _); [discriminate |].
  destruct (frames w !! frame) as [f |]; [| discriminate].
  destruct (frame_closed f) eqn:C; [discriminate |].
  intros [= <-]. exists f. split; [reflexivity |]. split; [exact C |]. repeat split.
Qed.





(** *** Decoding leaves the frames that exist alone *)






(** *** Validation in the order of the stored frames *)





(** * Further properties *)

(** ** The classifier *)

(** X1. [analyzeFrame] throws one of four errors only, and leaves the
    store as it is: "OpenAI API key not set" when no key was set, before
    anything is tried; otherwise the timeout, the API key or the rate
    limit error. Whatever else goes wrong, a closed frame included, comes
    back as a result. *)
Theorem analyzeFrame_throws_four_errors (apiKey : string)
  (respond : VideoFrame -> ApiOutcome) (frame : nat) (w w' : World) (e : JsError) :
  OpenAIFaceDetectionService.analyzeFrame apiKey respond frame w = (w', inl e) ->
  w' = w /\
  (apiKey = EmptyString /\ e = Error "OpenAI API key not set"
   \/ apiKey <> EmptyString /\
      (e = Error "OpenAI API request timed out after 30 seconds"
       \/ e = Error "Invalid or missing OpenAI API key. Please check your API key."
       \/ e = Error "OpenAI API rate limit exceeded. Please wait and try again.")).
Proof.
  unfold OpenAIFaceDetectionService.analyzeFrame. intros [= <- H]. split; [reflexivity |].
  unfold OpenAIFaceDetectionService.analyze in H.
  destruct (String.eqb_spec apiKey EmptyString) as [-> | Hkey].
  - left. split; [reflexivity | congruence].
  - right. split; [exact Hkey |].
    destruct (OpenAIFaceDetectionService.request _ _) as [error | r]; [| discriminate H].
    unfold OpenAIFaceDetectionService.recover in H.
    destruct (String.eqb (name error) "AbortError"); [left; congruence |].
    destruct (_ || _); [right; left; congruence |].
    destruct (_ || _); [right; right; congruence | discriminate H].
Qed.

Lemma analyzeFrame_throws_four_errors_witness :
  fst (OpenAIFaceDetectionService.analyzeFrame "sk-test" (respond sluggish 1) 0 snapshot)
  = snapshot.
Proof.
  refine (proj1 (analyzeFrame_throws_four_errors "sk-test" (respond sluggish 1) 0 snapshot _
                   (Error "OpenAI API request timed out after 30 seconds") _)).
  vm_compute. reflexivity.
Defined.

(** X2. Every result of [analyzeFrame] has a confidence between 0 and 1
    and a reason; and when the frame given is closed, or is no frame, the
    call does not fail: it returns a result that is not valid, of
    confidence 0. *)
Theorem analyzeFrame_result_is_well_formed (apiKey : string)
  (respond : VideoFrame -> ApiOutcome) (frame : nat) (w : World) :
  (forall w' r,
     OpenAIFaceDetectionService.analyzeFrame apiKey respond frame w = (w', inr r) ->
     w' = w /\ (0 <= confidence r)%Q /\ (confidence r <= 1)%Q /\ is_Some (reason r)) /\
  (apiKey <> EmptyString -> ~ is_open w frame ->
   exists r,
     OpenAIFaceDetectionService.analyzeFrame apiKey respond frame w = (w, inr r) /\
     isValid r = false /\ confidence r = 0%Q).
Proof.
  unfold OpenAIFaceDetectionService.analyzeFrame, OpenAIFaceDetectionService.analyze. split.
  - intros w' r [= <- H]. split; [reflexivity |].
    destruct (String.eqb apiKey ""); [discriminate H |].
    destruct (OpenAIFaceDetectionService.request _ _) as [error | r'] eqn:E.
    + unfold OpenAIFaceDetectionService.recover in H.
      repeat (destruct (_ || _) || destruct (String.eqb _ _)); try discriminate H.
      injection H as <-. cbn.
      split; [apply Qle_refl |]. split; [vm_compute; discriminate | eauto].
    + injection H as ->. unfold OpenAIFaceDetectionService.request in E.
      destruct (frames w !! frame) as [f |]; [| discriminate E].
      destruct (frame_closed f); [discriminate E |].
      destruct (respond f); try discriminate E. injection E as <-. cbn.
      split; [apply Q.le_max_l |]. split; [| eauto].
      apply Q.max_lub; [vm_compute; discriminate | apply Q.le_min_l].
  - intros Hkey Hclosed. destruct (String.eqb_spec apiKey EmptyString) as [-> | _]; [easy |].
    unfold OpenAIFaceDetectionService.request.
    destruct (frames w !! frame) as [f |] eqn:F; [destruct (frame_closed f) eqn:C |].
    + eexists. split; [reflexivity | split; reflexivity].
    + exfalso. apply Hclosed. exists f. auto.
    + eexists. split; [reflexivity | split; reflexivity].
Qed.

Lemma analyzeFrame_result_is_well_formed_witness :
  exists r,
    OpenAIFaceDetectionService.analyzeFrame "sk-test" (respond attentive 0) 5 snapshot
      = (snapshot, inr r) /\
    isValid r = false /\ confidence r = 0%Q.
Proof.
  destruct (analyzeFrame_result_is_well_formed "sk-test" (respond attentive 0) 5 snapshot)
    as [_ H].
  apply H; [discriminate |].
  intros (f & Hf & _). vm_compute in Hf. discriminate Hf.
Defined.

(** ** The flash controller *)

Lemma flash_overlay (c : FlashCall) (w : World) (o : OverlayElement) :
  overlay w = Some o ->
  flash c w
  = set_overlay
      (Some (mkOverlay (parentNode o) (display_after [c] (style_display o))
               (color_after [c] (style_backgroundColor o)))) w.
Proof.
  intros H. destruct c as [[] | |]; cbn;
    unfold ScreenFlashController.setColor, ScreenFlashController.show,
      ScreenFlashController.hide; now rewrite H.
Qed.

Lemma flash_disposed (c : FlashCall) (w : World) : overlay w = None -> flash c w = w.
Proof.
  intros H. destruct c; cbn;
    unfold ScreenFlashController.setColor, ScreenFlashController.show,
      ScreenFlashController.hide; now rewrite H.
Qed.

(** X3. Whatever calls of [setColor], [show] and [hide] are made on the
    flash controller, the overlay stays where it is in the document, it is
    displayed as the last [show] or [hide] says and coloured as the last
    [setColor] says, so setting a colour never shows a hidden overlay;
    nothing but the overlay changes; and once the controller is disposed
    the calls do nothing. *)
Theorem flash_calls (cs : list FlashCall) (w : World) :
  (forall o, overlay w = Some o ->
     overlay (flashes cs w)
     = Some (mkOverlay (parentNode o) (display_after cs (style_display o))
               (color_after cs (style_backgroundColor o)))) /\
  modifies [Overlay] w (flashes cs w) /\
  (overlay w = None -> flashes cs w = w) /\
  flashes cs (ScreenFlashController.dispose (ScreenFlashController.createOverlay w))
  = ScreenFlashController.dispose (ScreenFlashController.createOverlay w).
Proof.
  assert (Hnone : forall w0, overlay w0 = None -> flashes cs w0 = w0).
  { unfold flashes. induction cs as [| c cs IH]; intros w0 H0; cbn; [reflexivity |].
    rewrite (flash_disposed c w0 H0). now apply IH. }
  split; [| split; [| split]].
  - clear Hnone. unfold flashes, display_after, color_after. revert w.
    induction cs as [| c cs IH]; intros w o Ho; cbn [fold_left].
    + rewrite Ho. now destruct o.
    + rewrite (IH (flash c w) _ ltac:(rewrite (flash_overlay c w o Ho); reflexivity)).
      reflexivity.
  - unfold flashes. apply (stable_fold_left (modifies [Overlay]) (fun w c => flash c w)).
    intros [color | |]; cbn [flash]; footprint_leaf.
  - apply Hnone.
  - apply Hnone. reflexivity.
Qed.

Lemma flash_calls_witness :
  overlay (flashes [FlashShow; FlashSetColor BLACK; FlashSetColor WHITE; FlashHide;
                    FlashSetColor BLACK] initial)
  = Some (mkOverlay true "none" "#000000").
Proof.
  destruct (flash_calls [FlashShow; FlashSetColor BLACK; FlashSetColor WHITE; FlashHide;
                         FlashSetColor BLACK] initial) as [H _].
  exact (H (mkOverlay true "none" "") eq_refl).
Defined.

(** ** The frame capture service *)

Lemma close_in_lookup_eq (h : nat) (fs : list VideoFrame) :
  close_in h fs !! h
  = (fun f => mkFrame (frame_timestamp f) (frame_pixels f) true) <$> fs !! h.
Proof. unfold close_in. apply list_lookup_alter_eq. Qed.

Lemma close_in_lookup_ne (h h' : nat) (fs : list VideoFrame) :
  h <> h' -> close_in h fs !! h' = fs !! h'.
Proof. intros H. unfold close_in. now apply list_lookup_alter_ne. Qed.

Lemma close_in_length (h : nat) (fs : list VideoFrame) : length (close_in h fs) = length fs.
Proof. unfold close_in. apply length_alter. Qed.

(** Closing a frame opens none. *)
Lemma close_in_open (c h : nat) (fs : list VideoFrame) (f : VideoFrame) :
  close_in c fs !! h = Some f -> frame_closed f = false -> c <> h /\ fs !! h = Some f.
Proof.
  intros Hf Ho. destruct (decide (c = h)) as [-> | Hne].
  - rewrite close_in_lookup_eq in Hf. destruct (fs !! h); cbn in Hf; [| discriminate Hf].
    injection Hf as <-. discriminate Ho.
  - split; [exact Hne |]. now rewrite close_in_lookup_ne in Hf.
Qed.

(** A turn of the reader loop, as one update of the store. *)
Lemma readFrames_eq (v : Z * N) (w : World) :
  isReading (capture w) && bool_decide (is_Some (reader (capture w))) = true ->
  FrameCaptureService.readFrames v w
  = set_capture
      (FrameCaptureService.set_currentFrame (Some (length (frames w))) (capture w))
      (set_frames
         (from_option (fun c => close_in c (frames w)) (frames w) (currentFrame (capture w))
            ++ [mkFrame (fst v) (snd v) false]) w).
Proof.
  intros H. unfold FrameCaptureService.readFrames. rewrite H.
  destruct (currentFrame (capture w)) as [c |]; cbn; [| reflexivity].
  now rewrite close_in_length.
Qed.

Lemma readFrames_open (v : Z * N) (w : World) (h : nat) :
  is_open (FrameCaptureService.readFrames v w) h ->
  currentFrame (capture (FrameCaptureService.readFrames v w)) = Some h
  \/ (is_open w h /\ currentFrame (capture w) <> Some h).
Proof.
  destruct (isReading (capture w) && bool_decide (is_Some (reader (capture w)))) eqn:R.
  - rewrite (readFrames_eq v w R). unfold is_open. cbn. intros (f & Hf & Ho).
    destruct (decide (h = length (frames w))) as [-> | Hne]; [now left | right].
    assert (h < length (frames w))%nat as Hlt.
    { apply lookup_lt_Some in Hf. rewrite length_app in Hf. cbn in Hf.
      destruct (currentFrame (capture w)); cbn in Hf; rewrite ?close_in_length in Hf; lia. }
    rewrite lookup_app_l in Hf
      by (destruct (currentFrame (capture w)); cbn; rewrite ?close_in_length; lia).
    destruct (currentFrame (capture w)) as [c |]; cbn in Hf.
    + destruct (close_in_open c h _ f Hf Ho) as [Hc Hf']. split; [exists f; auto | congruence].
    + split; [exists f; auto | discriminate].
  - unfold FrameCaptureService.readFrames. rewrite R. intros Ho.
    destruct (decide (currentFrame (capture w) = Some h)); auto.
Qed.

(** The frames that the reader loop leaves live: the one it holds, and
    those that were live and that it did not hold. *)
Lemma deliver_open (values : list (Z * N)) (w : World) (h : nat) :
  is_open (FrameCaptureService.deliver values w) h ->
  currentFrame (capture (FrameCaptureService.deliver values w)) = Some h
  \/ (is_open w h /\ currentFrame (capture w) <> Some h).
Proof.
  unfold FrameCaptureService.deliver. revert w.
  induction values as [| v values IH]; intros w Ho; cbn in *.
  - destruct (decide (currentFrame (capture w) = Some h)); auto.
  - destruct (IH _ Ho) as [Hc | [Ho1 Hn1]]; [now left |].
    destruct (readFrames_open v w h Ho1) as [Hc | H]; [contradiction | now right].
Qed.

Lemma deliver_snoc (values : list (Z * N)) (v : Z * N) (w : World) :
  FrameCaptureService.deliver (values ++ [v]) w
  = FrameCaptureService.readFrames v (FrameCaptureService.deliver values w).
Proof. unfold FrameCaptureService.deliver. now rewrite fold_left_app. Qed.

Lemma deliver_reading (values : list (Z * N)) (w : World) :
  let w' := FrameCaptureService.deliver values w in
  isReading (capture w') = isReading (capture w) /\ reader (capture w') = reader (capture w) /\
  videoTrack (capture w') = videoTrack (capture w) /\
  (isReading (capture w) && bool_decide (is_Some (reader (capture w))) = true ->
   length (frames w') = (length (frames w) + length values)%nat).
Proof.
  unfold FrameCaptureService.deliver. revert w.
  induction values as [| v values IH]; intros w; cbn.
  - repeat split. intros _. lia.
  - destruct (IH (FrameCaptureService.readFrames v w)) as (H1 & H2 & H3 & H4). cbv zeta in *.
    destruct (isReading (capture w) && bool_decide (is_Some (reader (capture w)))) eqn:R.
    + rewrite (readFrames_eq v w R) in *. cbn in *. rewrite H1, H2, H3.
      repeat split. intros _. rewrite (H4 R), length_app. cbn.
      destruct (currentFrame (capture w)); cbn; rewrite ?close_in_length; lia.
    + unfold FrameCaptureService.readFrames in *. rewrite R in *.
      rewrite H1, H2, H3. repeat split. discriminate.
Qed.

(** After the delivery of a frame to a service that reads, the service
    holds it. *)
Lemma deliver_latest (values : list (Z * N)) (v : Z * N) (w : World) :
  isReading (capture w) && bool_decide (is_Some (reader (capture w))) = true ->
  let w' := FrameCaptureService.deliver (values ++ [v]) w in
  currentFrame (capture w') = Some (length (frames w) + length values)%nat /\
  frames w' !! (length (frames w) + length values)%nat
  = Some (mkFrame (fst v) (snd v) false) /\
  length (frames w') = (length (frames w) + length values + 1)%nat.
Proof.
  intros R w'.
  destruct (deliver_reading values w) as (H1 & H2 & _ & H4). cbv zeta in *.
  specialize (H4 R).
  assert (isReading (capture (FrameCaptureService.deliver values w))
          && bool_decide (is_Some (reader (capture (FrameCaptureService.deliver values w))))
          = true) as R' by now rewrite H1, H2.
  subst w'. rewrite deliver_snoc, (readFrames_eq v _ R'). cbn. rewrite H4.
  split; [reflexivity |]. split.
  - rewrite <- H4. apply list_lookup_middle.
    destruct (currentFrame (capture (FrameCaptureService.deliver values w))); cbn;
      now rewrite ?close_in_length.
  - rewrite length_app. cbn.
    destruct (currentFrame (capture (FrameCaptureService.deliver values w))); cbn;
      rewrite ?close_in_length; lia.
Qed.




(** [captureFrame] when the frame held is live. *)
Lemma captureFrame_run (w : World) (c : nat) (f : VideoFrame) :
  currentFrame (capture w) = Some c -> frames w !! c = Some f -> frame_closed f = false ->
  FrameCaptureService.captureFrame w
  = (set_capture (FrameCaptureService.set_frameUpdateLock true (capture w))
       (set_frames (frames w ++ [f]) w), inr (length (frames w))).
Proof.
  intros Hc Hf Ho. unfold FrameCaptureService.captureFrame, try_finally, VideoFrame_clone.
  rewrite Hc. cbn. rewrite Hf, Ho. reflexivity.
Qed.

(** X5. [captureFrame] hands out a copy: a new frame with the content of
    the frame held, which stays held and live whatever is done with the
    copy. So once the copy is encoded, and thereby closed, the next
    [captureFrame] succeeds again, with another frame. The update lock is
    released on every return, and a failure, which needs the frame held to
    be closed or missing, makes no frame. *)
Theorem captureFrame_gives_a_copy (w w1 : World) (r : JsError + nat) :
  FrameCaptureService.captureFrame w = (w1, r) ->
  currentFrame (capture w1) = currentFrame (capture w) /\
  (forall h, (h < length (frames w))%nat -> frames w1 !! h = frames w !! h) /\
  match r with
  | inr frame =>
      (exists c f,
         currentFrame (capture w) = Some c /\ frames w !! c = Some f /\
         frame_closed f = false /\ frame <> c /\
         frames w !! frame = None /\ frames w1 !! frame = Some f) /\
      frameUpdateLock (capture w1) = true /\
      forall keyFrame w2,
        VideoEncoderService.encodeFrame frame keyFrame w1 = (w2, inr tt) ->
        is_closed w2 frame /\
        exists w3 frame',
          FrameCaptureService.captureFrame w2 = (w3, inr frame') /\ frame' <> frame
  | inl e =>
      frames w1 = frames w /\
      forall c, currentFrame (capture w) = Some c ->
                ~ is_open w c /\ frameUpdateLock (capture w1) = true
  end.
Proof.
  intros H. destruct r as [e | frame].
  - unfold FrameCaptureService.captureFrame in H.
    destruct (currentFrame (capture w)) as [c |] eqn:Hc.
    + unfold try_finally, VideoFrame_clone in H. cbn in H.
      destruct (frames w !! c) as [f |] eqn:Hf;
        [destruct (frame_closed f) eqn:Ho; [| discriminate H] |];
        injection H as <- <-; cbn;
        (split; [exact Hc | split; [now intros | split; [reflexivity |]]]);
        intros c0 [= <-]; (split; [| reflexivity]); intros (f0 & Hf0 & Ho0); congruence.
    + injection H as <- <-.
      split; [exact Hc | split; [now intros | split; [reflexivity | intros c [=]]]].
  - destruct (captureFrame_inr _ _ _ H) as (c & f & Hc & Hf & Ho & -> & Hfr & Hc1 & _ & _).
    assert (c < length (frames w))%nat as Hlt by (eapply lookup_lt_Some, Hf).
    rewrite (captureFrame_run w c f Hc Hf Ho) in H. injection H as <-.
    split; [cbn; now rewrite Hc |]. split; [intros h Hh; cbn; now apply lookup_app_l |].
    split; [| split; [reflexivity |]].
    + exists c, f. repeat split; try assumption; [lia | now apply lookup_ge_None |].
      cbn. now apply list_lookup_middle.
    + intros keyFrame w2 He.
      apply encodeFrame_inr in He as (f' & Hf' & Ho' & _ & Hfr2 & _ & Hcap2).
      cbn in Hf', Hfr2, Hcap2. split.
      * eexists. rewrite Hfr2, close_in_lookup_eq, Hf'. split; reflexivity.
      * assert (frames w2 !! c = Some f) as Hc2.
        { rewrite Hfr2, close_in_lookup_ne by lia. now apply lookup_app_l_Some. }
        eexists _, _. split.
        -- apply (captureFrame_run w2 c f); [now rewrite Hcap2 | exact Hc2 | exact Ho].
        -- rewrite Hfr2, close_in_length, length_app. cbn. lia.
Qed.

Lemma captureFrame_gives_a_copy_witness :
  currentFrame (capture holding) = currentFrame (capture ready) /\
  forall h, (h < length (frames ready))%nat -> frames holding !! h = frames ready !! h.
Proof.
  destruct (captureFrame_gives_a_copy ready holding (inr 1%nat)) as (H1 & H2 & _).
  - vm_compute. reflexivity.
  - split; assumption.
Defined.

(** X6. [initialize] of the capture service, when the service holds no
    frame yet. A stream without a video track is refused and nothing
    changes. Otherwise the service takes the first video track of the
    stream and reads from it: when the camera delivers frames within the
    time allowed, [initialize] returns with the latest of them held, live,
    so that [captureFrame] succeeds; when it delivers none, [initialize]
    fails with a timeout and leaves the service reading, with the track
    taken. No track is stopped either way. *)
Theorem frame_capture_initialize_outcomes (stream : list nat) (arrivals : list (Z * N))
  (w : World) :
  currentFrame (capture w) = None ->
  (getVideoTracks stream w = [] ->
   FrameCaptureService.initialize stream arrivals w
   = (w, inl (Error "No video tracks found in media stream"))) /\
  (forall t rest, getVideoTracks stream w = t :: rest ->
   exists w',
     FrameCaptureService.initialize stream arrivals w
     = (w', match arrivals with
            | [] => inl (Error "Timeout waiting for first frame")
            | _ :: _ => inr tt
            end) /\
     videoTrack (capture w') = Some t /\ isReading (capture w') = true /\
     tracks w' = tracks w /\
     match last arrivals with
     | None => frames w' = frames w /\ currentFrame (capture w') = None
     | Some v =>
         exists c, currentFrame (capture w') = Some c /\
                   frames w' !! c = Some (mkFrame (fst v) (snd v) false) /\
                   exists w2 frame, FrameCaptureService.captureFrame w' = (w2, inr frame)
     end).
Proof.
  intros Hnone. unfold FrameCaptureService.initialize. split.
  - intros Hv. unfold bind, gets. now rewrite Hv.
  - intros t rest Hv. unfold bind at 1. unfold gets. rewrite Hv.
    unfold bind, exec, FrameCaptureService.waitForFirstFrame. cbn. rewrite Hnone.
    set (w1 := set_capture _ w).
    destruct arrivals as [| v values _] using rev_ind.
    + cbn. exists w1. repeat split.
    + assert (isReading (capture w1) && bool_decide (is_Some (reader (capture w1))) = true)
        as R by reflexivity.
      destruct (deliver_latest values v w1 R) as (Hc & Hf & _).
      destruct (deliver_reading (values ++ [v]) w1) as (H1 & _ & H3 & _). cbv zeta in *.
      rewrite Hc, last_snoc.
      exists (FrameCaptureService.deliver (values ++ [v]) w1).
      split; [now destruct values |]. split; [exact H3 |]. split; [exact H1 |].
      split; [apply (deliver_modifies (values ++ [v]) w1 Tracks eq_refl) |].
      eexists. split; [exact Hc |]. split; [exact Hf |].
      eexists _, _. apply (captureFrame_run _ _ _ Hc Hf eq_refl).
Qed.

Lemma frame_capture_initialize_outcomes_witness :
  FrameCaptureService.initialize [0%nat] [(0, 7%N)] plugged
  = (plugged, inl (Error "No video tracks found in media stream")) /\
  (exists w',
     FrameCaptureService.initialize [0; 1]%nat [(0, 7%N); (1000, 8%N)] plugged = (w', inr tt) /\
     videoTrack (capture w') = Some 1%nat /\ tracks w' = tracks plugged /\
     exists c, currentFrame (capture w') = Some c /\
               frames w' !! c = Some (mkFrame 1000 8 false) /\
               exists w2 frame, FrameCaptureService.captureFrame w' = (w2, inr frame)) /\
  (exists w',
     FrameCaptureService.initialize [0; 1]%nat [] plugged
     = (w', inl (Error "Timeout waiting for first frame")) /\
     videoTrack (capture w') = Some 1%nat /\ isReading (capture w') = true /\
     currentFrame (capture w') = None).
Proof.
  assert (currentFrame (capture plugged) = None) as Hnone by reflexivity.
  split; [| split].
  - destruct (frame_capture_initialize_outcomes [0%nat] [(0, 7%N)] plugged Hnone) as [H _].
    apply H. reflexivity.
  - destruct (frame_capture_initialize_outcomes [0; 1]%nat [(0, 7%N); (1000, 8%N)] plugged
                Hnone) as [_ H].
    destruct (H 1%nat [] eq_refl) as (w' & Hrun & Ht & _ & Htracks & Hlast).
    exists w'. split; [exact Hrun |]. split; [exact Ht |]. split; [exact Htracks |].
    exact Hlast.
  - destruct (frame_capture_initialize_outcomes [0; 1]%nat [] plugged Hnone) as [_ H].
    destruct (H 1%nat [] eq_refl) as (w' & Hrun & Ht & Hr & _ & _ & Hcur).
    exists w'. repeat split; assumption.
Defined.

(** ** Validation of the stored frames *)

(** Closing frames opens none. *)
Lemma close_all_open (l : list nat) (fs : list VideoFrame) (h : nat) (f : VideoFrame) :
  fold_left (fun fs h => close_in h fs) l fs !! h = Some f -> frame_closed f = false ->
  fs !! h = Some f /\ ~ In h l.
Proof.
  revert fs. induction l as [| x l IH]; intros fs Hf Ho; cbn in *; [auto |].
  destruct (IH _ Hf Ho) as [Hx Hl]. destruct (close_in_open x h fs f Hx Ho) as [Hne Hfs].
  split; [exact Hfs | intros [-> | Hin]; contradiction].
Qed.

Lemma close_all_length (l : list nat) (fs : list VideoFrame) :
  length (fold_left (fun fs h => close_in h fs) l fs) = length fs.
Proof.
  revert fs. induction l as [| x l IH]; intros fs; cbn; [reflexivity |].
  now rewrite IH, close_in_length.
Qed.

(** A validation loop, however it ends: it has appended the results of
    the frames it went through, and has closed these frames. *)
Lemma validateLoop_outcome (service : FaceDetection) (fs : list nat) :
  forall i w w' r,
  WebCodecsOrchestrator.validateLoop service i fs w = (w', r) ->
  exists rs,
    validationResults w' = validationResults w ++ rs /\
    frames w' = fold_left (fun fs h => close_in h fs) (take (length rs) fs) (frames w) /\
    match r with
    | inr _ => length rs = length fs
    | inl _ => (length rs < length fs)%nat
    end.
Proof.
  induction fs as [| frame rest IH]; intros i w w' r H.
  - injection H as <- <-. exists []. rewrite app_nil_r. repeat split.
  - cbn [WebCodecsOrchestrator.validateLoop] in H.
    destruct (OpenAIFaceDetectionService.analyze (apiKey service) (respond service i)
                (frames w !! frame)) as [e | r0] eqn:A.
    + assert (WebCodecsOrchestrator.validateStep service i frame w = (w, inl e)) as Hstep.
      { unfold WebCodecsOrchestrator.validateStep. apply bind_fail.
        unfold OpenAIFaceDetectionService.analyzeFrame. now rewrite A. }
      rewrite (bind_fail _ _ _ _ _ Hstep) in H. injection H as <- <-.
      exists []. rewrite app_nil_r. repeat split. cbn. lia.
    + assert (OpenAIFaceDetectionService.analyzeFrame (apiKey service) (respond service i)
                frame w = (w, inr r0)) as Ha
        by (unfold OpenAIFaceDetectionService.analyzeFrame; now rewrite A).
      rewrite (bind_run _ _ _ _ _ (validateStep_run service i frame w r0 Ha)) in H.
      destruct (IH _ _ _ _ H) as (rs & Hres & Hfr & Hr). cbn in Hres, Hfr.
      exists (r0 :: rs). rewrite Hres, <- app_assoc. split; [reflexivity |].
      split; [exact Hfr |]. destruct r; cbn; lia.
Qed.

(** [validateCapturedFrames] with a classifier and frames stored. *)
Lemma validateCapturedFrames_run (env : Env) (service : FaceDetection) (w : World) :
  faceDetectionService env = Some service -> capturedFramesForValidation w <> [] ->
  WebCodecsOrchestrator.validateCapturedFrames env w
  = let (w1, r1) := WebCodecsOrchestrator.validateLoop service 0
                      (capturedFramesForValidation w) (set_validationResults [] w) in
    match r1 with
    | inl e => (w1, inl e)
    | inr _ => (set_capturedFramesForValidation [] w1, inr tt)
    end.
Proof.
  intros Hs Hfs. unfold WebCodecsOrchestrator.validateCapturedFrames, bind, gets, exec.
  rewrite Hs. destruct (capturedFramesForValidation w) as [| h0 hs]; [contradiction |].
  cbv beta iota.
  now destruct (WebCodecsOrchestrator.validateLoop service 0 (h0 :: hs) _) as [w1 [e | []]].
Qed.

(** X7. [validateCapturedFrames] does nothing when there is no
    classifier or no frame is stored. Otherwise, when it returns, the
    results are those of this validation only, one per stored frame, every
    stored frame is closed and none is stored any more; when a classifier
    call throws, the frames are still stored, for the cleanup to close
    them, and fewer results than frames are recorded. It never opens a
    frame, and it changes nothing but the frames, the results and the
    list of stored frames. *)
Theorem validateCapturedFrames_outcomes (env : Env) (w w' : World) (r : JsError + unit) :
  WebCodecsOrchestrator.validateCapturedFrames env w = (w', r) ->
  (faceDetectionService env = None \/ capturedFramesForValidation w = [] ->
   w' = w /\ r = inr tt) /\
  (is_Some (faceDetectionService env) -> capturedFramesForValidation w <> [] ->
   match r with
   | inr _ =>
       capturedFramesForValidation w' = [] /\
       length (validationResults w') = length (capturedFramesForValidation w) /\
       forall h f, In h (capturedFramesForValidation w) -> frames w' !! h = Some f ->
                   frame_closed f = true
   | inl _ =>
       capturedFramesForValidation w' = capturedFramesForValidation w /\
       (length (validationResults w') < length (capturedFramesForValidation w))%nat
   end) /\
  (forall h f, frames w' !! h = Some f -> frame_closed f = false -> frames w !! h = Some f) /\
  modifies [Frames; ValidationResults; CapturedFrames] w w'.
Proof.
  intros H.
  assert (Hidle : faceDetectionService env = None \/ capturedFramesForValidation w = [] ->
                  w' = w /\ r = inr tt).
  { unfold WebCodecsOrchestrator.validateCapturedFrames, bind, gets in H.
    intros [Hs | Hfs]; [rewrite Hs in H | rewrite Hfs in H];
      [| destruct (faceDetectionService env)]; now injection H as <- <-. }
  split; [exact Hidle |].
  split; [| split; [| exact (validateCapturedFrames_modifies env _ _ _ H)]].
  - intros [service Hs] Hfs. rewrite (validateCapturedFrames_run env service w Hs Hfs) in H.
    destruct (WebCodecsOrchestrator.validateLoop service 0 _ _) as [w1 r1] eqn:L.
    destruct (validateLoop_outcome _ _ _ _ _ _ L) as (rs & Hres & Hfr & Hr).
    pose proof (validateLoop_modifies service 0 _ _ _ _ L CapturedFrames eq_refl) as Hcap.
    cbn in Hres, Hfr, Hcap. destruct r1 as [e | []]; injection H as <- <-.
    + split; [exact Hcap | now rewrite Hres].
    + cbn. rewrite Hres. split; [reflexivity |]. split; [exact Hr |].
      intros h f Hin Hf. rewrite Hfr, Hr, firstn_all in Hf.
      apply (close_all_closed _ _ _ _ Hf). now left.
  - destruct (faceDetectionService env) as [service |] eqn:Hs;
      [| destruct Hidle as [-> _]; [now left | now intros]].
    destruct (capturedFramesForValidation w) as [| h0 hs] eqn:E;
      [destruct Hidle as [-> _]; [now right | now intros] |].
    rewrite (validateCapturedFrames_run env service w Hs) in H by now rewrite E.
    destruct (WebCodecsOrchestrator.validateLoop service 0 _ _) as [w1 r1] eqn:L.
    destruct (validateLoop_outcome _ _ _ _ _ _ L) as (rs & _ & Hfr & _). cbn in Hfr.
    assert (frames w' = frames w1) as -> by (destruct r1 as [e | []]; now injection H as <- <-).
    rewrite Hfr. intros h f Hf Ho. now apply (close_all_open _ _ _ _ Hf Ho).
Qed.

Lemma validateCapturedFrames_outcomes_witness :
  (snd (WebCodecsOrchestrator.validateCapturedFrames (scenario None (Some attentive)) stocked)
   = inr tt /\
   capturedFramesForValidation
     (fst (WebCodecsOrchestrator.validateCapturedFrames (scenario None (Some attentive)) stocked))
   = [] /\
   length (validationResults
             (fst (WebCodecsOrchestrator.validateCapturedFrames
                     (scenario None (Some attentive)) stocked))) = 2%nat /\
   is_closed
     (fst (WebCodecsOrchestrator.validateCapturedFrames (scenario None (Some attentive)) stocked))
     1) /\
  (snd (WebCodecsOrchestrator.validateCapturedFrames (scenario None (Some sluggish)) stocked)
   = inl (Error "OpenAI API request timed out after 30 seconds") /\
   capturedFramesForValidation
     (fst (WebCodecsOrchestrator.validateCapturedFrames (scenario None (Some sluggish)) stocked))
   = [0; 1]%nat /\
   (length (validationResults
              (fst (WebCodecsOrchestrator.validateCapturedFrames
                      (scenario None (Some sluggish)) stocked))) < 2)%nat) /\
  WebCodecsOrchestrator.validateCapturedFrames (scenario None (Some attentive)) initial
  = (initial, inr tt).
Proof.
  split; [| split].
  - assert (snd (WebCodecsOrchestrator.validateCapturedFrames
                   (scenario None (Some attentive)) stocked) = inr tt) as E
      by (vm_compute; reflexivity).
    destruct (validateCapturedFrames_outcomes (scenario None (Some attentive)) stocked
                (fst (WebCodecsOrchestrator.validateCapturedFrames
                        (scenario None (Some attentive)) stocked))
                (snd (WebCodecsOrchestrator.validateCapturedFrames
                        (scenario None (Some attentive)) stocked)))
      as (_ & H & _); [now destruct (WebCodecsOrchestrator.validateCapturedFrames _ _) |].
    specialize (H ltac:(vm_compute; eauto) ltac:(discriminate)). rewrite E in H.
    destruct H as (Hstored & Hlen & Hclosed).
    split; [exact E |]. split; [exact Hstored |]. split; [exact Hlen |].
    destruct (frames (fst (WebCodecsOrchestrator.validateCapturedFrames
                             (scenario None (Some attentive)) stocked)) !! 1%nat)
      as [f |] eqn:F; [| vm_compute in F; discriminate F].
    exists f. split; [exact F |]. apply (Hclosed 1%nat f); [right; left; reflexivity | exact F].
  - assert (snd (WebCodecsOrchestrator.validateCapturedFrames
                   (scenario None (Some sluggish)) stocked)
            = inl (Error "OpenAI API request timed out after 30 seconds")) as E
      by (vm_compute; reflexivity).
    destruct (validateCapturedFrames_outcomes (scenario None (Some sluggish)) stocked
                (fst (WebCodecsOrchestrator.validateCapturedFrames
                        (scenario None (Some sluggish)) stocked))
                (snd (WebCodecsOrchestrator.validateCapturedFrames
                        (scenario None (Some sluggish)) stocked)))
      as (_ & H & _); [now destruct (WebCodecsOrchestrator.validateCapturedFrames _ _) |].
    specialize (H ltac:(vm_compute; eauto) ltac:(discriminate)). rewrite E in H.
    destruct H as (Hstored & Hlen). split; [exact E |]. split; assumption.
  - destruct (validateCapturedFrames_outcomes (scenario None (Some attentive)) initial
                (fst (WebCodecsOrchestrator.validateCapturedFrames
                        (scenario None (Some attentive)) initial))
                (snd (WebCodecsOrchestrator.validateCapturedFrames
                        (scenario None (Some attentive)) initial)))
      as [H _]; [vm_compute; reflexivity |].
    destruct H as [H1 H2]; [right; reflexivity |].
    rewrite (surjective_pairing (WebCodecsOrchestrator.validateCapturedFrames _ _)).
    now rewrite H1, H2.
Defined.

(** ** Playback *)

(** The outputs of the decoder for its queue, as one update of the
    store. *)
Lemma outputs_eq (cs : list EncodedVideoChunk) (w : World) :
  fold_left (fun w c => VideoDecoderService.output c w) cs w
  = set_decoderService
      (mkDecoderService (decoder (decoderService w))
         (decodedFrames (decoderService w) ++ seq (length (frames w)) (length cs)))
      (set_frames
         (frames w ++ map (fun c => mkFrame (chunk_timestamp c) (chunk_payload c) false) cs)
         w).
Proof.
  revert w. induction cs as [| c cs IH]; intros w; cbn [fold_left].
  - cbn. rewrite !app_nil_r. now destruct w as [? ? ? ? [] ? ? ? ? ? ?].
  - rewrite IH. unfold VideoDecoderService.output, VideoFrame_new,
      VideoDecoderService.set_decodedFrames.
    destruct w as [fr tr ca en [d df] ov ms vr cf cd sl]. cbn.
    rewrite length_app, <- !app_assoc. cbn. now rewrite Nat.add_1_r.
Qed.

Lemma close_new_frames (a b : list VideoFrame) :
  fold_left (fun fs h => close_in h fs) (seq (length a) (length b)) (a ++ b)
  = a ++ map (fun f => mkFrame (frame_timestamp f) (frame_pixels f) true) b.
Proof.
  revert a. induction b as [| x b IH]; intros a; cbn; [reflexivity |].
  unfold close_in at 2. rewrite <- (Nat.add_0_r (length a)) at 2.
  rewrite alter_app_r. cbn.
  change (a ++ ?y :: b) with (a ++ [y] ++ b). rewrite app_assoc.
  replace (S (length a)) with (length (a ++ [mkFrame (frame_timestamp x) (frame_pixels x) true]))
    by (rewrite length_app; cbn; lia).
  rewrite IH, <- app_assoc. reflexivity.
Qed.

(** The loop of [decodeAndRender] over the chunks, when it completes:
    the chunks are queued in the codec, in order. *)
Lemma decode_all_inr (chunks : list IEncodedChunk) :
  forall w w' d,
  decoder (decoderService w) = Some d ->
  for_of chunks (fun chunk => VideoDecoderService.decode (data chunk)) w = (w', inr tt) ->
  exists d',
    w' = VideoDecoderService.set_decoder (Some d') w /\
    dec_state d' = dec_state d /\ dec_queue d' = dec_queue d ++ map data chunks.
Proof.
  induction chunks as [| c chunks IH]; intros w w' d Hd H.
  - injection H as <-. exists d. rewrite app_nil_r. repeat split.
    unfold VideoDecoderService.set_decoder. rewrite <- Hd.
    now destruct w as [? ? ? ? [] ? ? ? ? ? ?].
  - cbn [for_of] in H. apply bind_inr in H as (w1 & [] & H1 & H).
    unfold VideoDecoderService.decode in H1. rewrite Hd in H1.
    destruct (negb _); [discriminate H1 |].
    assert (w1 = VideoDecoderService.set_decoder
                   (Some (mkDecoder (dec_state d) (dec_queue d ++ [data c]) false)) w) as ->
      by (destruct (dec_keyRequired d), (chunk_type (data c)); congruence).
    edestruct IH as (d' & -> & Hst & Hq); [| exact H |]; [reflexivity |].
    cbn in Hst, Hq. exists d'. rewrite Hq, <- app_assoc. repeat split; assumption.
Qed.

(** The loop completes when the codec is configured and the first chunk
    is a key chunk where one is due. *)
Lemma decode_all_ok (chunks : list IEncodedChunk) :
  forall w d,
  decoder (decoderService w) = Some d -> dec_state d = configured ->
  (dec_keyRequired d = true ->
   match chunks with c :: _ => chunk_type (data c) = key | [] => True end) ->
  exists w', for_of chunks (fun chunk => VideoDecoderService.decode (data chunk)) w
             = (w', inr tt).
Proof.
  induction chunks as [| c chunks IH]; intros w d Hd Hst Hkey; [now exists w |].
  cbn [for_of].
  assert (VideoDecoderService.decode (data c) w
          = (VideoDecoderService.set_decoder
               (Some (mkDecoder (dec_state d) (dec_queue d ++ [data c]) false)) w, inr tt))
    as H1.
  { unfold VideoDecoderService.decode. rewrite Hd, Hst. cbn.
    destruct (dec_keyRequired d); [rewrite Hkey by reflexivity |]; now destruct (chunk_type _). }
  rewrite (bind_run _ _ _ _ _ H1).
  eapply IH; [reflexivity | exact Hst | discriminate].
Qed.

(** The loop of [renderFrames] over live frames: it draws their
    pictures in order, waits between two frames, and closes them. *)
Lemma renderLoop_run (fs : list nat) :
  forall (ps : list N) (w : World),
  NoDup fs ->
  Forall2 (fun h p => exists f, frames w !! h = Some f /\ frame_closed f = false /\
                                frame_pixels f = p) fs ps ->
  exists w',
    VideoDecoderService.renderLoop fs w = (w', inr tt) /\
    canvas_drawn w' = rev ps ++ canvas_drawn w /\
    total_slept w'
    = total_slept w + VideoDecoderService.FRAME_PLAYBACK_INTERVAL_MS * Z.of_nat (length fs - 1) /\
    frames w' = fold_left (fun fs h => close_in h fs) fs (frames w).
Proof.
  induction fs as [| frame rest IH]; intros ps w Hnd Hfs.
  - apply Forall2_nil_inv_l in Hfs as ->. exists w. cbn. repeat split. lia.
  - apply Forall2_cons_inv_l in Hfs as (p & ps' & (f & Hf & Ho & Hp) & Hrest & ->).
    apply NoDup_cons in Hnd as [Hnotin Hnd].
    cbn [VideoDecoderService.renderLoop].
    assert (VideoDecoderService.drawImage frame w
            = (set_canvas_drawn (p :: canvas_drawn w) w, inr tt)) as Hdraw
      by (unfold VideoDecoderService.drawImage; now rewrite Hf, Ho, Hp).
    rewrite (bind_run _ _ _ _ _ Hdraw).
    set (w1 := set_canvas_drawn (p :: canvas_drawn w) w).
    set (w2 := match rest with
               | [] => w1
               | _ :: _ => set_slept (VideoDecoderService.FRAME_PLAYBACK_INTERVAL_MS :: slept w1) w1
               end).
    assert ((match rest with
             | [] => ret tt
             | _ :: _ => sleep VideoDecoderService.FRAME_PLAYBACK_INTERVAL_MS
             end) w1 = (w2, inr tt)) as Hsleep by (subst w2; now destruct rest).
    rewrite (bind_run _ _ _ _ _ Hsleep). unfold exec at 1. unfold bind at 1.
    assert (frames w2 = frames w /\ canvas_drawn w2 = p :: canvas_drawn w /\
            total_slept w2
            = total_slept w + match rest with
                              | [] => 0
                              | _ :: _ => VideoDecoderService.FRAME_PLAYBACK_INTERVAL_MS
                              end)
      as (Hfr2 & Hcd2 & Hsl2).
    { subst w2 w1. unfold total_slept. destruct rest; cbn; repeat split; lia. }
    clearbody w2. clear w1 Hdraw Hsleep.
    destruct (IH ps' (VideoFrame_close frame w2) Hnd) as (w' & Hrun & Hcd & Hsl & Hfr).
    { apply Forall2_same_length_lookup_2; [eapply Forall2_length, Hrest |].
      intros k h q Hk Hq.
      destruct (Forall2_lookup_lr _ _ _ _ _ _ Hrest Hk Hq) as (g & Hg & Hgo & Hgp).
      exists g. cbn. rewrite Hfr2, close_in_lookup_ne; [auto |].
      intros ->. apply Hnotin. eapply list_elem_of_lookup_2, Hk. }
    exists w'. split; [exact Hrun |]. cbn in Hcd, Hfr.
    change (total_slept (VideoFrame_close frame w2)) with (total_slept w2) in Hsl.
    split; [rewrite Hcd, Hcd2; cbn; now rewrite <- app_assoc |].
    split; [| now rewrite Hfr, Hfr2].
    rewrite Hsl, Hsl2. unfold VideoDecoderService.FRAME_PLAYBACK_INTERVAL_MS.
    destruct rest; cbn [length]; lia.
Qed.

(** The flush of a configured decoder and the rendering that follows:
    the queue is decoded, drawn in order and closed. *)
Lemma playback_run (w : World) (d : VideoDecoder) :
  decoder (decoderService w) = Some d -> dec_state d = configured ->
  decodedFrames (decoderService w) = [] ->
  exists w',
    (VideoDecoderService.decoder_flush ;; VideoDecoderService.renderFrames true) w
    = (w', inr tt) /\
    canvas_drawn w' = rev (map chunk_payload (dec_queue d)) ++ canvas_drawn w /\
    total_slept w'
    = total_slept w
      + VideoDecoderService.FRAME_PLAYBACK_INTERVAL_MS * Z.of_nat (length (dec_queue d) - 1) /\
    frames w' = frames w ++ map played (dec_queue d) /\
    decoderService w' = mkDecoderService (Some (mkDecoder configured [] true)) [].
Proof.
  intros Hd Hst Hdf.
  set (new := fun c => mkFrame (chunk_timestamp c) (chunk_payload c) false).
  remember (dec_queue d) as q eqn:Q.
  remember (seq (length (frames w)) (length q)) as fs eqn:F.
  set (wf := set_decoderService
               (mkDecoderService (Some (mkDecoder configured [] true)) fs)
               (set_frames (frames w ++ map new q) w)).
  assert (VideoDecoderService.decoder_flush w = (wf, inr tt)) as Hflush.
  { unfold VideoDecoderService.decoder_flush. rewrite Hd, Hst. cbn [CodecState_eqb negb].
    rewrite outputs_eq, <- Q. cbn. now rewrite Hdf, <- F. }
  rewrite (bind_run _ _ _ _ _ Hflush).
  unfold VideoDecoderService.renderFrames. cbn [negb]. unfold bind at 1, gets.
  change (decodedFrames (decoderService wf)) with fs.
  destruct (renderLoop_run fs (map chunk_payload q) wf) as (w1 & Hrun & Hcd & Hsl & Hfr).
  { subst fs. apply NoDup_ListNoDup, List.seq_NoDup. }
  { subst fs. apply Forall2_same_length_lookup_2; [now rewrite length_seq, length_map |].
    intros i h p [-> Hi]%lookup_seq (c0 & -> & Hc0)%list_lookup_fmap_Some.
    exists (new c0). subst wf. cbn. split; [| split; reflexivity].
    rewrite lookup_app_r by lia.
    replace (length (frames w) + i - length (frames w))%nat with i by lia.
    now rewrite list_lookup_fmap, Hc0. }
  assert (frames w1 = frames w ++ map played q) as Hfr1.
  { rewrite Hfr, F. subst wf. cbn.
    rewrite <- (length_map new q), close_new_frames, map_map. reflexivity. }
  assert (length fs = length q) as Hlen by (rewrite F; apply length_seq).
  pose proof (renderLoop_modifies _ _ _ _ Hrun DecoderService eq_refl) as Hdec. cbn in Hdec.
  rewrite Hlen in Hsl. change (total_slept wf) with (total_slept w) in Hsl.
  change (canvas_drawn wf) with (canvas_drawn w) in Hcd.
  destruct fs as [| h fs'].
  - injection Hrun as <-. exists wf. split; [reflexivity |]. repeat split; assumption.
  - rewrite (bind_run _ _ _ _ _ Hrun). exists (VideoDecoderService.set_decodedFrames [] w1).
    split; [reflexivity |]. cbn. rewrite Hdec. repeat split; assumption.
Qed.

Lemma decoder_flush_run (w : World) (d : VideoDecoder) :
  decoder (decoderService w) = Some d -> dec_state d = configured ->
  VideoDecoderService.decoder_flush w
  = (set_decoderService
       (mkDecoderService (Some (mkDecoder configured [] true))
          (decodedFrames (decoderService w)
             ++ seq (length (frames w)) (length (dec_queue d))))
       (set_frames
          (frames w
             ++ map (fun c => mkFrame (chunk_timestamp c) (chunk_payload c) false) (dec_queue d))
          w), inr tt).
Proof.
  intros Hd Hst. unfold VideoDecoderService.decoder_flush. rewrite Hd, Hst.
  cbn [CodecState_eqb negb]. now rewrite outputs_eq.
Qed.

(** [decodeAndRender] of the decoder service on a decoder whose queue is
    empty and that holds no frame, when it returns. *)
Lemma VideoDecoderService_decodeAndRender_inr (chunks : list IEncodedChunk) (hasContext : bool)
  (w w' : World) (d : VideoDecoder) :
  decoder (decoderService w) = Some d -> dec_queue d = [] ->
  decodedFrames (decoderService w) = [] ->
  VideoDecoderService.decodeAndRender chunks hasContext w = (w', inr tt) ->
  canvas_drawn w' = rev (map (fun c => chunk_payload (data c)) chunks) ++ canvas_drawn w /\
  total_slept w'
  = total_slept w
    + VideoDecoderService.FRAME_PLAYBACK_INTERVAL_MS * Z.of_nat (length chunks - 1) /\
  frames w' = frames w ++ map (fun c => played (data c)) chunks /\
  decodedFrames (decoderService w') = [].
Proof.
  intros Hd Hq Hdf H. unfold VideoDecoderService.decodeAndRender in H. rewrite Hd in H.
  apply bind_inr in H as (wa & [] & Hdecode & H).
  destruct (decode_all_inr _ _ _ _ Hd Hdecode) as (d' & -> & Hst' & Hq').
  rewrite Hq in Hq'. cbn in Hq'.
  assert (hasContext = true) as ->.
  { destruct hasContext; [reflexivity |]. apply bind_inr in H as (wb & [] & _ & H).
    discriminate H. }
  assert (dec_state d' = configured) as Hconf.
  { apply bind_inr in H as (wb & [] & H & _). unfold VideoDecoderService.decoder_flush in H.
    cbn in H. destruct (dec_state d'); easy. }
  destruct (playback_run (VideoDecoderService.set_decoder (Some d') w) d' eq_refl Hconf Hdf)
    as (w'' & Hrun & Hcd & Hsl & Hfr & Hds).
  rewrite Hrun in H. injection H as <-.
  rewrite Hq', !map_map, length_map in *. rewrite Hds. repeat split; assumption.
Qed.



(** [decodeAndRender] of the orchestrator, when it returns: the chunks
    collected are played back. *)
Lemma decodeAndRender_inr (env : Env) (w w' : World) :
  WebCodecsOrchestrator.decodeAndRender env w = (w', inr tt) ->
  let chunks := VideoEncoderService.getEncodedChunks w in
  canvas_drawn w' = rev (map (fun c => chunk_payload (data c)) chunks) ++ canvas_drawn w /\
  total_slept w'
  = total_slept w
    + VideoDecoderService.FRAME_PLAYBACK_INTERVAL_MS * Z.of_nat (length chunks - 1) /\
  frames w' = frames w ++ map (fun c => played (data c)) chunks /\
  decodedFrames (decoderService w') = [].
Proof.
  intros H. cbv zeta. unfold WebCodecsOrchestrator.decodeAndRender in H.
  apply bind_inr in H as (wa & chunks & [= <- <-] & H).
  destruct (VideoEncoderService.getEncodedChunks w) as [| chunk chunks] eqn:E; [discriminate |].
  rewrite <- E in *. clear E chunk chunks.
  apply bind_inr in H as (wb & ms & [= <- <-] & H).
  destruct (mediaStream w) as [stream |]; [| discriminate].
  apply bind_inr in H as (wc & settings & Hset & H).
  assert (wc = w) as ->.
  { unfold WebCodecsOrchestrator.videoTrackSettings in Hset.
    repeat case_match; now simplify_eq. }
  apply bind_inr in H as (wd & [] & Hinit & H).
  unfold VideoDecoderService.initialize in Hinit.
  destruct (negb _); [discriminate |]. injection Hinit as <-.
  apply (VideoDecoderService_decodeAndRender_inr _ _ _ _ (mkDecoder configured [] true)) in H;
    [exact H | reflexivity ..].
Qed.

(** ** The pictures of a capture session *)

Lemma recorded_agree (w w' : World) :
  encoderService w' = encoderService w -> recorded w -> recorded w'.
Proof. unfold recorded. now intros ->. Qed.

Lemma codecOutput1_recorded (w : World) :
  recorded w -> recorded (VideoEncoderService.codecOutput1 w).
Proof.
  intros (Hl & e & He & Hinv). unfold VideoEncoderService.codecOutput1. rewrite He.
  destruct (enc_queue e) as [| [f k] q] eqn:Q;
    [split; [exact Hl |]; exists e; split; [exact He | now rewrite Q] |].
  assert (enc_state e = configured ->
          exists done, enc_calls e = done ++ (f, k) :: q /\
                       (length (enc_calls e) - length ((f, k) :: q))%nat = length done /\
                       map chunk_picture (encodedChunks (encoderService w))
                       = map (fun x => picture (fst x)) (survivors (enc_drops e) 0 done))
    as Hdone.
  { intros Hst. destruct (Hinv Hst) as (done & Hcalls & Hpic).
    exists done. split; [exact Hcalls |]. split; [| exact Hpic].
    rewrite Hcalls, length_app. lia. }
  destruct (enc_drops e _) eqn:D.
  - split; [exact Hl |]. eexists. split; [reflexivity |]. cbn. intros Hst.
    destruct (Hdone Hst) as (done & Hcalls & Hidx & Hpic). rewrite Hidx in D.
    exists (done ++ [(f, k)]). rewrite <- app_assoc. split; [exact Hcalls |].
    rewrite survivors_app. cbn. now rewrite D, app_nil_r.
  - split; [cbn; apply Forall_app; split; [exact Hl | now repeat constructor] |].
    eexists. split; [reflexivity |]. cbn. intros Hst.
    destruct (Hdone Hst) as (done & Hcalls & Hidx & Hpic). rewrite Hidx in D.
    exists (done ++ [(f, k)]). rewrite <- app_assoc. split; [exact Hcalls |].
    rewrite survivors_app, !map_app. cbn. now rewrite D, Hpic.
Qed.

Lemma codecOutput_recorded (m : nat) (w : World) :
  recorded w -> recorded (VideoEncoderService.codecOutput m w).
Proof.
  intros H. unfold VideoEncoderService.codecOutput.
  induction m as [| m IH]; cbn; [exact H | now apply codecOutput1_recorded].
Qed.

Lemma whileWaiting_recorded (env : Env) (i : nat) (w : World) :
  recorded w -> recorded (WebCodecsOrchestrator.whileWaiting env i w).
Proof.
  intros H. unfold WebCodecsOrchestrator.whileWaiting. cbv zeta.
  assert (recorded (VideoEncoderService.codecOutput (encoderOutputs env i)
                      (FrameCaptureService.deliver (cameraFeed env i) w))) as H'.
  { apply codecOutput_recorded. revert H. apply recorded_agree.
    apply (deliver_modifies _ w EncoderService eq_refl). }
  destruct (encoderError env) as [j |]; [destruct (Nat.eqb i j) |]; try exact H'.
  destruct H' as (Hl & e & He & _).
  unfold VideoEncoderService.codecError, VideoEncoderService.close. rewrite He.
  split; [exact Hl |]. eexists. split; [reflexivity |]. cbn. discriminate.
Qed.

Lemma encodeFrame_recorded (frame : nat) (keyFrame : bool) (w w' : World) :
  recorded w ->
  VideoEncoderService.encodeFrame frame keyFrame w = (w', inr tt) ->
  recorded w'.
Proof.
  intros (Hl & e & He & Hinv). unfold VideoEncoderService.encodeFrame. rewrite He.
  destruct (CodecState_eqb (enc_state e) configured) eqn:S; [| discriminate].
  assert (enc_state e = configured) as Hst by (destruct (enc_state e); easy).
  cbn [negb]. destruct (frames w !! frame) as [f |]; [| discriminate].
  destruct (frame_closed f); [discriminate |]. intros [= <-].
  split; [exact Hl |]. eexists. split; [reflexivity |]. cbn. intros _.
  destruct (Hinv Hst) as (done & Hcalls & Hpic).
  exists done. split; [now rewrite Hcalls, app_assoc | exact Hpic].
Qed.

Lemma captureStep_recorded (env : Env) (count : nat) (interval delay : Z) (i : nat)
  (w w' : World) :
  recorded w ->
  WebCodecsOrchestrator.captureStep env count interval delay i w = (w', inr tt) ->
  recorded w'.
Proof.
  intros Hn (w4 & frame & w5 & w6 & H4 & H5 & H6 & ->)%captureStep_inr.
  assert (recorded w6) as H.
  { apply (encodeFrame_recorded frame (Nat.eqb i 0) w5 w6); [| exact H6].
    apply (recorded_agree w4);
      [exact (respects_agree _ EncoderService _ _ _ _
                (storeForValidation_modifies env _ _) eq_refl H5) |].
    eapply recorded_agree;
      [exact (respects_agree _ EncoderService _ _ _ _ captureFrame_modifies eq_refl H4) |].
    apply whileWaiting_recorded. revert Hn. apply recorded_agree.
    cbn. apply (setColor_modifies _ w EncoderService eq_refl). }
  destruct (Nat.ltb i (count - 1)); [revert H; apply recorded_agree |]; easy.
Qed.

(** A capture session that completes: 20 frames were submitted, the
    codec is done with all of them, the chunks carry the pictures of
    those it did not drop, in order, and the first chunk, if any, is a
    key chunk. *)
Lemma capture_session_recorded (env : Env) (w w1 w2 : World) :
  WebCodecsOrchestrator.initializeEncoder env w = (w1, inr tt) ->
  WebCodecsOrchestrator.captureAndEncodeFrames env w1 = (w2, inr tt) ->
  length (submitted w2) = 20%nat /\
  map chunk_picture (VideoEncoderService.getEncodedChunks w2)
  = map (fun x => picture (fst x)) (survivors (encoderDrops env) 0 (submitted w2)) /\
  match VideoEncoderService.getEncodedChunks w2 with
  | c :: _ => chunk_type (data c) = key
  | [] => True
  end.
Proof.
  intros Hinit Hcap.
  destruct (capture_session_submissions env w w1 w2 Hinit Hcap)
    as (e & He & Hst & Hq & Hd & Hflags & _ & Hkey).
  assert (recorded w2) as (Hl & e' & He' & Hrec).
  { unfold WebCodecsOrchestrator.captureAndEncodeFrames in Hcap.
    apply bind_inr in Hcap as (wa & [] & [= <-] & Hcap).
    apply bind_inr in Hcap as (wb & [] & [= <-] & Hcap).
    apply bind_inr in Hcap as (wc & [] & Hloop & Hcap).
    apply bind_inr in Hcap as (wd & [] & [= <-] & Hflush).
    pose proof (initializeEncoder_fresh _ _ _ Hinit) as Hfresh.
    assert (recorded wc) as Hr.
    { pose proof (for_of_invariant (fun _ s => recorded s)
                    (seq 0 WebCodecsOrchestrator.FRAME_COUNT)
                    (WebCodecsOrchestrator.captureStep env WebCodecsOrchestrator.FRAME_COUNT
                       WebCodecsOrchestrator.FRAME_INTERVAL_MS
                       WebCodecsOrchestrator.FLASH_DISPLAY_DELAY_MS)) as Hfor.
      eapply Hfor; [| | exact Hloop]; clear Hfor.
      - intros i x s s' _ Hr Hstep. now apply (captureStep_recorded env _ _ _ _ _ _ Hr Hstep).
      - assert (encoderService
                  (set_capturedFramesForValidation [] (ScreenFlashController.show w1))
                = mkEncoderService
                    (Some (mkEncoder configured [] [] false (encoderDrops env))) []) as E
          by (cbn; now rewrite (show_modifies w1 EncoderService eq_refl : _ = _)).
        split; [rewrite E; constructor |]. eexists. rewrite E. split; [reflexivity |].
        intros _. exists []. split; reflexivity. }
    apply (recorded_agree wc (ScreenFlashController.hide wc)
             (hide_modifies wc EncoderService eq_refl)) in Hr.
    unfold VideoEncoderService.flush in Hflush.
    destruct (encoder (encoderService (ScreenFlashController.hide wc))) as [e0 |];
      [| discriminate Hflush].
    destruct (negb _) in Hflush; [discriminate Hflush |]. injection Hflush as <-.
    now apply codecOutput_recorded. }
  rewrite He in He'. injection He' as <-.
  destruct (Hrec Hst) as (done & Hdone & Hpic). rewrite Hq, app_nil_r in Hdone. subst done.
  unfold submitted. rewrite He. cbn. rewrite <- Hd.
  split; [| split; [exact Hpic |]].
  - rewrite <- (length_map snd), Hflags, length_map, length_seq. reflexivity.
  - unfold VideoEncoderService.getEncodedChunks in *.
    destruct (encodedChunks (encoderService w2)) as [| c rest]; [exact I |].
    apply Forall_cons in Hl as [-> _]. exact Hkey.
Qed.

(** X9. When a run gets as far as the end of the playback, 20 frames were
    submitted to the encoder and the canvas has shown the pictures of
    those of them that the codec did not drop, one for each, in the order
    of capture: 20 pictures when the codec drops no frame. The codec is
    taken to keep the picture of a frame in its chunk. *)
Theorem playback_shows_the_captured_frames (env : Env) (w w3 : World) :
  for_of [AcquiringSource; InitializingEncoder; Capturing; Decoding] (phase env) w
  = (w3, inr tt) ->
  length (submitted w3) = 20%nat /\
  canvas_drawn w3
  = rev (map (fun x => frame_pixels (fst x))
           (survivors (encoderDrops env) 0 (submitted w3))) ++ canvas_drawn w /\
  ((forall i, (i < 20)%nat -> encoderDrops env i = false) ->
   canvas_drawn w3
   = rev (map (fun x => frame_pixels (fst x)) (submitted w3)) ++ canvas_drawn w /\
   length (canvas_drawn w3) = (length (canvas_drawn w) + 20)%nat).
Proof.
  intros H. cbn [for_of phase] in H.
  apply bind_inr in H as (wa & [] & Hcam & H).
  apply bind_inr in H as (wb & [] & Henc & H).
  apply bind_inr in H as (wc & [] & Hcap & H).
  apply bind_inr in H as (wd & [] & Hdec & [= <-]).
  destruct (capture_session_recorded env wa wb wc Henc Hcap) as (Hlen & Hpic & _).
  destruct (decodeAndRender_inr env wc wd Hdec) as (Hcd & _). cbv zeta in Hcd.
  assert (submitted wd = submitted wc) as Hsub.
  { unfold submitted.
    now rewrite (respects_agree _ EncoderService _ _ _ _ (decodeAndRender_modifies env)
                   eq_refl Hdec : _ = _). }
  assert (canvas_drawn wc = canvas_drawn w) as Hcanvas.
  { rewrite (respects_agree _ Canvas _ _ _ _ (captureAndEncodeFrames_modifies env)
               eq_refl Hcap : _ = _).
    rewrite (respects_agree _ Canvas _ _ _ _ (initializeEncoder_modifies env)
               eq_refl Henc : _ = _).
    exact (respects_agree _ Canvas _ _ _ _ (initializeCamera_modifies env) eq_refl Hcam). }
  rewrite Hsub.
  assert (canvas_drawn wd
          = rev (map (fun x => frame_pixels (fst x))
                   (survivors (encoderDrops env) 0 (submitted wc))) ++ canvas_drawn w)
    as Hdrawn.
  { rewrite Hcd, Hcanvas. f_equal. f_equal.
    apply (f_equal (map snd)) in Hpic. rewrite !map_map in Hpic. exact Hpic. }
  split; [exact Hlen |]. split; [exact Hdrawn |].
  intros Hnone.
  assert (survivors (encoderDrops env) 0 (submitted wc) = submitted wc) as Hall
    by (apply survivors_all; intros j Hj; apply Hnone; lia).
  rewrite Hall in Hdrawn. split; [exact Hdrawn |].
  rewrite Hdrawn, length_app, length_rev, length_map, Hlen. lia.
Qed.

Lemma playback_shows_the_captured_frames_witness :
  length (canvas_drawn
            (fst (for_of [AcquiringSource; InitializingEncoder; Capturing; Decoding]
                    (phase (scenario None None)) initial)))
  = (length (canvas_drawn initial) + 20)%nat.
Proof.
  destruct (playback_shows_the_captured_frames (scenario None None) initial
              (fst (for_of [AcquiringSource; InitializingEncoder; Capturing; Decoding]
                      (phase (scenario None None)) initial)))
    as (_ & _ & H); [vm_compute; reflexivity |].
  apply H. reflexivity.
Defined.

(** ** The end of a run *)

Lemma workflow_stages (env : Env) (w : World) :
  WebCodecsOrchestrator.workflow env w
  = (stages env ;; exec WebCodecsOrchestrator.cleanup) w.
Proof.
  unfold WebCodecsOrchestrator.workflow, stages, bind.
  destruct (WebCodecsOrchestrator.initializeCamera env w) as [wa [e | []]]; [reflexivity |].
  destruct (WebCodecsOrchestrator.initializeEncoder env wa) as [wb [e | []]]; [reflexivity |].
  destruct (WebCodecsOrchestrator.captureAndEncodeFrames env wb) as [wc [e | []]];
    [reflexivity |].
  destruct (WebCodecsOrchestrator.decodeAndRender env wc) as [wd [e | []]]; [reflexivity |].
  now destruct ((if bool_decide (is_Some (faceDetectionService env))
                 then WebCodecsOrchestrator.validateCapturedFrames env
                 else ret tt) wd) as [we [e | []]].
Qed.

Lemma execute_stages (env : Env) (w : World) :
  WebCodecsOrchestrator.execute env w
  = (WebCodecsOrchestrator.cleanup (fst (stages env w)), snd (stages env w)).
Proof.
  unfold WebCodecsOrchestrator.execute, try_catch. rewrite workflow_stages. unfold bind.
  now destruct (stages env w) as [w1 [e | []]].
Qed.

Lemma stages_attached (env : Env) : respects (same attached) (stages env).
Proof.
  unfold stages.
  apply (respects_bind (same attached)); [apply (phase_attached env AcquiringSource) | intros _].
  apply (respects_bind (same attached)); [apply (phase_attached env InitializingEncoder) | intros _].
  apply (respects_bind (same attached)); [apply (phase_attached env Capturing) | intros _].
  apply (respects_bind (same attached)); [apply (phase_attached env Decoding) | intros _].
  destruct (bool_decide _); [| apply (respects_ret (same attached))].
  eapply respects_modifies_attached; [apply validateCapturedFrames_modifies | reflexivity].
Qed.

(** X10. However a run goes, [execute] ends with the cleanup: it
    returns, or throws, what the steps before the cleanup came to, the
    validation included, from the store these steps left cleaned up; in
    that store the four services are disposed, the frames held are closed
    and the tracks of the media stream are stopped. *)
Theorem execute_always_cleans_up (env : Env) (w : World) :
  attached w <> Some false ->
  let w1 := fst (stages env w) in
  WebCodecsOrchestrator.execute env w
  = (WebCodecsOrchestrator.cleanup w1, snd (stages env w)) /\
  released w1 (WebCodecsOrchestrator.cleanup w1).
Proof.
  intros Hov w1. split; [apply execute_stages |].
  apply cleanup_releases. subst w1.
  destruct (stages env w) as [w1 r] eqn:E. cbn.
  now rewrite (stages_attached env _ _ _ E : _ = _).
Qed.

Lemma execute_always_cleans_up_witness :
  released (fst (stages (scenario None (Some sluggish)) initial))
    (WebCodecsOrchestrator.cleanup (fst (stages (scenario None (Some sluggish)) initial))).
Proof.
  destruct (execute_always_cleans_up (scenario None (Some sluggish)) initial) as [_ H].
  - vm_compute. discriminate.
  - exact H.
Defined.

(** ** No frame is left live *)

#[local] Instance preserves_refl (P : World -> Prop) : Reflexive (preserves P).
Proof. intros w H. exact H. Qed.

#[local] Instance preserves_trans (P : World -> Prop) : Transitive (preserves P).
Proof. intros a b c Hab Hbc H. apply Hbc, Hab, H. Qed.

Lemma settled_agree (w w' : World) :
  frames w' = frames w -> currentFrame (capture w') = currentFrame (capture w) ->
  preserves settled w w'.
Proof. unfold preserves, settled, is_open. intros -> ->. auto. Qed.

Lemma accounted_agree (w w' : World) :
  frames w' = frames w -> currentFrame (capture w') = currentFrame (capture w) ->
  capturedFramesForValidation w' = capturedFramesForValidation w ->
  preserves accounted w w'.
Proof. unfold preserves, accounted, is_open. intros -> -> ->. auto. Qed.

Lemma deliver_settled (values : list (Z * N)) (w : World) :
  preserves settled w (FrameCaptureService.deliver values w).
Proof.
  intros Hs h Ho. destruct (deliver_open values w h Ho) as [Hc | [Ho' Hn]]; [exact Hc |].
  now apply Hs in Ho'.
Qed.

Lemma deliver_accounted (values : list (Z * N)) (w : World) :
  preserves accounted w (FrameCaptureService.deliver values w).
Proof.
  intros Ha h Ho. destruct (deliver_open values w h Ho) as [Hc | [Ho' Hn]]; [now left |].
  right. rewrite (deliver_modifies values w CapturedFrames eq_refl : _ = _).
  destruct (Ha h Ho'); [contradiction | assumption].
Qed.

Lemma whileWaiting_accounted (env : Env) (i : nat) (w : World) :
  preserves accounted w (WebCodecsOrchestrator.whileWaiting env i w).
Proof.
  unfold WebCodecsOrchestrator.whileWaiting. cbv zeta.
  set (w1 := FrameCaptureService.deliver (cameraFeed env i) w).
  set (w2 := VideoEncoderService.codecOutput (encoderOutputs env i) w1).
  assert (preserves accounted w w2) as H2.
  { transitivity w1; [apply deliver_accounted |]. subst w2. apply accounted_agree.
    - apply (codecOutput_modifies _ w1 Frames eq_refl).
    - now rewrite (codecOutput_modifies _ w1 Capture eq_refl : _ = _).
    - apply (codecOutput_modifies _ w1 CapturedFrames eq_refl). }
  destruct (encoderError env) as [j |]; [destruct (Nat.eqb i j) |]; try exact H2.
  transitivity w2; [exact H2 |]. apply accounted_agree.
  - apply (codecError_modifies w2 Frames eq_refl).
  - now rewrite (codecError_modifies w2 Capture eq_refl : _ = _).
  - apply (codecError_modifies w2 CapturedFrames eq_refl).
Qed.

Lemma initializeCamera_settled (env : Env) :
  respects (preserves settled) (WebCodecsOrchestrator.initializeCamera env).
Proof.
  unfold WebCodecsOrchestrator.initializeCamera.
  apply (respects_bind (preserves settled)); [apply (respects_settle (preserves settled)) |].
  intros device.
  apply (respects_bind (preserves settled)); [apply (respects_settle (preserves settled)) |].
  intros ts. apply (respects_bind (preserves settled)).
  { intros w w' r [= <- _]. now apply settled_agree. }
  intros stream. unfold FrameCaptureService.initialize.
  apply (respects_bind (preserves settled)); [apply (respects_gets (preserves settled)) |].
  intros [| t rest]; [apply (respects_throw (preserves settled)) |].
  apply (respects_bind (preserves settled)).
  { apply (respects_exec (preserves settled)). intros w. now apply settled_agree. }
  intros _ w w' r H. unfold FrameCaptureService.waitForFirstFrame in H.
  assert (w' = match currentFrame (capture w) with
               | Some _ => w
               | None => FrameCaptureService.deliver (firstFrames env) w
               end) as ->
    by (destruct (currentFrame (capture _)) in H; congruence).
  destruct (currentFrame (capture w)); [reflexivity | apply deliver_settled].
Qed.

Lemma storeForValidation_frames (env : Env) (i frame : nat) (w w' : World) :
  WebCodecsOrchestrator.storeForValidation env i frame w = (w', inr tt) ->
  capture w' = capture w /\
  (w' = w
   \/ exists f, frames w' = frames w ++ [f] /\
                capturedFramesForValidation w'
                = capturedFramesForValidation w ++ [length (frames w)]).
Proof.
  unfold WebCodecsOrchestrator.storeForValidation.
  destruct (_ && _); [| intros [= <-]; auto].
  intros (w1 & h & Hclone & [= <-])%bind_inr.
  apply VideoFrame_clone_inr in Hclone as (f & Hf & Ho & -> & ->). cbn. eauto.
Qed.

(** A turn of the capture loop that completes leaves no frame live but
    the one held and those stored: the copy it made for the encoder is
    closed. *)
Lemma captureStep_accounted (env : Env) (count : nat) (interval delay : Z) (i : nat)
  (w w' : World) :
  accounted w ->
  WebCodecsOrchestrator.captureStep env count interval delay i w = (w', inr tt) ->
  accounted w'.
Proof.
  intros Hn (w4 & frame & w5 & w6 & H4 & H5 & H6 & ->)%captureStep_inr.
  cbv zeta in H4.
  set (w3 := WebCodecsOrchestrator.whileWaiting env i _) in H4.
  assert (accounted w3) as H3.
  { apply whileWaiting_accounted. revert Hn. apply accounted_agree; cbn.
    - apply (setColor_modifies _ w Frames eq_refl).
    - now rewrite (setColor_modifies _ w Capture eq_refl : _ = _).
    - apply (setColor_modifies _ w CapturedFrames eq_refl). }
  clearbody w3.
  apply captureFrame_inr in H4 as (c & f & Hc & Hf & Ho & -> & Hfr4 & Hc4 & _ & Hcap4).
  apply storeForValidation_frames in H5 as [Hcapt5 H5].
  apply encodeFrame_inr in H6 as (f' & _ & _ & _ & Hfr6 & Hcap6 & Hcapt6).
  assert (accounted w6) as H6s.
  { intros h (g & Hg & Hgo). rewrite Hfr6 in Hg.
    destruct (close_in_open _ _ _ _ Hg Hgo) as [Hne Hg5].
    rewrite Hcapt6, Hcapt5, Hc4, Hcap6.
    assert ((h < length (frames w3))%nat ->
            Some c = Some h \/ In h (capturedFramesForValidation w3)) as Hold.
    { intros Hlt. rewrite <- Hc. apply H3. exists g. split; [| exact Hgo].
      destruct H5 as [-> | (f5 & Hfr5 & _)];
        [| rewrite Hfr5 in Hg5; rewrite lookup_app_l in Hg5
             by (rewrite Hfr4, length_app; cbn; lia)];
        rewrite Hfr4 in Hg5; now rewrite lookup_app_l in Hg5. }
    assert (h < length (frames w5))%nat as Hlt5 by (eapply lookup_lt_Some, Hg5).
    destruct H5 as [-> | (f5 & Hfr5 & Hcap5)].
    - rewrite Hcap4. apply Hold. rewrite Hfr4, length_app in Hlt5. cbn in Hlt5. lia.
    - rewrite Hcap5, Hcap4. rewrite Hfr5, Hfr4, !length_app in Hlt5. cbn in Hlt5.
      destruct (decide (h < length (frames w3))%nat) as [Hlt | Hge].
      + destruct (Hold Hlt); [now left | right; apply in_or_app; now left].
      + right. apply in_or_app. right. left. rewrite Hfr4, length_app. cbn. lia. }
  destruct (Nat.ltb i (count - 1)); [| exact H6s].
  revert H6s. now apply accounted_agree.
Qed.

Lemma captureAndEncodeFrames_accounted (env : Env) (w w' : World) :
  settled w ->
  WebCodecsOrchestrator.captureAndEncodeFrames env w = (w', inr tt) ->
  accounted w'.
Proof.
  intros Hs Hcap. unfold WebCodecsOrchestrator.captureAndEncodeFrames in Hcap.
  apply bind_inr in Hcap as (wa & [] & [= <-] & Hcap).
  apply bind_inr in Hcap as (wb & [] & [= <-] & Hcap).
  apply bind_inr in Hcap as (wc & [] & Hloop & Hcap).
  apply bind_inr in Hcap as (wd & [] & [= <-] & Hflush).
  assert (accounted wc) as Hc.
  { pose proof (for_of_invariant (fun _ s => accounted s)
                  (seq 0 WebCodecsOrchestrator.FRAME_COUNT)
                  (WebCodecsOrchestrator.captureStep env WebCodecsOrchestrator.FRAME_COUNT
                     WebCodecsOrchestrator.FRAME_INTERVAL_MS
                     WebCodecsOrchestrator.FLASH_DISPLAY_DELAY_MS)) as Hfor.
    eapply Hfor; [| | exact Hloop]; clear Hfor.
    - intros i x s s' [-> _]%lookup_seq. apply captureStep_accounted.
    - intros h Ho. left. cbn.
      rewrite (show_modifies w Capture eq_refl : _ = _). apply Hs.
      destruct Ho as (f & Hf & Ho). exists f. cbn in Hf.
      now rewrite (show_modifies w Frames eq_refl : _ = _) in Hf. }
  revert Hc. change (preserves accounted wc w').
  transitivity (ScreenFlashController.hide wc).
  - apply accounted_agree.
    + apply (hide_modifies wc Frames eq_refl).
    + now rewrite (hide_modifies wc Capture eq_refl : _ = _).
    + apply (hide_modifies wc CapturedFrames eq_refl).
  - apply accounted_agree.
    + exact (respects_agree _ Frames _ _ _ _ flush_modifies eq_refl Hflush).
    + now rewrite (respects_agree _ Capture _ _ _ _ flush_modifies eq_refl Hflush : _ = _).
    + exact (respects_agree _ CapturedFrames _ _ _ _ flush_modifies eq_refl Hflush).
Qed.

Lemma decodeAndRender_accounted (env : Env) (w w' : World) :
  accounted w ->
  WebCodecsOrchestrator.decodeAndRender env w = (w', inr tt) ->
  accounted w' /\ decodedFrames (decoderService w') = [].
Proof.
  intros Ha H. destruct (decodeAndRender_inr env w w' H) as (_ & _ & Hfr & Hdf).
  split; [| exact Hdf]. intros h (f & Hf & Ho).
  rewrite (respects_agree _ Capture _ _ _ _ (decodeAndRender_modifies env) eq_refl H : _ = _).
  rewrite (respects_agree _ CapturedFrames _ _ _ _ (decodeAndRender_modifies env) eq_refl H
             : _ = _).
  apply Ha. exists f. split; [| exact Ho]. rewrite Hfr in Hf.
  apply lookup_app_Some in Hf as [Hf | [_ Hf]]; [exact Hf |].
  apply list_lookup_fmap_Some in Hf as (c & -> & _). discriminate Ho.
Qed.

Lemma validateCapturedFrames_accounted (env : Env) (w w' : World) :
  accounted w ->
  WebCodecsOrchestrator.validateCapturedFrames env w = (w', inr tt) ->
  accounted w'.
Proof.
  intros Ha H.
  destruct (faceDetectionService env) as [service |] eqn:Hs.
  - destruct (capturedFramesForValidation w) as [| h0 hs] eqn:E.
    + unfold WebCodecsOrchestrator.validateCapturedFrames, bind, gets in H.
      rewrite Hs, E in H. now injection H as <-.
    + rewrite (validateCapturedFrames_run env service w Hs) in H by now rewrite E.
      destruct (WebCodecsOrchestrator.validateLoop service 0 _ _) as [w1 r1] eqn:L.
      destruct (validateLoop_outcome _ _ _ _ _ _ L) as (rs & _ & Hfr & Hr).
      pose proof (validateLoop_modifies service 0 _ _ _ _ L Capture eq_refl) as Hcapt.
      destruct r1 as [e | []]; [discriminate H |]. injection H as <-.
      cbn in Hfr, Hcapt. rewrite Hr, firstn_all in Hfr.
      intros h (f & Hf & Ho). cbn in Hf. rewrite Hfr in Hf. cbn. rewrite Hcapt.
      destruct (close_all_open _ _ _ _ Hf Ho) as [Hf0 Hnotin].
      destruct (Ha h) as [Hc | Hin]; [exists f; auto | now left | contradiction].
  - unfold WebCodecsOrchestrator.validateCapturedFrames, bind, gets in H.
    rewrite Hs in H. now injection H as <-.
Qed.

(** The cleanup closes the frame held, the decoded frames and the stored
    frames; no other frame was live. *)
Lemma cleanup_closes_all (w : World) (h : nat) (f : VideoFrame) :
  accounted w ->
  frames (WebCodecsOrchestrator.cleanup w) !! h = Some f -> frame_closed f = true.
Proof.
  intros Ha Hf. rewrite cleanup_eq in Hf. cbn in Hf.
  apply (close_all_closed _ _ _ _ Hf).
  assert (h < length (frames w))%nat as Hlt.
  { apply lookup_lt_Some in Hf. rewrite close_all_length in Hf.
    destruct (currentFrame (capture w)); cbn in Hf; now rewrite ?close_in_length in Hf. }
  destruct (lookup_lt_is_Some_2 _ _ Hlt) as [f0 Hf0].
  destruct (frame_closed f0) eqn:C.
  - right. destruct (currentFrame (capture w)) as [c |]; cbn; [| eauto].
    destruct (decide (c = h)) as [-> | Hne].
    + rewrite close_in_lookup_eq, Hf0. cbn. eauto.
    + rewrite close_in_lookup_ne by exact Hne. eauto.
  - destruct (Ha h) as [Hc | Hin]; [exists f0; auto | | left; apply in_or_app; now right].
    right. rewrite Hc. cbn. rewrite close_in_lookup_eq, Hf0. cbn. eauto.
Qed.

(** X11. A run that completes leaves no frame live: when, at the start,
    no frame is live but the one that the capture service may hold, then
    once [execute] has returned every frame of the store is closed, the
    frames of the camera, the copies made for the encoder and for the
    validation, and the decoded frames alike. *)
Theorem completed_run_leaves_no_frame_live (env : Env) (w w' : World) :
  settled w ->
  WebCodecsOrchestrator.execute env w = (w', inr tt) ->
  forall h f, frames w' !! h = Some f -> frame_closed f = true.
Proof.
  intros Hs Hrun. rewrite execute_stages in Hrun.
  destruct (stages env w) as [w1 r] eqn:E. cbn in Hrun. injection Hrun as <- ->.
  unfold stages in E.
  apply bind_inr in E as (wa & [] & Hcam & E).
  apply bind_inr in E as (wb & [] & Henc & E).
  apply bind_inr in E as (wc & [] & Hcap & E).
  apply bind_inr in E as (wd & [] & Hdec & Hval).
  assert (settled wb) as Hsb.
  { apply (initializeCamera_settled env _ _ _ Hcam) in Hs. revert Hs. apply settled_agree.
    - exact (respects_agree _ Frames _ _ _ _ (initializeEncoder_modifies env) eq_refl Henc).
    - now rewrite (respects_agree _ Capture _ _ _ _ (initializeEncoder_modifies env)
                     eq_refl Henc : _ = _). }
  pose proof (captureAndEncodeFrames_accounted env wb wc Hsb Hcap) as Hc.
  destruct (decodeAndRender_accounted env wc wd Hc Hdec) as [Hd _].
  assert (accounted w1) as H1.
  { destruct (bool_decide _); [now apply (validateCapturedFrames_accounted env wd) |].
    now injection Hval as <-. }
  intros h f. now apply cleanup_closes_all.
Qed.

Lemma completed_run_leaves_no_frame_live_witness :
  Forall (fun f => frame_closed f = true)
    (frames (fst (WebCodecsOrchestrator.execute (scenario None (Some attentive)) initial))).
Proof.
  apply Forall_lookup_2.
  apply (completed_run_leaves_no_frame_live (scenario None (Some attentive)) initial).
  - intros h (f & Hf & _). vm_compute in Hf. discriminate Hf.
  - vm_compute. reflexivity.
Defined.

(** ** The choice of a camera *)

Lemma filter_nil_Forall {A} (P : A -> bool) (l : list A) :
  List.filter P l = [] -> Forall (fun d => P d = false) l.
Proof.
  induction l as [| x l IH]; cbn; [constructor |].
  destruct (P x) eqn:E; [discriminate |]. intros H. constructor; auto.
Qed.

(** The place in a list of an element of its filtered list. *)
Lemma filter_split_inv {A} (P : A -> bool) (l m1 m2 : list A) (b : A) :
  List.filter P l = m1 ++ b :: m2 ->
  exists l1 l2, l = l1 ++ b :: l2 /\ List.filter P l1 = m1 /\ List.filter P l2 = m2 /\
                P b = true.
Proof.
  revert m1. induction l as [| x l IH]; intros m1 H; cbn in H.
  - now destruct m1.
  - destruct (P x) eqn:E.
    + destruct m1 as [| y m1]; cbn in H; injection H as -> H.
      * exists [], l. cbn. auto.
      * destruct (IH _ H) as (l1 & l2 & -> & H1 & H2 & Hb).
        exists (y :: l1), l2. cbn. rewrite E, H1. auto.
    + destruct (IH _ H) as (l1 & l2 & -> & H1 & H2 & Hb).
      exists (x :: l1), l2. cbn. rewrite E. auto.
Qed.

Lemma filter_Forall_false {A} (P Q : A -> bool) (l : list A) :
  Forall (fun d => Q d = false) (List.filter P l) ->
  Forall (fun d => P d = false \/ Q d = false) l.
Proof.
  induction l as [| x l IH]; cbn; [constructor |].
  destruct (P x) eqn:E; intros H.
  - apply Forall_cons in H as [Hx H]. constructor; auto.
  - constructor; auto.
Qed.

(** The camera that the manager with the permission picks: the devices
    before it in the list are worse, being virtual when it is not, or not
    front-facing when it is. *)
Lemma PermissionVideoDeviceManager_best_spec (devices : list IVideoDeviceCapability) :
  devices <> [] ->
  exists b l1 l2,
    PermissionVideoDeviceManager.best devices = inr b /\
    devices = l1 ++ b :: l2 /\
    Forall (fun d =>
              PermissionVideoDeviceManager.isVirtual d = true
                /\ PermissionVideoDeviceManager.isVirtual b = false
              \/ PermissionVideoDeviceManager.isFrontFacing d = false
                 /\ PermissionVideoDeviceManager.isFrontFacing b = true) l1 /\
    (Forall (fun d => PermissionVideoDeviceManager.isVirtual d = true) devices
     \/ PermissionVideoDeviceManager.isVirtual b = false) /\
    (Forall (fun d => PermissionVideoDeviceManager.isFrontFacing d = false
                      \/ PermissionVideoDeviceManager.isVirtual d = true
                         /\ PermissionVideoDeviceManager.isVirtual b = false) devices
     \/ PermissionVideoDeviceManager.isFrontFacing b = true).
Proof.
  intros Hne. unfold PermissionVideoDeviceManager.best.
  destruct devices as [| d0 ds] eqn:D; [contradiction |]. rewrite <- D in *. clear D d0 ds.
  set (real := fun device => negb (PermissionVideoDeviceManager.isVirtual device)).
  assert (forall d, real d = false -> PermissionVideoDeviceManager.isVirtual d = true) as Hreal
    by (intros d; unfold real; now destruct (PermissionVideoDeviceManager.isVirtual d)).
  assert (forall d, real d = true -> PermissionVideoDeviceManager.isVirtual d = false) as Hreal'
    by (intros d; unfold real; now destruct (PermissionVideoDeviceManager.isVirtual d)).
  cbv zeta. destruct (List.filter real devices) as [| r0 rs] eqn:R.
  - (* every camera is virtual *)
    cbv beta iota. pose proof (filter_nil_Forall _ _ R) as Hall.
    assert (Forall (fun d => PermissionVideoDeviceManager.isVirtual d = true) devices) as Hvirt
      by (eapply Forall_impl; [exact Hall | exact Hreal]).
    destruct (List.filter PermissionVideoDeviceManager.isFrontFacing devices) as [| f0 fs] eqn:F.
    + destruct devices as [| b l2]; [contradiction |]. exists b, [], l2. cbn.
      repeat split; [constructor | now left | left].
      eapply Forall_impl; [exact (filter_nil_Forall _ _ F) | cbn; auto].
    + destruct (filter_split_inv _ devices [] fs f0 F) as (l1 & l2 & -> & H1 & _ & Hb).
      exists f0, l1, l2. cbn. repeat split; [| now left | now right].
      eapply Forall_impl; [exact (filter_nil_Forall _ _ H1) | cbn; auto].
  - (* there is a real camera *)
    cbv beta iota.
    destruct (List.filter PermissionVideoDeviceManager.isFrontFacing (r0 :: rs))
      as [| f0 fs] eqn:F; rewrite <- R in F; cbn [head].
    + destruct (filter_split_inv _ devices [] rs r0 R) as (l1 & l2 & -> & H1 & _ & Hb).
      exists r0, l1, l2. repeat split; [| right; now apply Hreal' | left].
      * eapply Forall_impl; [exact (filter_nil_Forall _ _ H1) |]. cbn. intros d Hd.
        left. split; [now apply Hreal | now apply Hreal'].
      * apply filter_nil_Forall, filter_Forall_false in F.
        eapply Forall_impl; [exact F |]. cbn. intros d [Hd | Hd]; [right | now left].
        split; [now apply Hreal | now apply Hreal'].
    + destruct (filter_split_inv _ _ [] fs f0 F) as (m1 & m2 & Hm & H1 & _ & Hfront).
      destruct (filter_split_inv _ devices m1 m2 f0 Hm) as (l1 & l2 & -> & Hl1 & _ & Hb).
      exists f0, l1, l2. repeat split; [| right; now apply Hreal' | now right].
      rewrite <- Hl1 in H1. apply filter_nil_Forall, filter_Forall_false in H1.
      eapply Forall_impl; [exact H1 |]. cbn. intros d [Hd | Hd]; [left | now right].
      split; [now apply Hreal | now apply Hreal'].
Qed.

(** *** Streams opened and stopped *)

Lemma stop_all_ne (l : list nat) (ts : list MediaStreamTrack) (t : nat) :
  ~ In t l -> fold_left (fun ts t => stop_in t ts) l ts !! t = ts !! t.
Proof.
  revert ts. induction l as [| x l IH]; intros ts Hn; cbn; [reflexivity |].
  rewrite IH by (intros H; apply Hn; now right).
  unfold stop_in. apply list_lookup_alter_ne. intros ->. apply Hn. now left.
Qed.

Lemma stop_all_length (l : list nat) (ts : list MediaStreamTrack) :
  length (fold_left (fun ts t => stop_in t ts) l ts) = length ts.
Proof.
  revert ts. induction l as [| x l IH]; intros ts; cbn; [reflexivity |].
  rewrite IH. unfold stop_in. apply length_alter.
Qed.

Lemma requestStream_inr (md : MediaDevices) (constraints : MediaStreamConstraints)
  (w w' : World) (opened : list nat * list CameraTrack) :
  requestStream md constraints w = (w', inr opened) ->
  getUserMedia md constraints = inr (snd opened) /\
  fst opened = seq (length (tracks w)) (length (snd opened)) /\
  w' = set_tracks (tracks w ++ map track (snd opened)) w.
Proof.
  unfold requestStream, bind. destruct (getUserMedia md constraints) as [e | cts]; cbn;
    [discriminate |].
  intros [= <- <-]. cbn. now rewrite length_map.
Qed.

Lemma requestStream_inl (md : MediaDevices) (constraints : MediaStreamConstraints)
  (w w' : World) (e : JsError) :
  requestStream md constraints w = (w', inl e) ->
  getUserMedia md constraints = inl e /\ w' = w.
Proof.
  unfold requestStream, bind. destruct (getUserMedia md constraints) as [e' | cts]; cbn;
    [| discriminate].
  now intros [= <- <-].
Qed.

(** A stream that is opened and then stopped: its tracks are new and
    stopped, and the tracks made before are as they were. *)
Lemma stopped_new_stream (w : World) (ts : list MediaStreamTrack) :
  let w2 := stopTracks (seq (length (tracks w)) (length ts))
              (set_tracks (tracks w ++ ts) w) in
  modifies [Tracks] w w2 /\
  length (tracks w2) = (length (tracks w) + length ts)%nat /\
  (forall t, (t < length (tracks w))%nat -> tracks w2 !! t = tracks w !! t) /\
  (forall t k, (length (tracks w) <= t)%nat -> tracks w2 !! t = Some k ->
               track_stopped k = true).
Proof.
  intros w2. subst w2. unfold stopTracks. rewrite stop_all_tracks. cbn. split; [| split; [| split]].
  - intros []; first [discriminate | reflexivity].
  - now rewrite stop_all_length, length_app.
  - intros t Ht. rewrite stop_all_ne by (rewrite in_seq; lia). now apply lookup_app_l.
  - intros t k Ht Hk. apply (stop_all_stopped _ _ _ _ Hk). left.
    apply lookup_lt_Some in Hk. rewrite stop_all_length, length_app in Hk.
    apply in_seq. lia.
Qed.

(** *** The manager with the permission *)

(** [ensurePermission] while the permission is not granted. *)
Lemma ensurePermission_run (md : MediaDevices) (s : PermissionVideoDeviceManager.State) :
  PermissionVideoDeviceManager.permissionGranted s = false ->
  PermissionVideoDeviceManager.ensurePermission md s
  = match getUserMedia md
            (mkConstraints (mkTrackConstraints None None None None (Some "user")) None) with
    | inl _ =>
        (s, inl (Error "Camera permission denied. Please allow camera access to continue."))
    | inr cts =>
        (PermissionVideoDeviceManager.mkState true
           (stopTracks
              (seq (length (tracks (PermissionVideoDeviceManager.world s))) (length cts))
              (set_tracks (tracks (PermissionVideoDeviceManager.world s) ++ map track cts)
                 (PermissionVideoDeviceManager.world s))), inr tt)
    end.
Proof.
  intros Hg. unfold PermissionVideoDeviceManager.ensurePermission. rewrite Hg.
  unfold try_catch, bind, PermissionVideoDeviceManager.lift, requestStream, bind, settle.
  destruct (getUserMedia md _) as [e | cts]; cbn; [now destruct s |].
  now rewrite length_map.
Qed.

(** X12. The manager with the permission asks the browser for a camera
    stream once. As long as the permission is not granted, each listing of
    the devices asks for a stream: when the browser refuses, for whatever
    reason, the manager fails with "Camera permission denied" and will ask
    again next time; when the browser gives a stream, every track of that
    stream is stopped at once, the tracks of other streams are untouched,
    and the permission is granted. From then on the manager opens no
    stream to list the devices: the listing depends on the enumeration
    alone and leaves the store as it is. *)
Theorem camera_permission_is_asked_once (md : MediaDevices)
  (s : PermissionVideoDeviceManager.State) :
  (PermissionVideoDeviceManager.permissionGranted s = true ->
   PermissionVideoDeviceManager.ensurePermission md s = (s, inr tt) /\
   fst (PermissionVideoDeviceManager.getAvailableDevices md s) = s /\
   forall md', enumerateDevices md' = enumerateDevices md ->
               PermissionVideoDeviceManager.getAvailableDevices md' s
               = PermissionVideoDeviceManager.getAvailableDevices md s) /\
  (PermissionVideoDeviceManager.permissionGranted s = false ->
   match getUserMedia md
           (mkConstraints (mkTrackConstraints None None None None (Some "user")) None) with
   | inl _ =>
       PermissionVideoDeviceManager.getAvailableDevices md s
       = (s, inl (Error "Camera permission denied. Please allow camera access to continue."))
   | inr cts =>
       exists s',
         PermissionVideoDeviceManager.ensurePermission md s = (s', inr tt) /\
         PermissionVideoDeviceManager.permissionGranted s' = true /\
         modifies [Tracks] (PermissionVideoDeviceManager.world s)
           (PermissionVideoDeviceManager.world s') /\
         (forall t, (t < length (tracks (PermissionVideoDeviceManager.world s)))%nat ->
                    tracks (PermissionVideoDeviceManager.world s') !! t
                    = tracks (PermissionVideoDeviceManager.world s) !! t) /\
         (forall t k, (length (tracks (PermissionVideoDeviceManager.world s)) <= t)%nat ->
                      tracks (PermissionVideoDeviceManager.world s') !! t = Some k ->
                      track_stopped k = true)
   end).
Proof.
  split.
  - intros Hg.
    assert (forall md0, PermissionVideoDeviceManager.ensurePermission md0 s = (s, inr tt)) as He
      by (intros md0; unfold PermissionVideoDeviceManager.ensurePermission; now rewrite Hg).
    split; [apply He |].
    unfold PermissionVideoDeviceManager.getAvailableDevices. split.
    + rewrite (bind_run _ _ _ _ _ (He md)). unfold bind.
      now destruct (enumerateDevices md).
    + intros md' Henum.
      now rewrite (bind_run _ _ _ _ _ (He md)), (bind_run _ _ _ _ _ (He md')), Henum.
  - intros Hg. pose proof (ensurePermission_run md s Hg) as Hrun.
    destruct (getUserMedia md _) as [e | cts].
    + unfold PermissionVideoDeviceManager.getAvailableDevices.
      now rewrite (bind_fail _ _ _ _ _ Hrun).
    + eexists. split; [exact Hrun |]. cbn. split; [reflexivity |].
      rewrite <- (length_map track).
      destruct (stopped_new_stream (PermissionVideoDeviceManager.world s) (map track cts))
        as (H1 & _ & H3 & H4).
      repeat split; assumption.
Qed.

Lemma camera_permission_is_asked_once_witness :
  PermissionVideoDeviceManager.getAvailableDevices refused unasked
  = (unasked, inl (Error "Camera permission denied. Please allow camera access to continue.")) /\
  (PermissionVideoDeviceManager.ensurePermission laptop unasked = (granted, inr tt) /\
   PermissionVideoDeviceManager.permissionGranted granted = true /\
   length (tracks (PermissionVideoDeviceManager.world granted)) = 1%nat /\
   Forall (fun k => track_stopped k = true)
     (tracks (PermissionVideoDeviceManager.world granted))) /\
  (PermissionVideoDeviceManager.ensurePermission refused granted = (granted, inr tt) /\
   fst (PermissionVideoDeviceManager.getAvailableDevices laptop granted) = granted /\
   PermissionVideoDeviceManager.getAvailableDevices refused granted
   = PermissionVideoDeviceManager.getAvailableDevices laptop granted).
Proof.
  split; [| split].
  - destruct (camera_permission_is_asked_once refused unasked) as [_ H].
    apply H. reflexivity.
  - destruct (camera_permission_is_asked_once laptop unasked) as [_ H].
    destruct (H eq_refl) as (s' & Hrun & Hg & _ & _ & Hstopped).
    assert (s' = granted) as -> by (unfold granted; now rewrite Hrun).
    split; [exact Hrun |]. split; [exact Hg |]. split; [reflexivity |].
    apply Forall_lookup_2. intros t k. apply Hstopped. cbn. lia.
  - destruct (camera_permission_is_asked_once laptop granted) as [H _].
    destruct (H eq_refl) as (_ & Hsame & Hlisting).
    destruct (camera_permission_is_asked_once refused granted) as [H' _].
    destruct (H' eq_refl) as (Hrun & _ & _).
    split; [exact Hrun |]. split; [exact Hsame |]. apply Hlisting. reflexivity.
Defined.

(** X13. The manager with the permission picks the first camera, in the
    order of the enumeration, among the best there are: it fails with "No
    video devices available" when no camera is listed, and with the error
    of the listing when that fails; otherwise it returns a camera of the
    list such that every camera listed before it is virtual (by its label)
    while the pick is not, or is not front-facing (by its label) while the
    pick is. So a virtual camera is picked only when every camera is
    virtual, and a front-facing camera is picked when there is one among
    the real cameras, or among all when all are virtual. The pick is one
    of the video inputs that the browser enumerates. *)
Theorem front_camera_is_preferred (md : MediaDevices)
  (s s' : PermissionVideoDeviceManager.State) (r : JsError + IVideoDeviceCapability) :
  PermissionVideoDeviceManager.getBestDevice md s = (s', r) ->
  exists listing,
    PermissionVideoDeviceManager.getAvailableDevices md s = (s', listing) /\
    match listing with
    | inl e => r = inl e
    | inr [] => r = inl (Error "No video devices available")
    | inr devices =>
        exists b l1 l2,
          r = inr b /\ devices = l1 ++ b :: l2 /\
          Forall (fun d =>
                    PermissionVideoDeviceManager.isVirtual d = true
                      /\ PermissionVideoDeviceManager.isVirtual b = false
                    \/ PermissionVideoDeviceManager.isFrontFacing d = false
                       /\ PermissionVideoDeviceManager.isFrontFacing b = true) l1 /\
          (Forall (fun d => PermissionVideoDeviceManager.isVirtual d = true) devices
           \/ PermissionVideoDeviceManager.isVirtual b = false) /\
          (Forall (fun d => PermissionVideoDeviceManager.isFrontFacing d = false
                            \/ PermissionVideoDeviceManager.isVirtual d = true
                               /\ PermissionVideoDeviceManager.isVirtual b = false) devices
           \/ PermissionVideoDeviceManager.isFrontFacing b = true) /\
          exists inputs,
            enumerateDevices md = inr inputs /\
            In (deviceId b) (map MediaDeviceInfo.deviceId (videoInputs inputs))
    end.
Proof.
  unfold PermissionVideoDeviceManager.getBestDevice. intros H.
  destruct (PermissionVideoDeviceManager.getAvailableDevices md s) as [s1 [e | devices]] eqn:L.
  - rewrite (bind_fail _ _ _ _ _ L) in H. injection H as <- <-.
    exists (inl e). split; reflexivity.
  - rewrite (bind_run _ _ _ _ _ L) in H. exists (inr devices).
    destruct devices as [| d0 ds] eqn:D; [injection H as <- <-; auto |].
    rewrite <- D in *.
    destruct (PermissionVideoDeviceManager_best_spec devices) as (b & l1 & l2 & Hb & Hl & Hw & Hv & Hf);
      [now rewrite D |].
    rewrite Hb in H. injection H as <- <-. split; [reflexivity |].
    exists b, l1, l2. repeat split; try assumption.
    unfold PermissionVideoDeviceManager.getAvailableDevices in L.
    apply bind_inr in L as (s2 & [] & _ & L).
    apply bind_inr in L as (s3 & inputs & Hin & L).
    destruct (enumerateDevices md) as [e | inputs']; [discriminate Hin |].
    injection Hin as <- <-. injection L as _ <-. exists inputs'. split; [reflexivity |].
    assert (In b (l1 ++ b :: l2)) as Hb_in by (apply in_or_app; right; now left).
    rewrite <- Hl in Hb_in.
    apply list_elem_of_In, elem_of_lookup_imap in Hb_in as (i & x & -> & Hx). cbn.
    apply in_map. eapply list_elem_of_In, list_elem_of_lookup_2, Hx.
Qed.

Lemma front_camera_is_preferred_witness :
  snd (PermissionVideoDeviceManager.getBestDevice laptop unasked)
  = inr (mkDevice "built-in" "FaceTime HD Camera" 1280 720 30) /\
  exists listing,
    PermissionVideoDeviceManager.getAvailableDevices laptop unasked
    = (fst (PermissionVideoDeviceManager.getBestDevice laptop unasked), listing).
Proof.
  split; [vm_compute; reflexivity |].
  destruct (front_camera_is_preferred laptop unasked
              (fst (PermissionVideoDeviceManager.getBestDevice laptop unasked))
              (snd (PermissionVideoDeviceManager.getBestDevice laptop unasked)))
    as (listing & H & _); [vm_compute; reflexivity |].
  exists listing. exact H.
Defined.

(** *** The manager that probes the cameras *)

Lemma or_default_nonzero (x : option Z) (d : Z) :
  d <> 0 -> WebCodecsOrchestrator.or_default x d <> 0.
Proof.
  intros Hd. unfold WebCodecsOrchestrator.or_default.
  destruct x as [v |]; [| exact Hd]. destruct (Z.eqb_spec v 0); assumption.
Qed.

(** The body of the loop of [getAvailableDevices]: the camera is
    appended when it is probed, with the next number for a name if it has
    no label, and its test stream is then stopped. *)
Lemma probe_outcome (md : MediaDevices) (device : MediaDeviceInfo.t)
  (capabilities : list IVideoDeviceCapability) (w w' : World)
  (r : JsError + list IVideoDeviceCapability) :
  VideoDeviceManager.probe md device capabilities w = (w', r) ->
  modifies [Tracks] w w' /\
  (forall t, (t < length (tracks w))%nat -> tracks w' !! t = tracks w !! t) /\
  (length (tracks w) <= length (tracks w'))%nat /\
  r = inr (capabilities ++ listed md (length capabilities) [device]) /\
  (r = inr capabilities
   \/ exists c,
        r = inr (capabilities ++ [c]) /\
        deviceId c = MediaDeviceInfo.deviceId device /\
        0 < device_width c /\ 0 < device_height c /\ 0 < frameRate c /\
        label c <> EmptyString /\
        forall t k, (length (tracks w) <= t)%nat -> tracks w' !! t = Some k ->
                    track_stopped k = true).
Proof.
  unfold VideoDeviceManager.probe, try_catch. unfold bind at 1. cbn [listed]. unfold probed.
  destruct (requestStream md _ w) as [w1 [e | [stream cts]]] eqn:R.
  - apply requestStream_inl in R as [-> ->]. intros [= <- <-].
    split; [reflexivity |]. split; [now intros |]. split; [lia |].
    split; [now rewrite app_nil_r | now left].
  - apply requestStream_inr in R as (-> & Hstream & ->). cbn in Hstream. cbn [snd].
    assert (Hopen : modifies [Tracks] w (set_tracks (tracks w ++ map track cts) w) /\
                    (forall t, (t < length (tracks w))%nat ->
                               tracks (set_tracks (tracks w ++ map track cts) w) !! t
                               = tracks w !! t) /\
                    (length (tracks w)
                     <= length (tracks (set_tracks (tracks w ++ map track cts) w)))%nat).
    { split; [intros []; first [discriminate | reflexivity] |]. cbn.
      split; [intros t Ht; now apply lookup_app_l | rewrite length_app; lia]. }
    destruct (firstVideoTrack cts) as [ct |].
    2:{ intros [= <- <-]. destruct Hopen as (H1 & H2 & H3).
        rewrite app_nil_r. repeat split; auto. }
    cbv zeta.
    set (width := WebCodecsOrchestrator.or_default (settings_width (track ct)) _).
    set (height := WebCodecsOrchestrator.or_default (settings_height (track ct)) _).
    set (rate := WebCodecsOrchestrator.or_default (settings_frameRate ct) _).
    assert (width <> 0 /\ height <> 0 /\ rate <> 0) as (Hw0 & Hh0 & Hr0)
      by (repeat split; apply or_default_nonzero, or_default_nonzero; discriminate).
    assert (Z.leb width 0 || Z.leb height 0 || Z.leb rate 0
            = Z.ltb width 0 || Z.ltb height 0 || Z.ltb rate 0) as ->.
    { f_equal; [f_equal |]; apply eq_true_iff_eq; rewrite Z.leb_le, Z.ltb_lt; lia. }
    destruct (Z.ltb width 0 || Z.ltb height 0 || Z.ltb rate 0) eqn:V.
    { intros [= <- <-]. destruct Hopen as (H1 & H2 & H3).
      rewrite app_nil_r. repeat split; auto. }
    apply orb_false_elim in V as [V Vf]. apply orb_false_elim in V as [Vw Vh].
    apply Z.ltb_ge in Vw, Vh, Vf.
    unfold bind, exec, ret. intros [= <- <-]. rewrite Hstream, <- (length_map track).
    destruct (stopped_new_stream w (map track cts)) as (H1 & H2 & H3 & H4).
    split; [exact H1 |]. split; [exact H3 |]. split; [lia |]. split; [reflexivity |]. right.
    eexists. split; [reflexivity |]. cbn. repeat split; try assumption; try lia.
    destruct (String.eqb_spec (MediaDeviceInfo.label device) EmptyString); [discriminate | assumption].
Qed.

Lemma listed_ids (md : MediaDevices) (inputs : list MediaDeviceInfo.t) :
  forall n,
  map deviceId (listed md n inputs)
  = map MediaDeviceInfo.deviceId
      (List.filter (fun d => bool_decide (is_Some (probed md d))) inputs).
Proof.
  induction inputs as [| d inputs IH]; intros n; cbn; [reflexivity |].
  destruct (probed md d) as [[[width height] rate] |]; cbn; now rewrite IH.
Qed.

(** The loop of [getAvailableDevices]. *)
Lemma probeAll_outcome (md : MediaDevices) (videoDevices : list MediaDeviceInfo.t) :
  forall capabilities w w' r,
  VideoDeviceManager.probeAll md videoDevices capabilities w = (w', r) ->
  modifies [Tracks] w w' /\
  (forall t, (t < length (tracks w))%nat -> tracks w' !! t = tracks w !! t) /\
  (length (tracks w) <= length (tracks w'))%nat /\
  exists found,
    r = inr (capabilities ++ found) /\
    found = listed md (length capabilities) videoDevices /\
    Forall (fun c => 0 < device_width c /\ 0 < device_height c /\ 0 < frameRate c /\
                     label c <> EmptyString) found /\
    (length found = length videoDevices ->
     forall t k, (length (tracks w) <= t)%nat -> tracks w' !! t = Some k ->
                 track_stopped k = true).
Proof.
  induction videoDevices as [| device rest IH]; intros capabilities w w' r H.
  - injection H as <- <-. split; [reflexivity |]. split; [now intros |]. split; [lia |].
    exists []. rewrite app_nil_r. repeat split; [constructor |].
    intros _ t k Ht Hk. apply lookup_lt_Some in Hk. lia.
  - cbn [VideoDeviceManager.probeAll] in H. unfold bind in H.
    destruct (VideoDeviceManager.probe md device capabilities w) as [w1 r1] eqn:P.
    destruct (probe_outcome _ _ _ _ _ _ P) as (Hm1 & Hk1 & Hl1 & Hlisted & Hr1).
    assert (exists caps1, r1 = inr caps1) as [caps1 ->]
      by (destruct Hr1 as [-> | (c & -> & _)]; eauto).
    destruct (IH _ _ _ _ H) as (Hm2 & Hk2 & Hl2 & found & -> & Hfound & Hvalid & Hstop).
    injection Hlisted as Hcaps1.
    assert (length found <= length rest)%nat as Hbound.
    { rewrite Hfound, <- (length_map deviceId), listed_ids, length_map.
      apply List.filter_length_le. }
    split; [now transitivity w1 |].
    split; [intros t Ht; rewrite Hk2 by lia; now apply Hk1 |]. split; [lia |].
    destruct Hr1 as [[= ->] | (c & [= ->] & Hid & Hw & Hh & Hf & Hlabel & Hstopped)].
    + exists found. split; [reflexivity |].
      assert (listed md (length capabilities) [device] = []) as Hnone
        by (apply (app_inv_head capabilities); now rewrite app_nil_r).
      split.
      { rewrite Hfound. cbn [listed] in Hnone |- *.
        destruct (probed md device) as [[[width height] rate] |]; [discriminate Hnone |].
        reflexivity. }
      split; [exact Hvalid |]. intros Hlen. cbn in Hlen. lia.
    + exists (c :: found). rewrite <- app_assoc. split; [reflexivity |].
      assert (listed md (length capabilities) [device] = [c]) as Hone
        by (apply (app_inv_head capabilities); symmetry; exact Hcaps1).
      split.
      { rewrite Hfound, length_app. cbn [length listed] in Hone |- *.
        destruct (probed md device) as [[[width height] rate] |]; [| discriminate Hone].
        injection Hone as <-. now rewrite Nat.add_1_r. }
      split; [constructor; auto |].
      intros Hlen t k Ht Hk. destruct (decide (t < length (tracks w1))%nat) as [Hlt | Hge].
      * rewrite Hk2 in Hk by exact Hlt. now apply (Hstopped t k).
      * apply (Hstop ltac:(cbn in Hlen; lia) t k); [lia | exact Hk].
Qed.

(** X14. The manager that probes the cameras never fails because of a
    camera: [getAvailableDevices] fails only when the enumeration does.
    It lists exactly the video inputs that it can probe, in the order of
    the enumeration: those of which the test stream opens and has a video
    track, and of which the width, the height and the frame rate are not
    negative, each of the three being taken from the settings of the
    track or, where the settings give nothing or 0, from the maximum of
    the capabilities, or else being 1920, 1080 and 30; a camera without a
    label is named after its place in the listing. So every camera listed
    has a positive width, height and frame rate, and a label. The tracks
    that existed before are untouched; and when no camera was left out,
    every track of every test stream is stopped. *)
Theorem probing_lists_the_usable_cameras (md : MediaDevices) (w w' : World)
  (r : JsError + list IVideoDeviceCapability) :
  VideoDeviceManager.getAvailableDevices md w = (w', r) ->
  match enumerateDevices md with
  | inl e => r = inl e /\ w' = w
  | inr devices =>
      exists found,
        r = inr found /\
        found = listed md 0 (videoInputs devices) /\
        map deviceId found
        = map MediaDeviceInfo.deviceId
            (List.filter (fun d => bool_decide (is_Some (probed md d))) (videoInputs devices)) /\
        Forall (fun c => 0 < device_width c /\ 0 < device_height c /\ 0 < frameRate c /\
                         label c <> EmptyString) found /\
        modifies [Tracks] w w' /\
        (forall t, (t < length (tracks w))%nat -> tracks w' !! t = tracks w !! t) /\
        (length found = length (videoInputs devices) ->
         forall t k, (length (tracks w) <= t)%nat -> tracks w' !! t = Some k ->
                     track_stopped k = true)
  end.
Proof.
  unfold VideoDeviceManager.getAvailableDevices, bind.
  destruct (enumerateDevices md) as [e | devices]; cbn; [now intros [= <- <-] |].
  intros H. destruct (probeAll_outcome _ _ _ _ _ _ H)
    as (Hm & Hk & _ & found & -> & Hfound & Hvalid & Hstop).
  exists found. cbn in Hfound. split; [reflexivity |]. split; [exact Hfound |].
  split; [rewrite Hfound; apply listed_ids |]. repeat split; assumption.
Qed.

Lemma probing_lists_the_usable_cameras_witness :
  snd (VideoDeviceManager.getAvailableDevices bench initial)
  = inr [mkDevice "zero" "Camera 1" 1920 1080 30;
         mkDevice "hd" "HD Camera" 1280 720 30;
         mkDevice "caps" "Camera 3" 800 600 15].
Proof.
  destruct (probing_lists_the_usable_cameras bench initial
              (fst (VideoDeviceManager.getAvailableDevices bench initial))
              (snd (VideoDeviceManager.getAvailableDevices bench initial)))
    as (found & H1 & H2 & _); [vm_compute; reflexivity |].
  rewrite H1, H2. vm_compute. reflexivity.
Defined.

Lemma filter_Forall_inv {A} (P : A -> bool) (Q : A -> Prop) (l : list A) :
  Forall Q (List.filter P l) -> Forall (fun d => P d = false \/ Q d) l.
Proof.
  induction l as [| x l IH]; cbn; [constructor |].
  destruct (P x) eqn:E; intros H.
  - apply Forall_cons in H as [Hx H]. constructor; auto.
  - constructor; auto.
Qed.

Lemma sort_insert_length {A} (compareFn : A -> A -> Z) (x : A) (l : list A) :
  length (sort_insert compareFn x l) = S (length l).
Proof.
  induction l as [| y l IH]; cbn; [reflexivity |].
  destruct (Z.leb _ 0); cbn; now rewrite ?IH.
Qed.

Lemma sort_length {A} (compareFn : A -> A -> Z) (l : list A) :
  length (sort compareFn l) = length l.
Proof.
  unfold sort. induction l as [| x l IH]; cbn; [reflexivity |].
  now rewrite sort_insert_length, IH.
Qed.

(** A double has the sign of the integer it rounds. *)
Lemma Number_round_nonpos (z : Z) : Number_round z <= 0 <-> z <= 0.
Proof.
  unfold Number_round. destruct (Z.ltb_spec (Z.abs z) (2 ^ 53)) as [_ | Hbig]; [reflexivity |].
  cbv zeta. set (a := Z.abs z) in *. set (e := Z.log2 a - 52).
  assert (0 < a) as Ha by lia.
  assert (53 <= Z.log2 a) as Hlog.
  { rewrite <- (Z.log2_pow2 53) by lia. now apply Z.log2_le_mono. }
  assert (0 < 2 ^ e) as Hpow by (apply Z.pow_pos_nonneg; lia).
  assert (2 ^ e <= a) as Hle.
  { transitivity (2 ^ Z.log2 a); [apply Z.pow_le_mono_r; lia | apply Z.log2_spec, Ha]. }
  assert (0 < a / 2 ^ e) as Hq by (apply Z.div_str_pos; lia).
  set (q' := if Z.ltb (a mod 2 ^ e) (2 ^ (e - 1)) then a / 2 ^ e
             else if Z.ltb (2 ^ (e - 1)) (a mod 2 ^ e) then a / 2 ^ e + 1
             else if Z.even (a / 2 ^ e) then a / 2 ^ e else a / 2 ^ e + 1).
  assert (0 < q') as Hq' by (unfold q'; repeat case_match; lia).
  assert (0 < q' * 2 ^ e) as Hprod by (apply Z.mul_pos_pos; assumption).
  destruct z as [| p | p]; cbn [Z.sgn]; [cbn in Ha; lia | lia | lia].
Qed.

Lemma Number_sub_nonpos (x y : Z) : Number_sub x y <= 0 <-> x <= y.
Proof. unfold Number_sub. rewrite Number_round_nonpos. lia. Qed.

(** A product below 2^53 is exact. *)
Lemma Number_mul_exact (x y : Z) :
  Z.abs x < 2 ^ 26 -> Z.abs y < 2 ^ 26 -> Number_mul x y = x * y.
Proof.
  intros Hx Hy. unfold Number_mul, Number_round.
  destruct (Z.ltb_spec (Z.abs (x * y)) (2 ^ 53)) as [_ | Hbig]; [reflexivity |].
  rewrite Z.abs_mul in Hbig.
  assert (Z.abs x * Z.abs y <= (2 ^ 26) * (2 ^ 26)) by (apply Z.mul_le_mono_nonneg; lia).
  change (2 ^ 26 * 2 ^ 26) with (2 ^ 52) in *. lia.
Qed.

(** The head of an array sorted by decreasing [key]: the first element of
    greatest [key]. *)
Lemma sort_head_first_max {A} (key : A -> Z) (l : list A) (b : A) (rest : list A) :
  sort (fun x y => Number_sub (key y) (key x)) l = b :: rest ->
  exists l1 l2, l = l1 ++ b :: l2 /\
                Forall (fun d => key d < key b) l1 /\ Forall (fun d => key d <= key b) l2.
Proof.
  revert b rest. induction l as [| x l IH]; intros b rest H; [discriminate H |].
  change (sort (fun x y => Number_sub (key y) (key x)) (x :: l))
    with (sort_insert (fun x y => Number_sub (key y) (key x)) x
            (sort (fun x y => Number_sub (key y) (key x)) l)) in H.
  destruct (sort (fun x y => Number_sub (key y) (key x)) l) as [| y ys] eqn:S.
  - assert (l = []) as -> by (apply (f_equal length) in S; rewrite sort_length in S;
                              now destruct l).
    injection H as <- <-. exists [], []. repeat split; constructor.
  - destruct (IH y ys eq_refl) as (m1 & m2 & -> & H1 & H2). cbn in H.
    destruct (Z.leb_spec (Number_sub (key y) (key x)) 0) as [Hle | Hgt];
      [apply (proj1 (Number_sub_nonpos _ _)) in Hle
      | assert (key x < key y) by (pose proof (Number_sub_nonpos (key y) (key x)); lia)];
      injection H as <- <-.
    + exists [], (m1 ++ y :: m2). repeat split; [constructor |].
      apply Forall_app. split; [| constructor].
      * eapply Forall_impl; [exact H1 |]. cbn. lia.
      * lia.
      * eapply Forall_impl; [exact H2 |]. cbn. lia.
    + exists (x :: m1), m2. repeat split; [constructor; [lia | exact H1] | exact H2].
Qed.

(** The camera that the probing manager picks. *)
Lemma VideoDeviceManager_best_spec (devices : list IVideoDeviceCapability) :
  devices <> [] ->
  exists b l1 l2,
    VideoDeviceManager.best devices = inr b /\
    devices = l1 ++ b :: l2 /\
    Forall (fun d =>
              VideoDeviceManager.isVirtual d = true /\ VideoDeviceManager.isVirtual b = false
              \/ VideoDeviceManager.resolution d < VideoDeviceManager.resolution b) l1 /\
    Forall (fun d =>
              VideoDeviceManager.isVirtual d = true /\ VideoDeviceManager.isVirtual b = false
              \/ VideoDeviceManager.resolution d <= VideoDeviceManager.resolution b) l2 /\
    (Forall (fun d => VideoDeviceManager.isVirtual d = true) devices
     \/ VideoDeviceManager.isVirtual b = false).
Proof.
  intros Hne. unfold VideoDeviceManager.best.
  destruct devices as [| d0 ds] eqn:D; [contradiction |]. rewrite <- D in *.
  set (real := fun device => negb (VideoDeviceManager.isVirtual device)).
  assert (forall d, real d = false -> VideoDeviceManager.isVirtual d = true) as Hreal
    by (intros d; unfold real; now destruct (VideoDeviceManager.isVirtual d)).
  assert (forall d, real d = true -> VideoDeviceManager.isVirtual d = false) as Hreal'
    by (intros d; unfold real; now destruct (VideoDeviceManager.isVirtual d)).
  cbv zeta. destruct (List.filter real devices) as [| r0 rs] eqn:R.
  - cbv beta iota.
    destruct (sort _ devices) as [| b rest] eqn:S.
    { apply (f_equal length) in S. rewrite sort_length, D in S. discriminate S. }
    destruct (sort_head_first_max VideoDeviceManager.resolution devices b rest S)
      as (l1 & l2 & Hl & H1 & H2).
    exists b, l1, l2. split; [reflexivity |]. split; [exact Hl |].
    split; [eapply Forall_impl; [exact H1 | cbn; auto] |].
    split; [eapply Forall_impl; [exact H2 | cbn; auto] |].
    left. eapply Forall_impl; [exact (filter_nil_Forall _ _ R) | exact Hreal].
  - cbv beta iota. rewrite <- R.
    destruct (sort _ (List.filter real devices)) as [| b rest] eqn:S.
    { apply (f_equal length) in S. rewrite sort_length, R in S. discriminate S. }
    destruct (sort_head_first_max VideoDeviceManager.resolution _ b rest S)
      as (m1 & m2 & Hm & H1 & H2).
    destruct (filter_split_inv _ devices m1 m2 b Hm) as (l1 & l2 & Hl & Hl1 & Hl2 & Hb).
    exists b, l1, l2. split; [reflexivity |]. split; [exact Hl |].
    rewrite <- Hl1 in H1. rewrite <- Hl2 in H2.
    apply filter_Forall_inv in H1, H2.
    split; [| split; [| right; now apply Hreal']].
    + eapply Forall_impl; [exact H1 |]. cbn. intros d [Hd | Hd]; [left | now right].
      split; [now apply Hreal | now apply Hreal'].
    + eapply Forall_impl; [exact H2 |]. cbn. intros d [Hd | Hd]; [left | now right].
      split; [now apply Hreal | now apply Hreal'].
Qed.

(** X15. The manager that probes the cameras picks the first camera of
    highest resolution among the real ones, the resolution being the
    product of width and height as the sort computes it: a double, equal
    to the exact product as long as both sizes are below 2^26 and
    rounded above 2^53, so that two cameras whose exact products differ
    there may count as equal, and the earlier one is then kept. It fails
    with "No video devices available" when the listing is empty, and with
    the error of the listing when that fails; otherwise, the sizes being
    [unsigned long] as the browser has them, it returns a camera of the
    list such that every camera listed before it is virtual (by its
    label) while the pick is not, or has a lower resolution, and no
    camera listed after it, unless virtual while the pick is not, has a
    higher one. A virtual camera is picked only when every camera is
    virtual. *)
Theorem highest_resolution_is_preferred (md : MediaDevices) (w w' : World)
  (r : JsError + IVideoDeviceCapability) :
  VideoDeviceManager.getBestDevice md w = (w', r) ->
  exists listing,
    VideoDeviceManager.getAvailableDevices md w = (w', listing) /\
    match listing with
    | inl e => r = inl e
    | inr [] => r = inl (Error "No video devices available")
    | inr devices =>
        Forall (fun d => 0 <= device_width d < 2 ^ 32 /\ 0 <= device_height d < 2 ^ 32)
          devices ->
        exists b l1 l2,
          r = inr b /\ devices = l1 ++ b :: l2 /\
          Forall (fun d =>
                    VideoDeviceManager.isVirtual d = true
                      /\ VideoDeviceManager.isVirtual b = false
                    \/ VideoDeviceManager.resolution d < VideoDeviceManager.resolution b) l1 /\
          Forall (fun d =>
                    VideoDeviceManager.isVirtual d = true
                      /\ VideoDeviceManager.isVirtual b = false
                    \/ VideoDeviceManager.resolution d <= VideoDeviceManager.resolution b) l2 /\
          (Forall (fun d => VideoDeviceManager.isVirtual d = true) devices
           \/ VideoDeviceManager.isVirtual b = false) /\
          Forall (fun d =>
                    device_width d < 2 ^ 26 -> device_height d < 2 ^ 26 ->
                    VideoDeviceManager.resolution d = device_width d * device_height d)
            devices
    end.
Proof.
  unfold VideoDeviceManager.getBestDevice. intros H.
  destruct (VideoDeviceManager.getAvailableDevices md w) as [w1 [e | devices]] eqn:L.
  - rewrite (bind_fail _ _ _ _ _ L) in H. injection H as <- <-.
    exists (inl e). split; reflexivity.
  - rewrite (bind_run _ _ _ _ _ L) in H. exists (inr devices).
    destruct devices as [| d0 ds] eqn:D; [injection H as <- <-; auto |].
    rewrite <- D in *.
    destruct (VideoDeviceManager_best_spec devices) as (b & l1 & l2 & Hb & Hl & H1 & H2 & Hv);
      [now rewrite D |].
    rewrite Hb in H. injection H as <- <-. split; [reflexivity |]. intros Hsizes.
    exists b, l1, l2. repeat split; try assumption.
    eapply Forall_impl; [exact Hsizes |]. cbn. intros d [Hw Hh] Hw' Hh'.
    apply Number_mul_exact; lia.
Qed.

Lemma highest_resolution_is_preferred_witness :
  (exists l1 l2,
     snd (VideoDeviceManager.getBestDevice laptop initial)
     = inr (mkDevice "ext" "USB Webcam 4K" 3840 2160 30) /\
     snd (VideoDeviceManager.getAvailableDevices laptop initial)
     = inr (l1 ++ mkDevice "ext" "USB Webcam 4K" 3840 2160 30 :: l2) /\
     Forall (fun d =>
               VideoDeviceManager.isVirtual d = true
               \/ VideoDeviceManager.resolution d < 3840 * 2160) l1) /\
  snd (VideoDeviceManager.getBestDevice twins initial)
  = inr (mkDevice "a" "Cam A" 94906266 94906268 30) /\
  94906266 * 94906268 < 94906267 * 94906267.
Proof.
  split; [| split; [vm_compute; reflexivity | lia]].
  destruct (highest_resolution_is_preferred laptop initial
              (fst (VideoDeviceManager.getBestDevice laptop initial))
              (snd (VideoDeviceManager.getBestDevice laptop initial)))
    as (listing & H & Hpick); [vm_compute; reflexivity |].
  assert (listing = snd (VideoDeviceManager.getAvailableDevices laptop initial)) as ->
    by now rewrite H.
  assert (snd (VideoDeviceManager.getBestDevice laptop initial)
          = inr (mkDevice "ext" "USB Webcam 4K" 3840 2160 30)) as Hbest
    by (vm_compute; reflexivity).
  destruct (snd (VideoDeviceManager.getAvailableDevices laptop initial))
    as [e | [| d ds]] eqn:L; [discriminate L | discriminate L |].
  destruct Hpick as (b & l1 & l2 & Hb & Hl & H1 & _).
  - assert (inr (d :: ds) = snd (VideoDeviceManager.getAvailableDevices laptop initial)) as E
      by now rewrite L.
    vm_compute in E. injection E as -> ->. repeat constructor; cbn; lia.
  - rewrite Hbest in Hb. injection Hb as <-.
    exists l1, l2. split; [reflexivity |]. split; [now rewrite Hl |].
    eapply Forall_impl; [exact H1 |]. cbn. intros x [[Hx _] | Hx]; [now left | right].
    exact Hx.
Defined.

(** ** Runs that complete *)

Lemma for_of_completes {S A} (P : S -> Prop) (xs : list A) (body : A -> M S unit) :
  (forall x s, P s -> exists s', body x s = (s', inr tt) /\ P s') ->
  forall s, P s -> exists s', for_of xs body s = (s', inr tt) /\ P s'.
Proof.
  intros Hbody. induction xs as [| x xs IH]; intros s Hs; cbn.
  - exists s. split; [reflexivity | exact Hs].
  - destruct (Hbody x s Hs) as (s1 & H1 & Hs1).
    rewrite (bind_run _ _ _ _ _ H1). apply IH, Hs1.
Qed.

Lemma getVideoTracks_new (ts : list MediaStreamTrack) (w : World) :
  Exists (fun k => track_kind k = VideoTrack) ts ->
  getVideoTracks (seq (length (tracks w)) (length ts)) (set_tracks (tracks w ++ ts) w) <> [].
Proof.
  intros (k & Hin & Hk)%Exists_exists. apply list_elem_of_lookup_1 in Hin as [i Hi].
  intros Hnil.
  assert (In (length (tracks w) + i)%nat
            (getVideoTracks (seq (length (tracks w)) (length ts))
               (set_tracks (tracks w ++ ts) w))) as Hin; [| now rewrite Hnil in Hin].
  apply List.filter_In. split.
  - apply in_seq. apply lookup_lt_Some in Hi. lia.
  - unfold isVideoTrack. cbn. rewrite lookup_app_r by lia.
    replace (length (tracks w) + i - length (tracks w))%nat with i by lia.
    now rewrite Hi, Hk.
Qed.

Lemma videoTrackSettings_run (stream : list nat) (w : World) :
  getVideoTracks stream w <> [] ->
  exists k, WebCodecsOrchestrator.videoTrackSettings stream w = (w, inr k).
Proof.
  intros H. unfold WebCodecsOrchestrator.videoTrackSettings.
  destruct (getVideoTracks stream w) as [| t rest] eqn:G; [easy |].
  assert (In t (getVideoTracks stream w)) as Hin by (rewrite G; now left).
  apply List.filter_In in Hin as [_ Hv]. unfold isVideoTrack in Hv.
  destruct (tracks w !! t) as [k |]; [eauto | discriminate].
Qed.

Lemma streaming_agree (w w' : World) :
  tracks w' = tracks w -> mediaStream w' = mediaStream w -> streaming w -> streaming w'.
Proof.
  intros Ht Hm (stream & Hs & Hv). exists stream. split; [congruence |].
  unfold getVideoTracks, isVideoTrack in *. now rewrite Ht.
Qed.

Lemma holds_live_frame_agree (w w' : World) :
  frames w' = frames w -> currentFrame (capture w') = currentFrame (capture w) ->
  holds_live_frame w -> holds_live_frame w'.
Proof.
  intros Hf Hc (c & H & Ho). exists c. split; [congruence |].
  unfold is_open in *. now rewrite Hf.
Qed.

Lemma encoder_configured_agree (w w' : World) :
  encoderService w' = encoderService w -> encoder_configured w -> encoder_configured w'.
Proof. unfold encoder_configured. now intros ->. Qed.

Lemma initializeCamera_completes (env : Env) (w : World) (device : IVideoDeviceCapability)
  (ts : list MediaStreamTrack) :
  currentFrame (capture w) = None ->
  getBestDevice env = inr device ->
  getMediaStream env device = inr ts ->
  Exists (fun k => track_kind k = VideoTrack) ts ->
  firstFrames env <> [] ->
  exists w1,
    WebCodecsOrchestrator.initializeCamera env w = (w1, inr tt) /\
    streaming w1 /\ holds_live_frame w1.
Proof.
  intros Hnone Hdev Hms Hvideo Hframes.
  pose proof (getVideoTracks_new ts w Hvideo) as G.
  destruct (exists_last Hframes) as (values & v & E).
  unfold WebCodecsOrchestrator.initializeCamera. rewrite Hdev.
  erewrite (bind_run _ _ w w device) by reflexivity. rewrite Hms.
  erewrite (bind_run _ _ w w ts) by reflexivity.
  set (stream := seq (length (tracks w)) (length ts)) in *.
  set (w0 := set_mediaStream (Some stream) (set_tracks (tracks w ++ ts) w)).
  erewrite (bind_run _ _ w w0 stream) by reflexivity.
  unfold FrameCaptureService.initialize.
  erewrite (bind_run _ _ w0 w0 (getVideoTracks stream w0)) by reflexivity.
  change (getVideoTracks stream w0)
    with (getVideoTracks stream (set_tracks (tracks w ++ ts) w)).
  destruct (getVideoTracks stream (set_tracks (tracks w ++ ts) w)) as [| t rest] eqn:V;
    [easy |].
  set (w' := set_capture
               (mkCapture (Some t) (Some t) (Some t) (currentFrame (capture w0)) true
                  (frameUpdateLock (capture w0))) w0).
  erewrite (bind_run _ _ w0 w' tt) by reflexivity.
  unfold FrameCaptureService.waitForFirstFrame.
  change (currentFrame (capture w')) with (currentFrame (capture w)). rewrite Hnone, E.
  destruct (deliver_latest values v w' eq_refl) as (Hc & Hf & _). cbv zeta in Hc, Hf.
  rewrite Hc. eexists. split; [reflexivity |]. split.
  - apply (streaming_agree w').
    + apply (deliver_modifies _ w' Tracks eq_refl).
    + apply (deliver_modifies _ w' MediaStream eq_refl).
    + exists stream. split; [reflexivity |].
      change (getVideoTracks stream w')
        with (getVideoTracks stream (set_tracks (tracks w ++ ts) w)).
      now rewrite V.
  - eexists. split; [exact Hc |]. eexists. split; [exact Hf | reflexivity].
Qed.

Lemma initializeEncoder_completes (env : Env) (w : World) :
  streaming w -> (forall config, encoderSupported env config = true) ->
  exists w1, WebCodecsOrchestrator.initializeEncoder env w = (w1, inr tt).
Proof.
  intros (stream & Hs & Hv) Hsup. unfold WebCodecsOrchestrator.initializeEncoder.
  erewrite (bind_run _ _ w w (mediaStream w)) by reflexivity. rewrite Hs.
  destruct (videoTrackSettings_run stream w Hv) as [k Hk].
  rewrite (bind_run _ _ _ _ _ Hk). cbv zeta. rewrite Hsup.
  unfold VideoEncoderService.initialize. cbn [negb]. eexists. reflexivity.
Qed.

Lemma deliver_holds_live_frame (values : list (Z * N)) (w : World) :
  holds_live_frame w -> holds_live_frame (FrameCaptureService.deliver values w).
Proof.
  intros H.
  destruct (isReading (capture w) && bool_decide (is_Some (reader (capture w)))) eqn:R.
  - destruct values as [| v0 vs]; [exact H |].
    destruct (exists_last (l := v0 :: vs) ltac:(discriminate)) as (values & v & ->).
    destruct (deliver_latest values v w R) as (Hc & Hf & _). cbv zeta in Hc, Hf.
    eexists. split; [exact Hc |]. eexists. split; [exact Hf | reflexivity].
  - assert (FrameCaptureService.deliver values w = w) as ->; [| exact H].
    unfold FrameCaptureService.deliver.
    induction values as [| v vs IH]; cbn; [reflexivity |].
    unfold FrameCaptureService.readFrames at 2. now rewrite R.
Qed.

Lemma whileWaiting_session (env : Env) (i : nat) (w : World) :
  encoderError env = None ->
  holds_live_frame w -> encoder_configured w ->
  holds_live_frame (WebCodecsOrchestrator.whileWaiting env i w)
  /\ encoder_configured (WebCodecsOrchestrator.whileWaiting env i w).
Proof.
  intros Herr Hh He. unfold WebCodecsOrchestrator.whileWaiting. cbv zeta. rewrite Herr.
  set (w1 := FrameCaptureService.deliver (cameraFeed env i) w).
  split.
  - apply (holds_live_frame_agree w1).
    + apply (codecOutput_modifies _ w1 Frames eq_refl).
    + now rewrite (codecOutput_modifies _ w1 Capture eq_refl : _ = _).
    + now apply deliver_holds_live_frame.
  - assert (encoder_configured w1) as (e & E & Hst)
      by (revert He; apply encoder_configured_agree, (deliver_modifies _ w EncoderService eq_refl)).
    destruct (codecOutput_queue (encoderOutputs env i) w1 e E) as (e' & E' & Hst' & _).
    exists e'. split; [exact E' | congruence].
Qed.

Lemma storeForValidation_completes (env : Env) (i frame : nat) (w : World) :
  is_open w frame ->
  exists w',
    WebCodecsOrchestrator.storeForValidation env i frame w = (w', inr tt) /\
    encoderService w' = encoderService w /\ capture w' = capture w /\
    forall h f, frames w !! h = Some f -> frames w' !! h = Some f.
Proof.
  intros (f & Hf & Ho). unfold WebCodecsOrchestrator.storeForValidation.
  destruct (_ && _); [| exists w; repeat split; auto].
  assert (VideoFrame_clone frame w = (set_frames (frames w ++ [f]) w, inr (length (frames w))))
    as Hclone by (unfold VideoFrame_clone; now rewrite Hf, Ho).
  rewrite (bind_run _ _ _ _ _ Hclone). eexists. split; [reflexivity |].
  cbn. repeat split. intros h x Hx. now apply lookup_app_l_Some.
Qed.

Lemma encodeFrame_completes (frame : nat) (keyFrame : bool) (w : World) :
  encoder_configured w -> is_open w frame ->
  exists w',
    VideoEncoderService.encodeFrame frame keyFrame w = (w', inr tt) /\
    encoder_configured w' /\ capture w' = capture w /\
    frames w' = close_in frame (frames w).
Proof.
  intros (e & He & Hst) (f & Hf & Ho). unfold VideoEncoderService.encodeFrame.
  rewrite He, Hst, Hf, Ho. cbn [CodecState_eqb negb]. eexists. split; [reflexivity |].
  split; [eexists; split; reflexivity |]. split; reflexivity.
Qed.

Lemma captureStep_completes (env : Env) (count : nat) (interval delay : Z) (i : nat)
  (w : World) :
  encoderError env = None ->
  holds_live_frame w /\ encoder_configured w ->
  exists w',
    WebCodecsOrchestrator.captureStep env count interval delay i w = (w', inr tt) /\
    holds_live_frame w' /\ encoder_configured w'.
Proof.
  intros Herr [Hh He]. unfold WebCodecsOrchestrator.captureStep, sleep.
  set (w1 := ScreenFlashController.setColor (WebCodecsOrchestrator.flashColor i) w).
  erewrite (bind_run _ _ w w1 tt) by reflexivity.
  set (w2 := set_slept (delay :: slept w1) w1).
  erewrite (bind_run _ _ w1 w2 tt) by reflexivity.
  set (w3 := WebCodecsOrchestrator.whileWaiting env i w2).
  erewrite (bind_run _ _ w2 w3 tt) by reflexivity.
  destruct (whileWaiting_session env i w2 Herr) as [(c & Hc & f & Hf & Ho) He3].
  { apply (holds_live_frame_agree w); [| | exact Hh]; unfold w2, w1; cbn.
    - apply (setColor_modifies _ w Frames eq_refl).
    - now rewrite (setColor_modifies _ w Capture eq_refl : _ = _). }
  { revert He. apply encoder_configured_agree. unfold w2, w1. cbn.
    apply (setColor_modifies _ w EncoderService eq_refl). }
  fold w3 in Hc, Hf, He3.
  rewrite (bind_run _ _ _ _ _ (captureFrame_run w3 c f Hc Hf Ho)).
  set (w4 := set_capture (FrameCaptureService.set_frameUpdateLock true (capture w3))
               (set_frames (frames w3 ++ [f]) w3)).
  assert (frames w4 !! length (frames w3) = Some f) as Hnew
    by (cbn; now apply list_lookup_middle).
  destruct (storeForValidation_completes env i (length (frames w3)) w4)
    as (w5 & H5 & He5 & Hc5 & Hf5); [now exists f |].
  rewrite (bind_run _ _ _ _ _ H5).
  destruct (encodeFrame_completes (length (frames w3)) (Nat.eqb i 0) w5)
    as (w6 & H6 & He6 & Hc6 & Hf6).
  { revert He3. apply encoder_configured_agree. now rewrite He5. }
  { exists f. split; [now apply Hf5 | exact Ho]. }
  rewrite (bind_run _ _ _ _ _ H6).
  assert (holds_live_frame w6) as Hh6.
  { exists c. split; [now rewrite Hc6, Hc5 |]. exists f. split; [| exact Ho].
    rewrite Hf6. unfold close_in. rewrite list_lookup_alter_ne.
    - apply Hf5. cbn. now apply lookup_app_l_Some.
    - apply lookup_lt_Some in Hf. lia. }
  destruct (Nat.ltb i (count - 1)); eexists; (split; [reflexivity |]);
    split; assumption.
Qed.

Lemma captureAndEncodeFrames_completes (env : Env) (w : World) :
  encoderError env = None ->
  holds_live_frame w -> encoder_configured w ->
  exists w', WebCodecsOrchestrator.captureAndEncodeFrames env w = (w', inr tt).
Proof.
  intros Herr Hh He. unfold WebCodecsOrchestrator.captureAndEncodeFrames.
  erewrite (bind_run _ _ w _ tt) by reflexivity. erewrite (bind_run _ _ _ _ tt) by reflexivity.
  set (w1 := set_capturedFramesForValidation [] (ScreenFlashController.show w)).
  destruct (for_of_completes (fun s => holds_live_frame s /\ encoder_configured s)
              (seq 0 WebCodecsOrchestrator.FRAME_COUNT)
              (WebCodecsOrchestrator.captureStep env WebCodecsOrchestrator.FRAME_COUNT
                 WebCodecsOrchestrator.FRAME_INTERVAL_MS
                 WebCodecsOrchestrator.FLASH_DISPLAY_DELAY_MS)
              (fun x s => captureStep_completes env _ _ _ x s Herr) w1)
    as (w2 & Hloop & _ & (e & E & Hst)).
  { split.
    - apply (holds_live_frame_agree w); [| | exact Hh]; cbn.
      + apply (show_modifies w Frames eq_refl).
      + now rewrite (show_modifies w Capture eq_refl : _ = _).
    - revert He. apply encoder_configured_agree. cbn.
      apply (show_modifies w EncoderService eq_refl). }
  unfold WebCodecsOrchestrator.captureLoop. rewrite (bind_run _ _ _ _ _ Hloop).
  erewrite (bind_run _ _ _ _ tt) by reflexivity.
  unfold VideoEncoderService.flush.
  rewrite (hide_modifies w2 EncoderService eq_refl : _ = _), E, Hst.
  cbn [CodecState_eqb negb]. eexists. reflexivity.
Qed.

Lemma VideoDecoderService_decodeAndRender_completes (chunks : list IEncodedChunk)
  (w : World) :
  decoderService w = mkDecoderService (Some (mkDecoder configured [] true)) [] ->
  match chunks with c :: _ => chunk_type (data c) = key | [] => True end ->
  exists w', VideoDecoderService.decodeAndRender chunks true w = (w', inr tt).
Proof.
  intros Hd Hkey. unfold VideoDecoderService.decodeAndRender. rewrite Hd. cbn [decoder].
  destruct (decode_all_ok chunks w (mkDecoder configured [] true)) as (w1 & Hdecode);
    [now rewrite Hd | reflexivity | now intros _ |].
  destruct (decode_all_inr chunks w w1 (mkDecoder configured [] true)) as (d' & -> & Hst & _);
    [now rewrite Hd | exact Hdecode |].
  destruct (playback_run (VideoDecoderService.set_decoder (Some d') w) d')
    as (w2 & Hrun & _); [reflexivity | exact Hst | cbn; now rewrite Hd |].
  rewrite (bind_run _ _ _ _ _ Hdecode). eauto.
Qed.

Lemma decodeAndRender_completes (env : Env) (w : World) :
  streaming w ->
  (exists c rest,
     VideoEncoderService.getEncodedChunks w = c :: rest /\ chunk_type (data c) = key) ->
  (forall width height, decoderSupported env "vp8" width height = true) ->
  canvasContext env = true ->
  exists w', WebCodecsOrchestrator.decodeAndRender env w = (w', inr tt).
Proof.
  intros (stream & Hs & Hv) (c & rest & Hchunks & Hkey) Hsup Hctx.
  unfold WebCodecsOrchestrator.decodeAndRender.
  erewrite (bind_run _ _ w w _) by reflexivity. rewrite Hchunks.
  erewrite (bind_run _ _ w w (mediaStream w)) by reflexivity. rewrite Hs.
  destruct (videoTrackSettings_run stream w Hv) as [k Hk].
  rewrite (bind_run _ _ _ _ _ Hk). cbv zeta. rewrite Hsup, Hctx.
  unfold VideoDecoderService.initialize. cbn [negb].
  erewrite (bind_run _ _ w _ tt) by reflexivity.
  apply VideoDecoderService_decodeAndRender_completes; [reflexivity | exact Hkey].
Qed.

Lemma validateCapturedFrames_completes (env : Env) (w : World) :
  (forall service, faceDetectionService env = Some service ->
     apiKey service <> EmptyString /\
     forall j fr error,
       OpenAIFaceDetectionService.request fr (respond service j) = inl error ->
       rethrown error = false) ->
  exists w', WebCodecsOrchestrator.validateCapturedFrames env w = (w', inr tt).
Proof.
  intros Hservice. unfold WebCodecsOrchestrator.validateCapturedFrames.
  erewrite (bind_run _ _ w w _) by reflexivity.
  destruct (faceDetectionService env) as [service |]; [| now exists w].
  destruct (capturedFramesForValidation w) as [| frame fs] eqn:F; [now exists w |].
  destruct (Hservice service eq_refl) as [Hkey Hcaught].
  erewrite (bind_run _ _ w _ tt) by reflexivity.
  destruct (validateLoop_completes service Hkey Hcaught (frame :: fs) 0%nat
              (set_validationResults [] w)) as (w1 & Hloop & _).
  rewrite (bind_run _ _ _ _ _ Hloop). eexists. reflexivity.
Qed.

(** X16. A run completes when nothing outside the orchestrator fails:
    started with no frame held, with a device manager that gives a stream
    with a video track, a camera that delivers a frame within the time
    allowed, codecs that support the configuration, an encoder that hits
    no error, a 2D context on the canvas, and, when there is a
    classifier, a key set and no classifier error of the kinds thrown
    again, [execute] returns normally, however many of the 20 frames the
    encoder drops short of all; only when the encoder drops every one of
    them does the run fail, with 'No encoded chunks available'.  So no
    step of the workflow fails by itself: the capture loop always finds a
    live frame to copy, the copy is live when it is stored and encoded,
    the encoder stays configured and the first chunk handed to the
    decoder is a key chunk. *)
Theorem run_completes (env : Env) (w : World) (device : IVideoDeviceCapability)
  (ts : list MediaStreamTrack) :
  currentFrame (capture w) = None ->
  getBestDevice env = inr device ->
  getMediaStream env device = inr ts ->
  Exists (fun k => track_kind k = VideoTrack) ts ->
  firstFrames env <> [] ->
  (forall config, encoderSupported env config = true) ->
  encoderError env = None ->
  (forall width height, decoderSupported env "vp8" width height = true) ->
  canvasContext env = true ->
  (forall service, faceDetectionService env = Some service ->
     apiKey service <> EmptyString /\
     forall j fr error,
       OpenAIFaceDetectionService.request fr (respond service j) = inl error ->
       rethrown error = false) ->
  ((exists i, (i < 20)%nat /\ encoderDrops env i = false) ->
   exists w', WebCodecsOrchestrator.execute env w = (w', inr tt)) /\
  ((forall i, (i < 20)%nat -> encoderDrops env i = true) ->
   exists w', WebCodecsOrchestrator.execute env w
              = (w', inl (Error "No encoded chunks available"))).
Proof.
  intros Hnone Hdev Hms Hvideo Hframes Henc Herr Hdec Hctx Hservice.
  destruct (initializeCamera_completes env w device ts Hnone Hdev Hms Hvideo Hframes)
    as (w1 & H1 & Hs1 & Hh1).
  destruct (initializeEncoder_completes env w1 Hs1 Henc) as (w2 & H2).
  pose proof (initializeEncoder_fresh _ _ _ H2) as Hfresh.
  destruct (captureAndEncodeFrames_completes env w2 Herr) as (w3 & H3).
  { apply (holds_live_frame_agree w1); [| | exact Hh1].
    - exact (respects_agree _ Frames _ _ _ _ (initializeEncoder_modifies env) eq_refl H2).
    - now rewrite (respects_agree _ Capture _ _ _ _ (initializeEncoder_modifies env)
                     eq_refl H2 : _ = _). }
  { eexists. rewrite Hfresh. split; reflexivity. }
  destruct (capture_session_recorded env w1 w2 w3 H2 H3) as (Hlen & Hpic & Hfirst).
  split; [intros (i0 & Hi0 & Hkept) | intros Hall]; cycle 1.
  { exists (WebCodecsOrchestrator.cleanup w3).
    rewrite (survivors_none _ _ 0) in Hpic by (intros j Hj; apply Hall; lia).
    apply map_eq_nil in Hpic.
    assert (WebCodecsOrchestrator.decodeAndRender env w3
            = (w3, inl (Error "No encoded chunks available"))) as H4
      by (unfold WebCodecsOrchestrator.decodeAndRender, bind, gets; now rewrite Hpic).
    rewrite execute_stages. unfold stages.
    now rewrite (bind_run _ _ _ _ _ H1), (bind_run _ _ _ _ _ H2), (bind_run _ _ _ _ _ H3),
      (bind_fail _ _ _ _ _ H4). }
  assert (exists c rest,
            VideoEncoderService.getEncodedChunks w3 = c :: rest /\ chunk_type (data c) = key)
    as Hkey.
  { destruct (VideoEncoderService.getEncodedChunks w3) as [| c rest]; [| eauto].
    symmetry in Hpic. apply map_eq_nil in Hpic.
    now apply (survivors_nonempty _ _ 0 i0) in Hpic; [| rewrite Hlen; lia |]. }
  destruct (decodeAndRender_completes env w3) as (w4 & H4); [| exact Hkey | exact Hdec | exact Hctx |].
  { apply (streaming_agree w2).
    - exact (respects_agree _ Tracks _ _ _ _ (captureAndEncodeFrames_modifies env) eq_refl H3).
    - exact (respects_agree _ MediaStream _ _ _ _ (captureAndEncodeFrames_modifies env)
               eq_refl H3).
    - revert Hs1. apply streaming_agree.
      + exact (respects_agree _ Tracks _ _ _ _ (initializeEncoder_modifies env) eq_refl H2).
      + exact (respects_agree _ MediaStream _ _ _ _ (initializeEncoder_modifies env)
                 eq_refl H2). }
  assert (exists w5, stages env w = (w5, inr tt)) as (w5 & H5).
  { unfold stages.
    rewrite (bind_run _ _ _ _ _ H1), (bind_run _ _ _ _ _ H2), (bind_run _ _ _ _ _ H3),
      (bind_run _ _ _ _ _ H4).
    destruct (bool_decide _); [| now exists w4].
    apply validateCapturedFrames_completes, Hservice. }
  exists (WebCodecsOrchestrator.cleanup w5). now rewrite execute_stages, H5.
Qed.

Lemma run_completes_witness :
  snd (WebCodecsOrchestrator.execute (scenario None (Some attentive)) initial) = inr tt /\
  snd (WebCodecsOrchestrator.execute lossy initial) = inr tt /\
  snd (WebCodecsOrchestrator.execute starved initial)
  = inl (Error "No encoded chunks available").
Proof.
  assert (forall service, Some attentive = Some service ->
            apiKey service <> EmptyString /\
            forall j fr error,
              OpenAIFaceDetectionService.request fr (respond service j) = inl error ->
              rethrown error = false) as Hservice.
  { intros service [= <-]. split; [discriminate |].
    intros j [[ts px []] |] error [= <-]; reflexivity. }
  split; [| split].
  - destruct (run_completes (scenario None (Some attentive)) initial
                (mkDevice "cam1" "FaceTime HD Camera" 1280 720 30)
                [mkTrack VideoTrack (Some 640) (Some 480) false])
      as ((w' & H) & _);
      [reflexivity | reflexivity | reflexivity | repeat constructor | discriminate
      | reflexivity | reflexivity | reflexivity | reflexivity | exact Hservice
      | exists 0%nat; split; [lia | reflexivity] |].
    now rewrite H.
  - destruct (run_completes lossy initial
                (mkDevice "cam1" "FaceTime HD Camera" 1280 720 30)
                [mkTrack VideoTrack (Some 640) (Some 480) false])
      as ((w' & H) & _);
      [reflexivity | reflexivity | reflexivity | repeat constructor | discriminate
      | reflexivity | reflexivity | reflexivity | reflexivity | discriminate
      | exists 0%nat; split; [lia | reflexivity] |].
    now rewrite H.
  - destruct (run_completes starved initial
                (mkDevice "cam1" "FaceTime HD Camera" 1280 720 30)
                [mkTrack VideoTrack (Some 640) (Some 480) false])
      as (_ & Hfail);
      [reflexivity | reflexivity | reflexivity | repeat constructor | discriminate
      | reflexivity | reflexivity | reflexivity | reflexivity | exact Hservice |].
    destruct Hfail as (w' & H); [reflexivity |]. now rewrite H.
Defined.

(** ** The frame that a failed run leaves live *)

#[local] Instance opens_none_refl : Reflexive opens_none.
Proof. now intros w h. Qed.

#[local] Instance opens_none_trans : Transitive opens_none.
Proof. intros x y z H1 H2 h H. apply H1, H2, H. Qed.

Lemma for_of_outcome {S A} (P : S -> Prop) (Q : S -> JsError -> Prop) (xs : list A)
  (body : A -> M S unit) :
  (forall x s s' r, P s -> body x s = (s', r) ->
     match r with inr _ => P s' | inl e => Q s' e end) ->
  forall s s' r, P s -> for_of xs body s = (s', r) ->
    match r with inr _ => P s' | inl e => Q s' e end.
Proof.
  intros Hbody. induction xs as [| x xs IH]; intros s s' r Hs H; cbn in H.
  - injection H as <- <-. exact Hs.
  - destruct (body x s) as [s1 [e | []]] eqn:B.
    + rewrite (bind_fail _ _ _ _ _ B) in H. injection H as <- <-.
      exact (Hbody x s s1 (inl e) Hs B).
    + rewrite (bind_run _ _ _ _ _ B) in H.
      exact (IH s1 s' r (Hbody x s s1 (inr tt) Hs B) H).
Qed.

Lemma accounted_owned (w : World) : accounted w -> owned None w.
Proof. intros Ha h Ho. destruct (Ha h Ho); auto. Qed.

Lemma opens_none_agree (w w' : World) : frames w' = frames w -> opens_none w w'.
Proof. intros Hf h. unfold is_open. now rewrite Hf. Qed.

Lemma encoder_started_agree (w w' : World) :
  encoderService w' = encoderService w -> encoder_started w -> encoder_started w'.
Proof. unfold encoder_started. now intros ->. Qed.

Lemma whileWaiting_encoder_started (env : Env) (i : nat) (w : World) :
  encoder_started w -> encoder_started (WebCodecsOrchestrator.whileWaiting env i w).
Proof.
  intros He. unfold WebCodecsOrchestrator.whileWaiting. cbv zeta.
  set (w1 := FrameCaptureService.deliver (cameraFeed env i) w).
  assert (encoder_started w1) as (e & E & Hst)
    by (revert He; apply encoder_started_agree, (deliver_modifies _ w EncoderService eq_refl)).
  destruct (codecOutput_queue (encoderOutputs env i) w1 e E) as (e' & E' & Hst' & _).
  assert (encoder_started (VideoEncoderService.codecOutput (encoderOutputs env i) w1)) as H2
    by (exists e'; split; [exact E' | congruence]).
  destruct (encoderError env) as [j |]; [destruct (Nat.eqb i j) |]; try exact H2.
  unfold VideoEncoderService.codecError, VideoEncoderService.close. rewrite E'.
  eexists. split; [reflexivity | discriminate].
Qed.

Lemma captureFrame_inl (w w' : World) (e : JsError) :
  FrameCaptureService.captureFrame w = (w', inl e) ->
  frames w' = frames w /\ currentFrame (capture w') = currentFrame (capture w).
Proof.
  unfold FrameCaptureService.captureFrame, try_finally, VideoFrame_clone, VideoFrame_new.
  intros H. repeat case_match; simplify_eq; split; cbn; congruence.
Qed.

Lemma encodeFrame_inl (frame : nat) (keyFrame : bool) (w w' : World) (e : JsError) :
  encoder_started w -> is_open w frame ->
  VideoEncoderService.encodeFrame frame keyFrame w = (w', inl e) ->
  w' = w /\ e = Error "Encoder is in closed state".
Proof.
  intros (c & Hc & Hst) (f & Hf & Ho). unfold VideoEncoderService.encodeFrame.
  rewrite Hc, Hf, Ho. destruct (enc_state c); [contradiction | discriminate |].
  cbn. intros [= <- <-]. split; reflexivity.
Qed.

(** A turn of the capture loop that fails leaves no frame live but the
    one held and those stored, except when it is the encoder that
    refuses the frame: the copy made for it is then left live. *)
Lemma captureStep_inl (env : Env) (count : nat) (interval delay : Z) (i : nat)
  (w w' : World) (e : JsError) :
  accounted w -> encoder_started w ->
  WebCodecsOrchestrator.captureStep env count interval delay i w = (w', inl e) ->
  exists o, owned o w' /\ (o <> None -> e = Error "Encoder is in closed state").
Proof.
  intros Ha He H. unfold WebCodecsOrchestrator.captureStep, sleep in H.
  set (w1 := ScreenFlashController.setColor (WebCodecsOrchestrator.flashColor i) w) in H.
  erewrite (bind_run _ _ w w1 tt) in H by reflexivity.
  set (w2 := set_slept (delay :: slept w1) w1) in H.
  erewrite (bind_run _ _ w1 w2 tt) in H by reflexivity.
  set (w3 := WebCodecsOrchestrator.whileWaiting env i w2) in H.
  erewrite (bind_run _ _ w2 w3 tt) in H by reflexivity.
  assert (accounted w3) as H3.
  { apply whileWaiting_accounted. revert Ha. apply accounted_agree; unfold w2, w1; cbn.
    - apply (setColor_modifies _ w Frames eq_refl).
    - now rewrite (setColor_modifies _ w Capture eq_refl : _ = _).
    - apply (setColor_modifies _ w CapturedFrames eq_refl). }
  assert (encoder_started w3) as He3.
  { apply whileWaiting_encoder_started. revert He. apply encoder_started_agree.
    unfold w2, w1. cbn. apply (setColor_modifies _ w EncoderService eq_refl). }
  clearbody w3. clear w1 w2.
  destruct (FrameCaptureService.captureFrame w3) as [w4 [e4 | frame]] eqn:H4.
  - rewrite (bind_fail _ _ _ _ _ H4) in H. injection H as <- <-.
    exists None. split; [| easy]. apply accounted_owned.
    destruct (captureFrame_inl _ _ _ H4) as [Hf Hc]. revert H3. apply accounted_agree.
    + exact Hf.
    + exact Hc.
    + exact (respects_agree _ CapturedFrames _ _ _ _ captureFrame_modifies eq_refl H4).
  - rewrite (bind_run _ _ _ _ _ H4) in H.
    apply captureFrame_inr in H4 as (c & f & Hc & Hf & Ho & -> & Hfr4 & Hc4 & Henc4 & Hcap4).
    assert (is_open w4 (length (frames w3))) as Hopen4
      by (exists f; split; [rewrite Hfr4; now apply list_lookup_middle | exact Ho]).
    destruct (storeForValidation_completes env i (length (frames w3)) w4 Hopen4)
      as (w5 & H5 & He5 & Hc5 & Hf5).
    rewrite (bind_run _ _ _ _ _ H5) in H.
    destruct (VideoEncoderService.encodeFrame (length (frames w3)) (Nat.eqb i 0) w5)
      as [w6 [e6 | []]] eqn:H6.
    + rewrite (bind_fail _ _ _ _ _ H6) in H. injection H as <- <-.
      apply encodeFrame_inl in H6 as [-> ->].
      * exists (Some (length (frames w3))). split; [| easy].
        apply storeForValidation_frames in H5 as [_ H5].
        intros h (g & Hg & Hgo). rewrite Hc5, Hc4.
        destruct (decide (h < length (frames w3))%nat) as [Hlt | Hge].
        -- assert (is_open w3 h) as Ho3.
           { exists g. split; [| exact Hgo].
             destruct H5 as [-> | (f5 & Hfr5 & _)];
               [| rewrite Hfr5 in Hg; rewrite lookup_app_l in Hg
                    by (rewrite Hfr4, length_app; cbn; lia)];
               rewrite Hfr4 in Hg; now rewrite lookup_app_l in Hg. }
           destruct (H3 h Ho3) as [Hcur | Hin]; [left; congruence |].
           right. left. destruct H5 as [-> | (f5 & _ & ->)];
             [| apply in_or_app; left]; now rewrite Hcap4.
        -- destruct (decide (h = length (frames w3))) as [-> | Hne]; [auto |].
           right. left. apply lookup_lt_Some in Hg.
           destruct H5 as [-> | (f5 & Hfr5 & ->)].
           ++ rewrite Hfr4, length_app in Hg. cbn in Hg. lia.
           ++ apply in_or_app. right. left.
              rewrite Hfr5, Hfr4, !length_app in Hg. rewrite Hfr4, length_app. cbn in *. lia.
      * revert He3. apply encoder_started_agree. now rewrite He5.
      * exists f. split; [apply Hf5; rewrite Hfr4; now apply list_lookup_middle | exact Ho].
    + rewrite (bind_run _ _ _ _ _ H6) in H.
      destruct (Nat.ltb i (count - 1)); discriminate H.
Qed.

Lemma captureStep_encoder_started (env : Env) (count : nat) (interval delay : Z) (i : nat)
  (w w' : World) :
  encoder_started w ->
  WebCodecsOrchestrator.captureStep env count interval delay i w = (w', inr tt) ->
  encoder_started w'.
Proof.
  intros He (w4 & frame & w5 & w6 & H4 & H5 & H6 & ->)%captureStep_inr. cbv zeta in H4.
  assert (encoder_started w6) as H.
  { assert (encoder_started w5) as (e & E & Hst).
    { apply (encoder_started_agree w4);
        [exact (respects_agree _ EncoderService _ _ _ _
                  (storeForValidation_modifies env _ _) eq_refl H5) |].
      eapply encoder_started_agree;
        [exact (respects_agree _ EncoderService _ _ _ _ captureFrame_modifies eq_refl H4) |].
      apply whileWaiting_encoder_started. revert He. apply encoder_started_agree.
      cbn. apply (setColor_modifies _ w EncoderService eq_refl). }
    unfold VideoEncoderService.encodeFrame in H6. rewrite E in H6.
    repeat case_match; simplify_eq. eexists. split; [reflexivity | exact Hst]. }
  destruct (Nat.ltb i (count - 1)); [revert H; apply encoder_started_agree |]; easy.
Qed.

Lemma captureAndEncodeFrames_inl (env : Env) (w w' : World) (e : JsError) :
  settled w -> encoder_started w ->
  WebCodecsOrchestrator.captureAndEncodeFrames env w = (w', inl e) ->
  exists o, owned o w' /\ (o <> None -> e = Error "Encoder is in closed state").
Proof.
  intros Hs He H. unfold WebCodecsOrchestrator.captureAndEncodeFrames in H.
  erewrite (bind_run _ _ w _ tt) in H by reflexivity.
  erewrite (bind_run _ _ _ _ tt) in H by reflexivity.
  set (w1 := set_capturedFramesForValidation [] (ScreenFlashController.show w)) in H.
  assert (accounted w1 /\ encoder_started w1) as H1.
  { split.
    - intros h Ho. left. cbn.
      rewrite (show_modifies w Capture eq_refl : _ = _). apply Hs.
      destruct Ho as (f & Hf & Ho). exists f. cbn in Hf.
      now rewrite (show_modifies w Frames eq_refl : _ = _) in Hf.
    - revert He. apply encoder_started_agree. cbn.
      apply (show_modifies w EncoderService eq_refl). }
  clearbody w1. unfold WebCodecsOrchestrator.captureLoop in H.
  set (body := WebCodecsOrchestrator.captureStep env WebCodecsOrchestrator.FRAME_COUNT
                 WebCodecsOrchestrator.FRAME_INTERVAL_MS
                 WebCodecsOrchestrator.FLASH_DISPLAY_DELAY_MS) in H.
  destruct (for_of (seq 0 WebCodecsOrchestrator.FRAME_COUNT) body w1) as [w2 r2] eqn:L.
  assert (match r2 with
          | inr _ => accounted w2 /\ encoder_started w2
          | inl e => exists o, owned o w2
                               /\ (o <> None -> e = Error "Encoder is in closed state")
          end) as Hout.
  { apply (for_of_outcome (fun s => accounted s /\ encoder_started s)
             (fun s e => exists o, owned o s
                                   /\ (o <> None -> e = Error "Encoder is in closed state"))
             (seq 0 WebCodecsOrchestrator.FRAME_COUNT) body) with (s := w1);
      [| exact H1 | exact L].
    intros x s s' [e0 | []] [Ha0 He0] Hstep.
    - exact (captureStep_inl env _ _ _ x s s' e0 Ha0 He0 Hstep).
    - split.
      + exact (captureStep_accounted env _ _ _ x s s' Ha0 Hstep).
      + exact (captureStep_encoder_started env _ _ _ x s s' He0 Hstep). }
  destruct r2 as [e2 | []].
  - rewrite (bind_fail _ _ _ _ _ L) in H. injection H as <- <-. exact Hout.
  - rewrite (bind_run _ _ _ _ _ L) in H.
    erewrite (bind_run _ _ _ _ tt) in H by reflexivity.
    exists None. split; [| easy]. apply accounted_owned. destruct Hout as [Ha2 _].
    revert Ha2. change (preserves accounted w2 w').
    transitivity (ScreenFlashController.hide w2).
    + apply accounted_agree.
      * apply (hide_modifies w2 Frames eq_refl).
      * now rewrite (hide_modifies w2 Capture eq_refl : _ = _).
      * apply (hide_modifies w2 CapturedFrames eq_refl).
    + apply accounted_agree.
      * exact (respects_agree _ Frames _ _ _ _ flush_modifies eq_refl H).
      * now rewrite (respects_agree _ Capture _ _ _ _ flush_modifies eq_refl H : _ = _).
      * exact (respects_agree _ CapturedFrames _ _ _ _ flush_modifies eq_refl H).
Qed.

Lemma renderLoop_opens_none (fs : list nat) :
  respects opens_none (VideoDecoderService.renderLoop fs).
Proof.
  induction fs as [| frame rest IH]; cbn [VideoDecoderService.renderLoop].
  - apply (respects_ret opens_none).
  - apply (respects_bind opens_none).
    { intros w w' r H. apply opens_none_agree.
      exact (respects_agree _ Frames _ _ _ _ (drawImage_modifies frame) eq_refl H). }
    intros _. apply (respects_bind opens_none).
    { destruct rest; [apply (respects_ret opens_none) |].
      apply (respects_exec opens_none). intros w. now apply opens_none_agree. }
    intros _. apply (respects_bind opens_none); [| intros _; exact IH].
    apply (respects_exec opens_none). intros w h (f & Hf & Ho).
    exists f. split; [| exact Ho]. now apply (close_in_open frame h (frames w) f).
Qed.

(** A playback that fails leaves no frame live that was not live before,
    but frames that the decoder service holds. *)
Lemma VideoDecoderService_decodeAndRender_inl (chunks : list IEncodedChunk)
  (hasContext : bool) (w w' : World) (e : JsError) :
  VideoDecoderService.decodeAndRender chunks hasContext w = (w', inl e) ->
  forall h, is_open w' h -> is_open w h \/ In h (decodedFrames (decoderService w')).
Proof.
  unfold VideoDecoderService.decodeAndRender. intros H.
  destruct (decoder (decoderService w)) as [d |] eqn:D; [| injection H as <- _; auto].
  destruct (for_of chunks (fun chunk => VideoDecoderService.decode (data chunk)) w)
    as [w1 [e1 | []]] eqn:H1.
  { rewrite (bind_fail _ _ _ _ _ H1) in H. injection H as <- _. intros h Ho. left.
    revert h Ho. apply opens_none_agree.
    apply (respects_agree [DecoderService] Frames _ _ _ _
             (respects_for_of (modifies [DecoderService]) _ _
                (fun chunk => decode_modifies (data chunk))) eq_refl H1). }
  rewrite (bind_run _ _ _ _ _ H1) in H.
  destruct (decode_all_inr chunks w w1 d D H1) as (d' & -> & Hst & _).
  set (w1 := VideoDecoderService.set_decoder (Some d') w) in *.
  destruct (VideoDecoderService.decoder_flush w1) as [w2 [e2 | []]] eqn:H2.
  { rewrite (bind_fail _ _ _ _ _ H2) in H. injection H as <- _.
    unfold VideoDecoderService.decoder_flush in H2. cbn in H2.
    destruct (negb _) in H2; [| discriminate H2]. injection H2 as <-. auto. }
  rewrite (bind_run _ _ _ _ _ H2) in H.
  assert (forall h, is_open w2 h -> is_open w h \/ In h (decodedFrames (decoderService w2)))
    as Hflush.
  { destruct (CodecState_eqb (dec_state d') configured) eqn:S;
      [| unfold VideoDecoderService.decoder_flush in H2; cbn in H2; rewrite S in H2;
         discriminate H2].
    assert (dec_state d' = configured) as Hc by (destruct (dec_state d'); easy).
    rewrite (decoder_flush_run w1 d' eq_refl Hc) in H2. injection H2 as <-.
    intros h (f & Hf & Ho). cbn in Hf |- *.
    apply lookup_app_Some in Hf as [Hf | [Hge Hf]]; [left; now exists f | right].
    apply lookup_lt_Some in Hf. rewrite length_map in Hf.
    apply in_or_app. right. apply in_seq. lia. }
  unfold VideoDecoderService.renderFrames in H.
  destruct (negb hasContext); [injection H as <- _; exact Hflush |].
  erewrite (bind_run _ _ w2 w2 _) in H by reflexivity.
  destruct (decodedFrames (decoderService w2)) as [| f0 fs] eqn:F; [discriminate H |].
  destruct (VideoDecoderService.renderLoop (f0 :: fs) w2) as [w3 [e3 | []]] eqn:H3.
  - rewrite (bind_fail _ _ _ _ _ H3) in H. injection H as <- _. intros h Ho.
    apply (renderLoop_opens_none _ _ _ _ H3) in Ho.
    rewrite (respects_agree _ DecoderService _ _ _ _ (renderLoop_modifies _) eq_refl H3 : _ = _).
    rewrite F. now apply Hflush.
  - rewrite (bind_run _ _ _ _ _ H3) in H. discriminate H.
Qed.

Lemma decodeAndRender_inl (env : Env) (w w' : World) (e : JsError) :
  accounted w ->
  WebCodecsOrchestrator.decodeAndRender env w = (w', inl e) ->
  owned None w'.
Proof.
  intros Ha H.
  pose proof (respects_agree _ Capture _ _ _ _ (decodeAndRender_modifies env) eq_refl H) as Hc.
  pose proof (respects_agree _ CapturedFrames _ _ _ _ (decodeAndRender_modifies env) eq_refl H)
    as Hs.
  cbn in Hc, Hs.
  assert (forall h, is_open w' h -> is_open w h \/ In h (decodedFrames (decoderService w')))
    as Hopen.
  { unfold WebCodecsOrchestrator.decodeAndRender in H.
    erewrite (bind_run _ _ w w _) in H by reflexivity.
    destruct (VideoEncoderService.getEncodedChunks w) as [| chunk chunks];
      [injection H as <- _; auto |].
    erewrite (bind_run _ _ w w _) in H by reflexivity.
    destruct (mediaStream w) as [stream |]; [| injection H as <- _; auto].
    destruct (WebCodecsOrchestrator.videoTrackSettings stream w) as [w1 [e1 | k]] eqn:H1.
    { rewrite (bind_fail _ _ _ _ _ H1) in H. injection H as <- _. intros h Ho. left.
      revert h Ho. apply opens_none_agree.
      exact (respects_agree _ Frames _ _ _ _ (videoTrackSettings_modifies _) eq_refl H1). }
    rewrite (bind_run _ _ _ _ _ H1) in H. cbv zeta in H.
    assert (w1 = w) as ->.
    { unfold WebCodecsOrchestrator.videoTrackSettings in H1.
      repeat case_match; now simplify_eq. }
    unfold VideoDecoderService.initialize in H.
    destruct (negb _) in H; [injection H as <- _; auto |].
    erewrite (bind_run _ _ w _ tt) in H by reflexivity.
    intros h Ho.
    destruct (VideoDecoderService_decodeAndRender_inl _ _ _ _ _ H h Ho) as [Ho' | Hin];
      [left | now right].
    destruct Ho' as (f & Hf & Hfo). now exists f. }
  intros h Ho. destruct (Hopen h Ho) as [Ho' | Hin]; [| auto].
  rewrite Hc, Hs. destruct (Ha h Ho'); auto.
Qed.

Lemma validateCapturedFrames_inl (env : Env) (w w' : World) (e : JsError) :
  accounted w ->
  WebCodecsOrchestrator.validateCapturedFrames env w = (w', inl e) ->
  accounted w'.
Proof.
  intros Ha H.
  destruct (faceDetectionService env) as [service |] eqn:Hs.
  - destruct (capturedFramesForValidation w) as [| h0 hs] eqn:E.
    + unfold WebCodecsOrchestrator.validateCapturedFrames, bind, gets in H.
      rewrite Hs, E in H. discriminate H.
    + rewrite (validateCapturedFrames_run env service w Hs) in H by now rewrite E.
      destruct (WebCodecsOrchestrator.validateLoop service 0 _ _) as [w1 r1] eqn:L.
      destruct (validateLoop_outcome _ _ _ _ _ _ L) as (rs & _ & Hfr & _).
      pose proof (validateLoop_modifies service 0 _ _ _ _ L Capture eq_refl) as Hcapt.
      pose proof (validateLoop_modifies service 0 _ _ _ _ L CapturedFrames eq_refl) as Hst.
      destruct r1 as [e1 | []]; [| discriminate H]. injection H as <- _.
      cbn in Hfr, Hcapt, Hst.
      intros h (f & Hf & Ho). rewrite Hfr in Hf. rewrite Hcapt, Hst.
      destruct (close_all_open _ _ _ _ Hf Ho) as [Hf0 _].
      apply Ha. now exists f.
  - unfold WebCodecsOrchestrator.validateCapturedFrames, bind, gets in H.
    rewrite Hs in H. discriminate H.
Qed.

(** The cleanup closes the frame held, the decoded frames and the stored
    frames: a frame that is live after it was live before and was none of
    these. *)
Lemma cleanup_closes_owned (o : option nat) (w : World) (h : nat) :
  owned o w -> is_open (WebCodecsOrchestrator.cleanup w) h -> o = Some h.
Proof.
  intros Hown (f & Hf & Ho). rewrite cleanup_eq in Hf. cbn in Hf.
  destruct (close_all_open _ _ _ _ Hf Ho) as [Hf0 Hnotin].
  assert (frames w !! h = Some f /\ currentFrame (capture w) <> Some h) as [Hfw Hcur].
  { destruct (currentFrame (capture w)) as [c |]; cbn in Hf0; [| easy].
    destruct (close_in_open c h (frames w) f Hf0 Ho) as [Hne Hfw]. split; [exact Hfw | congruence]. }
  destruct (Hown h) as [Hc | [Hin | [Hin | Hleft]]];
    [now exists f | contradiction | | | exact Hleft];
    exfalso; apply Hnotin, in_or_app; auto.
Qed.

Lemma stages_outcome (env : Env) (w w1 : World) (r : JsError + unit) :
  settled w ->
  stages env w = (w1, r) ->
  exists o, owned o w1 /\ (o <> None -> r = inl (Error "Encoder is in closed state")).
Proof.
  intros Hs H. unfold stages in H.
  assert (forall s, settled s -> owned None s) as Hso
    by (intros s Hst h Ho; left; now apply Hst).
  destruct (WebCodecsOrchestrator.initializeCamera env w) as [wa [ea | []]] eqn:Hcam;
    pose proof (initializeCamera_settled env _ _ _ Hcam Hs) as Hsa.
  { rewrite (bind_fail _ _ _ _ _ Hcam) in H. injection H as <- <-.
    exists None. split; [now apply Hso | easy]. }
  rewrite (bind_run _ _ _ _ _ Hcam) in H.
  destruct (WebCodecsOrchestrator.initializeEncoder env wa) as [wb [eb | []]] eqn:Henc.
  all: assert (settled wb) as Hsb
    by (revert Hsa; apply settled_agree;
        [exact (respects_agree _ Frames _ _ _ _ (initializeEncoder_modifies env) eq_refl Henc)
        | now rewrite (respects_agree _ Capture _ _ _ _ (initializeEncoder_modifies env)
                         eq_refl Henc : _ = _)]).
  { rewrite (bind_fail _ _ _ _ _ Henc) in H. injection H as <- <-.
    exists None. split; [now apply Hso | easy]. }
  rewrite (bind_run _ _ _ _ _ Henc) in H.
  assert (encoder_started wb) as Heb.
  { eexists. rewrite (initializeEncoder_fresh _ _ _ Henc). split; [reflexivity | discriminate]. }
  destruct (WebCodecsOrchestrator.captureAndEncodeFrames env wb) as [wc [ec | []]] eqn:Hcap.
  { rewrite (bind_fail _ _ _ _ _ Hcap) in H. injection H as <- <-.
    destruct (captureAndEncodeFrames_inl env wb wc ec Hsb Heb Hcap) as (o & Hown & Hec).
    exists o. split; [exact Hown |]. intros Hn. now rewrite (Hec Hn). }
  rewrite (bind_run _ _ _ _ _ Hcap) in H.
  pose proof (captureAndEncodeFrames_accounted env wb wc Hsb Hcap) as Hc.
  destruct (WebCodecsOrchestrator.decodeAndRender env wc) as [wd [ed | []]] eqn:Hdec.
  { rewrite (bind_fail _ _ _ _ _ Hdec) in H. injection H as <- <-.
    exists None. split; [exact (decodeAndRender_inl env wc wd ed Hc Hdec) | easy]. }
  rewrite (bind_run _ _ _ _ _ Hdec) in H.
  destruct (decodeAndRender_accounted env wc wd Hc Hdec) as [Hd _].
  exists None. split; [| easy]. apply accounted_owned.
  destruct (bool_decide _); [| now injection H as <- _].
  destruct r as [e | []].
  - exact (validateCapturedFrames_inl env wd w1 e Hd H).
  - exact (validateCapturedFrames_accounted env wd w1 Hd H).
Qed.

(** X17. A run leaves at most one frame live, and only when it fails
    because the encoder refuses a frame. Started with no frame live but
    the one that the capture service may hold, [execute], however it
    ends, leaves every frame closed, with one exception: when
    [encodeFrame] throws, which it does with "Encoder is in closed state"
    after an error of the codec, the copy that was captured for it is
    closed by no one, the cleanup included. *)
Theorem run_leaves_at_most_one_frame_live (env : Env) (w w' : World) (r : JsError + unit) :
  settled w ->
  WebCodecsOrchestrator.execute env w = (w', r) ->
  (forall h h', is_open w' h -> is_open w' h' -> h = h') /\
  (forall h, is_open w' h -> r = inl (Error "Encoder is in closed state")).
Proof.
  intros Hs Hrun. rewrite execute_stages in Hrun.
  destruct (stages env w) as [w1 r1] eqn:E. cbn in Hrun. injection Hrun as <- <-.
  destruct (stages_outcome env w w1 r1 Hs E) as (o & Hown & Hr).
  split.
  - intros h h' Ho Ho'. apply (cleanup_closes_owned o w1 h Hown) in Ho.
    apply (cleanup_closes_owned o w1 h' Hown) in Ho'. congruence.
  - intros h Ho. apply (cleanup_closes_owned o w1 h Hown) in Ho. apply Hr. congruence.
Qed.

Lemma run_leaves_at_most_one_frame_live_witness :
  is_open (fst (WebCodecsOrchestrator.execute (scenario (Some 3%nat) None) initial)) 8 /\
  snd (WebCodecsOrchestrator.execute (scenario (Some 3%nat) None) initial)
  = inl (Error "Encoder is in closed state").
Proof.
  assert (is_open (fst (WebCodecsOrchestrator.execute (scenario (Some 3%nat) None) initial)) 8)
    as Ho by (eexists; split; vm_compute; reflexivity).
  split; [exact Ho |].
  refine (proj2 (run_leaves_at_most_one_frame_live (scenario (Some 3%nat) None) initial
                   (fst (WebCodecsOrchestrator.execute (scenario (Some 3%nat) None) initial))
                   (snd (WebCodecsOrchestrator.execute (scenario (Some 3%nat) None) initial))
                   _ _) 8%nat Ho).
  - intros h (f & Hf & _). vm_compute in Hf. discriminate Hf.
  - vm_compute. reflexivity.
Defined.
